(** * Skip-vote coordination of slack-spotify-playlift

    A shallow embedding of the skip-vote path of the service:
    - [src/redis.js] (the store adapter: getSkipVote, setSkipVote,
      addThumbsUp, addThumbsDown, removeThumbsUp, removeThumbsDown,
      deleteSkipVote, findSkipVoteByMessageTs, getChannel, setChannel,
      updateChannel, getAllChannels, storeTeamToken, getTeamToken,
      getTeamByChannelId),
    - [src/spotify.js] (skipTrack, getCurrentlyPlayingTrack, parseSongText),
    - [src/slack.js] (postMessage, postSkipVoteMessage),
    - [src/app.js] (POST /skip, POST /process-skip, POST /emoji-callback).

    Asynchronous code is modelled in a state-and-exception monad over a
    [World]: the Redis keyspace with per-key time to live, a script of
    transient Redis faults, the log of Redis commands issued, the outbound
    calls made and the console's error lines. *)

From Stdlib Require Import ZArith NArith Ascii String DecimalString DecimalN.
From stdpp Require Import gmap strings list fin_maps.

#[local] Set Warnings "-register-all,-clear-no-such-hyp".
Open Scope string_scope.
Open Scope list_scope.

(** ** JavaScript values and JSON *)

Module JS.

(** The JSON-shaped fragment of JavaScript values, with [undefined].
    Numbers are integers; objects are property lists in insertion order. *)
Inductive js : Type :=
  | JUndefined
  | JNull
  | JBool (b : bool)
  | JNum (n : Z)
  | JStr (s : string)
  | JArr (xs : list js)
  | JObj (fields : list (string * js)).

(** [!x] is [negb (truthy x)]. *)
Definition truthy (v : js) : bool :=
  match v with
  | JUndefined | JNull => false
  | JBool b => b
  | JNum n => negb (n =? 0)%Z
  | JStr s => negb (String.eqb s EmptyString)
  | JArr _ | JObj _ => true
  end.

(** [!s] on a string that may be missing. *)
Definition falsy_str (s : option string) : bool :=
  match s with
  | None => true
  | Some s => String.eqb s EmptyString
  end.

(** Own-property lookup in a property list: the last binding of a name
    wins, as when an object literal or a JSON text repeats a name. *)
Fixpoint assoc_last (k : string) (fs : list (string * js)) : option js :=
  match fs with
  | [] => None
  | (k', v) :: rest =>
      match assoc_last k rest with
      | Some v' => Some v'
      | None => if String.eqb k k' then Some v else None
      end
  end.

(** [o.k] for a value [o] that is not [undefined] or [null]; a missing
    property reads as [undefined]. *)
Definition prop (o : js) (k : string) : js :=
  match o with
  | JObj fs => default JUndefined (assoc_last k fs)
  | _ => JUndefined
  end.

(** [x === y] on the scalar values compared in the program. *)
Definition strict_eq (x y : js) : bool :=
  match x, y with
  | JUndefined, JUndefined => true
  | JNull, JNull => true
  | JBool a, JBool b => Bool.eqb a b
  | JNum a, JNum b => (a =? b)%Z
  | JStr a, JStr b => String.eqb a b
  | _, _ => false
  end.

Definition dquote : ascii := "034"%char.
Definition backslash : ascii := "092"%char.

Definition hex_digit (n : N) : ascii :=
  if (n <? 10)%N then ascii_of_N (48 + n) else ascii_of_N (87 + n).

Definition hex_value (c : ascii) : option N :=
  let n := N_of_ascii c in
  if ((48 <=? n) && (n <=? 57))%N then Some (n - 48)%N
  else if ((97 <=? n) && (n <=? 102))%N then Some (n - 87)%N
  else if ((65 <=? n) && (n <=? 70))%N then Some (n - 55)%N
  else None.

(** QuoteJSONString: the escapes JSON.stringify writes. *)
Definition escape_char (c : ascii) : string :=
  let n := N_of_ascii c in
  if Ascii.eqb c dquote then String backslash (String dquote EmptyString)
  else if Ascii.eqb c backslash then String backslash (String backslash EmptyString)
  else if (n =? 8)%N then String backslash "b"
  else if (n =? 12)%N then String backslash "f"
  else if (n =? 10)%N then String backslash "n"
  else if (n =? 13)%N then String backslash "r"
  else if (n =? 9)%N then String backslash "t"
  else if (n <? 32)%N then
    String backslash
      (String "u" (String "0" (String "0"
        (String (hex_digit (n / 16)) (String (hex_digit (n mod 16)) EmptyString)))))
  else String c EmptyString.

Fixpoint escape (s : string) : string :=
  match s with
  | EmptyString => EmptyString
  | String c r => escape_char c +:+ escape r
  end.

Definition quote (s : string) : string :=
  String dquote (escape s +:+ String dquote EmptyString).

Fixpoint digits_of_uint (d : Decimal.uint) : string :=
  match d with
  | Decimal.Nil => EmptyString
  | Decimal.D0 d => String "0" (digits_of_uint d)
  | Decimal.D1 d => String "1" (digits_of_uint d)
  | Decimal.D2 d => String "2" (digits_of_uint d)
  | Decimal.D3 d => String "3" (digits_of_uint d)
  | Decimal.D4 d => String "4" (digits_of_uint d)
  | Decimal.D5 d => String "5" (digits_of_uint d)
  | Decimal.D6 d => String "6" (digits_of_uint d)
  | Decimal.D7 d => String "7" (digits_of_uint d)
  | Decimal.D8 d => String "8" (digits_of_uint d)
  | Decimal.D9 d => String "9" (digits_of_uint d)
  end.

(** [n.toString()] for a non-negative integer. *)
Definition N_to_string (n : N) : string := digits_of_uint (N.to_uint n).

Definition Z_to_string (z : Z) : string :=
  if (z <? 0)%Z then String "-" (N_to_string (Z.abs_N z)) else N_to_string (Z.abs_N z).

Definition join_comma (parts : list string) : string :=
  match parts with
  | [] => EmptyString
  | p :: ps => fold_left (fun acc q => acc +:+ "," +:+ q) ps p
  end.

(** SerializeJSONProperty: [None] is the [undefined] result, which drops
    the property from an object and prints as null inside an array. *)
Fixpoint stringify_value (v : js) : option string :=
  match v with
  | JUndefined => None
  | JNull => Some "null"
  | JBool true => Some "true"
  | JBool false => Some "false"
  | JNum n => Some (Z_to_string n)
  | JStr s => Some (quote s)
  | JArr xs =>
      Some ("[" +:+ join_comma (map (fun x => default "null" (stringify_value x)) xs) +:+ "]")
  | JObj fs =>
      Some ("{" +:+ join_comma
              (omap (fun kv => match kv with
                               | (k, w) =>
                                   match stringify_value w with
                                   | Some t => Some (quote k +:+ ":" +:+ t)
                                   | None => None
                                   end
                               end) fs) +:+ "}")
  end.

(** What JSON.parse returns on the text JSON.stringify wrote for [v]. *)
Fixpoint normalize (v : js) : js :=
  match v with
  | JArr xs => JArr (map (fun x => match x with JUndefined => JNull | _ => normalize x end) xs)
  | JObj fs =>
      JObj (omap (fun kv => match kv with
                            | (_, JUndefined) => None
                            | (k, w) => Some (k, normalize w)
                            end) fs)
  | _ => v
  end.

(** *** JSON.parse *)

Definition is_ws (c : ascii) : bool :=
  let n := N_of_ascii c in ((n =? 32) || (n =? 9) || (n =? 10) || (n =? 13))%N.

Fixpoint skip_ws (s : string) : string :=
  match s with
  | String c r => if is_ws c then skip_ws r else s
  | EmptyString => s
  end.

Definition is_digit (c : ascii) : bool :=
  let n := N_of_ascii c in ((48 <=? n) && (n <=? 57))%N.

Definition simple_escape (e : ascii) : option ascii :=
  if Ascii.eqb e dquote then Some dquote
  else if Ascii.eqb e backslash then Some backslash
  else if Ascii.eqb e "/" then Some "/"%char
  else if Ascii.eqb e "b" then Some "008"%char
  else if Ascii.eqb e "f" then Some "012"%char
  else if Ascii.eqb e "n" then Some "010"%char
  else if Ascii.eqb e "r" then Some "013"%char
  else if Ascii.eqb e "t" then Some "009"%char
  else None.

(** The bytes (UTF-8) of the code unit a [\uXXXX] escape denotes. *)
Definition utf8_of_code (n : N) : string :=
  if (n <? 128)%N then String (ascii_of_N n) EmptyString
  else if (n <? 2048)%N then
    String (ascii_of_N (192 + n / 64)) (String (ascii_of_N (128 + n mod 64)) EmptyString)
  else
    String (ascii_of_N (224 + n / 4096))
      (String (ascii_of_N (128 + (n / 64) mod 64))
         (String (ascii_of_N (128 + n mod 64)) EmptyString)).

(** The characters of a string literal, after its opening quote. *)
Fixpoint parse_chars (s : string) : option (string * string) :=
  match s with
  | EmptyString => None
  | String c r =>
      if Ascii.eqb c dquote then Some (EmptyString, r)
      else if Ascii.eqb c backslash then
        match r with
        | String e r1 =>
            match simple_escape e with
            | Some ch =>
                match parse_chars r1 with
                | Some (str, rest) => Some (String ch str, rest)
                | None => None
                end
            | None =>
                if Ascii.eqb e "u" then
                  match r1 with
                  | String h1 (String h2 (String h3 (String h4 r2))) =>
                      match hex_value h1, hex_value h2, hex_value h3, hex_value h4 with
                      | Some a, Some b, Some c', Some d =>
                          match parse_chars r2 with
                          | Some (str, rest) =>
                              Some (utf8_of_code (((a * 16 + b) * 16 + c') * 16 + d) +:+ str, rest)
                          | None => None
                          end
                      | _, _, _, _ => None
                      end
                  | _ => None
                  end
                else None
            end
        | EmptyString => None
        end
      else if (N_of_ascii c <? 32)%N then None
      else
        match parse_chars r with
        | Some (str, rest) => Some (String c str, rest)
        | None => None
        end
  end.

Definition digit_cons (c : ascii) (d : Decimal.uint) : Decimal.uint :=
  match (N_of_ascii c - 48)%N with
  | 0 => Decimal.D0 d | 1 => Decimal.D1 d | 2 => Decimal.D2 d | 3 => Decimal.D3 d
  | 4 => Decimal.D4 d | 5 => Decimal.D5 d | 6 => Decimal.D6 d | 7 => Decimal.D7 d
  | 8 => Decimal.D8 d | _ => Decimal.D9 d
  end%N.

(** The longest run of decimal digits at the head of [s]. *)
Fixpoint parse_digits (s : string) : Decimal.uint * string :=
  match s with
  | String c r =>
      if is_digit c then let '(d, rest) := parse_digits r in (digit_cons c d, rest)
      else (Decimal.Nil, s)
  | EmptyString => (Decimal.Nil, s)
  end.

(** An integer literal without sign: no empty run, no leading zero, and
    no fraction or exponent part (those are outside the modelled
    fragment and are refused). *)
Definition parse_nat_literal (s : string) : option (N * string) :=
  let '(d, rest) := parse_digits s in
  let after_ok :=
    match rest with
    | String c _ => negb (Ascii.eqb c "." || Ascii.eqb c "e" || Ascii.eqb c "E")
    | EmptyString => true
    end in
  match d with
  | Decimal.Nil => None
  | Decimal.D0 Decimal.Nil => if after_ok then Some (0%N, rest) else None
  | Decimal.D0 _ => None
  | _ => if after_ok then Some (N.of_uint d, rest) else None
  end.

Fixpoint parse_value (fuel : nat) (s : string) : option (js * string) :=
  match fuel with
  | O => None
  | S fuel =>
      match skip_ws s with
      | String "n" (String "u" (String "l" (String "l" r))) => Some (JNull, r)
      | String "t" (String "r" (String "u" (String "e" r))) => Some (JBool true, r)
      | String "f" (String "a" (String "l" (String "s" (String "e" r)))) => Some (JBool false, r)
      | String "[" r =>
          match skip_ws r with
          | String "]" r' => Some (JArr [], r')
          | _ =>
              match parse_elements fuel r with
              | Some (xs, r') => Some (JArr xs, r')
              | None => None
              end
          end
      | String "{" r =>
          match skip_ws r with
          | String "}" r' => Some (JObj [], r')
          | _ =>
              match parse_members fuel r with
              | Some (fs, r') => Some (JObj fs, r')
              | None => None
              end
          end
      | String "-" r =>
          match parse_nat_literal r with
          | Some (n, r') => Some (JNum (- Z.of_N n), r')
          | None => None
          end
      | String c r =>
          if Ascii.eqb c dquote then
            match parse_chars r with
            | Some (str, r') => Some (JStr str, r')
            | None => None
            end
          else if is_digit c then
            match parse_nat_literal (String c r) with
            | Some (n, r') => Some (JNum (Z.of_N n), r')
            | None => None
            end
          else None
      | EmptyString => None
      end
  end
with parse_elements (fuel : nat) (s : string) : option (list js * string) :=
  match fuel with
  | O => None
  | S fuel =>
      match parse_value fuel s with
      | Some (x, r) =>
          match skip_ws r with
          | String "," r' =>
              match parse_elements fuel r' with
              | Some (xs, r'') => Some (x :: xs, r'')
              | None => None
              end
          | String "]" r' => Some ([x], r')
          | _ => None
          end
      | None => None
      end
  end
with parse_members (fuel : nat) (s : string) : option (list (string * js) * string) :=
  match fuel with
  | O => None
  | S fuel =>
      match skip_ws s with
      | String c r =>
          if Ascii.eqb c dquote then
            match parse_chars r with
            | Some (k, r1) =>
                match skip_ws r1 with
                | String ":" r2 =>
                    match parse_value fuel r2 with
                    | Some (v, r3) =>
                        match skip_ws r3 with
                        | String "," r4 =>
                            match parse_members fuel r4 with
                            | Some (fs, r5) => Some ((k, v) :: fs, r5)
                            | None => None
                            end
                        | String "}" r4 => Some ([(k, v)], r4)
                        | _ => None
                        end
                    | None => None
                    end
                | _ => None
                end
            | None => None
            end
          else None
      | EmptyString => None
      end
  end.

(** [JSON.stringify v]; [None] is the [undefined] it returns for
    [undefined]. *)
Definition JSON_stringify (v : js) : option string := stringify_value v.

(** [JSON.parse text]; [None] is a thrown SyntaxError. *)
Definition JSON_parse (text : string) : option js :=
  match parse_value (S (String.length text)) text with
  | Some (v, rest) =>
      match skip_ws rest with
      | EmptyString => Some v
      | _ => None
      end
  | None => None
  end.

(** String conversion, as a template literal applies it. *)
Fixpoint to_str (v : js) : string :=
  match v with
  | JUndefined => "undefined"
  | JNull => "null"
  | JBool true => "true"
  | JBool false => "false"
  | JNum n => Z_to_string n
  | JStr s => s
  | JArr xs =>
      join_comma (map (fun x => match x with
                                | JUndefined | JNull => EmptyString
                                | _ => to_str x
                                end) xs)
  | JObj _ => "[object Object]"
  end.

(** [a || b]. *)
Definition js_or (a b : js) : js := if truthy a then a else b.

(** [s.split(sep)] for a one-character separator. *)
Fixpoint split_on (sep : ascii) (s : string) : list string :=
  match s with
  | EmptyString => [EmptyString]
  | String c r =>
      if Ascii.eqb c sep then EmptyString :: split_on sep r
      else match split_on sep r with
           | p :: ps => String c p :: ps
           | [] => [String c EmptyString]
           end
  end.

(** [xs[i]] on an array of strings. *)
Definition index (xs : list string) (i : nat) : js :=
  match xs !! i with
  | Some s => JStr s
  | None => JUndefined
  end.

(** *** Objects and strings beyond JSON *)

(** The own enumerable properties an object spread copies. *)
Definition own (v : js) : list (string * js) :=
  match v with
  | JObj fs => fs
  | JArr xs => imap (fun i x => (N_to_string (N.of_nat i), x)) xs
  | JStr s =>
      imap (fun i c => (N_to_string (N.of_nat i), JStr (String c EmptyString)))
           (list_ascii_of_string s)
  | _ => []
  end.

(** Defining the property [k] with value [v]: a name the object has
    keeps its place. *)
Definition set_prop (k : string) (v : js) (fs : list (string * js)) : list (string * js) :=
  if existsb (fun kv => String.eqb k kv.1) fs
  then map (fun kv => if String.eqb k kv.1 then (k, v) else kv) fs
  else fs ++ [(k, v)].

(** [{ ...a, ...b }]. *)
Definition spread2 (a b : js) : js :=
  JObj (fold_left (fun acc kv => set_prop kv.1 kv.2 acc) (own a ++ own b) []).

(** [parts.join(sep)]. *)
Definition join_with (sep : string) (parts : list string) : string :=
  match parts with
  | [] => EmptyString
  | p :: ps => fold_left (fun acc q => acc +:+ sep +:+ q) ps p
  end.

(** [s] without the prefix [p]. *)
Fixpoint strip_prefix (p s : string) : option string :=
  match p, s with
  | EmptyString, _ => Some s
  | String a p', String b s' => if Ascii.eqb a b then strip_prefix p' s' else None
  | String _ _, EmptyString => None
  end.

Definition bytes (ns : list N) : string := string_of_list_ascii (map ascii_of_N ns).

(** The WhiteSpace and LineTerminator code points, in UTF-8: TAB, LF,
    VT, FF, CR, SP, U+00A0, U+1680, U+2000 to U+200A, U+2028, U+2029,
    U+202F, U+205F, U+3000 and U+FEFF. *)
Definition whitespace : list string :=
  map bytes
    [[9]; [10]; [11]; [12]; [13]; [32]; [194; 160]; [225; 154; 128];
     [226; 128; 128]; [226; 128; 129]; [226; 128; 130]; [226; 128; 131];
     [226; 128; 132]; [226; 128; 133]; [226; 128; 134]; [226; 128; 135];
     [226; 128; 136]; [226; 128; 137]; [226; 128; 138];
     [226; 128; 168]; [226; 128; 169]; [226; 128; 175]; [226; 129; 159];
     [227; 128; 128]; [239; 187; 191]]%N.

(** [s] after the white-space code point it starts with, if it does. *)
Definition after_space (s : string) : option string :=
  head (omap (fun p => strip_prefix p s) whitespace).

Fixpoint trim_front (fuel : nat) (s : string) : string :=
  match fuel with
  | O => s
  | S n =>
      match after_space s with
      | Some r => trim_front n r
      | None => s
      end
  end.

(** [s.trimStart()]. *)
Definition trimStart (s : string) : string := trim_front (String.length s) s.

(** [s.trimEnd()]: what is left of a string of white space only is
    empty; any other string keeps its first byte. *)
Fixpoint trimEnd (s : string) : string :=
  match s with
  | EmptyString => EmptyString
  | String c r =>
      match trimStart s with
      | EmptyString => EmptyString
      | _ => String c (trimEnd r)
      end
  end.

(** [s.trim()]. *)
Definition trim (s : string) : string := trimEnd (trimStart s).

(** [s] without a double quote at its end. *)
Fixpoint drop_last_quote (s : string) : string :=
  match s with
  | EmptyString => EmptyString
  | String c EmptyString => if Ascii.eqb c dquote then EmptyString else s
  | String c r => String c (drop_last_quote r)
  end.

(** [s.replace(/^"|"$/g, '')]: a double quote at the start goes, and
    so does one at the end of what follows. *)
Definition strip_quotes (s : string) : string :=
  drop_last_quote
    (match s with
     | String c r => if Ascii.eqb c dquote then r else s
     | EmptyString => s
     end).

(** [s.replace(pat, '')] for a string pattern: the first occurrence
    goes. *)
Definition remove_first (pat s : string) : string :=
  match String.index 0 pat s with
  | Some i =>
      String.substring 0 i s
      +:+ String.substring (i + String.length pat) (String.length s) s
  | None => s
  end.

End JS.

Import JS.

(** ** The Redis server *)

Module Redis.

Inductive RVal : Type :=
  | RString (s : string)
  | RSet (members : gset string).

(** A key's value and its remaining time to live in seconds ([None]:
    the key does not expire). *)
Record Entry : Type := mkEntry { val : RVal; ttl : option nat }.

Abbreviation keyspace := (gmap string Entry).

Inductive Cmd : Type :=
  | GET (k : string)
  | SET (k v : string) (ex : option nat)
  | SADD (k : string) (ms : list string)
  | SREM (k m : string)
  | SMEMBERS (k : string)
  | EXPIRE (k : string) (seconds : nat)
  | DEL (ks : list string)
  | KEYS (pattern : string).

Definition is_write (c : Cmd) : bool :=
  match c with
  | SET _ _ _ | SADD _ _ | SREM _ _ | EXPIRE _ _ | DEL _ => true
  | GET _ | SMEMBERS _ | KEYS _ => false
  end.

(** The body of a bracket class of a glob pattern, after [[] and an
    optional [^]: whether [c] is in the class, and the pattern after the
    closing bracket. *)
Fixpoint class_match (p : string) (c : ascii) (acc : bool) : bool * string :=
  match p with
  | EmptyString => (acc, EmptyString)
  | String x r =>
      if Ascii.eqb x backslash then
        match r with
        | String y r' => class_match r' c (acc || Ascii.eqb y c)
        | EmptyString => (acc || Ascii.eqb x c, EmptyString)
        end
      else if Ascii.eqb x "]" then (acc, r)
      else
        match r with
        | String "-" (String hi r') =>
            let lo := N_of_ascii x in
            let hi := N_of_ascii hi in
            let n := N_of_ascii c in
            class_match r' c (acc || ((N.min lo hi <=? n) && (n <=? N.max lo hi))%N)
        | _ => class_match r c (acc || Ascii.eqb x c)
        end
  end.

(** Glob matching of key names (KEYS pattern), for patterns that do not
    consist of stars only. *)
Fixpoint glob_match (fuel : nat) (p s : string) : bool :=
  match fuel with
  | O => false
  | S fuel =>
      match p with
      | EmptyString => match s with EmptyString => true | _ => false end
      | String c p' =>
          if Ascii.eqb c "*" then
            (fix star (s : string) : bool :=
               glob_match fuel p' s
               || match s with
                  | String _ s' => star s'
                  | EmptyString => false
                  end) s
          else
            match s with
            | EmptyString => false
            | String x s' =>
                if Ascii.eqb c "?" then glob_match fuel p' s'
                else if Ascii.eqb c "[" then
                  let '(neg, body) :=
                    match p' with
                    | String "^" b => (true, b)
                    | _ => (false, p')
                    end in
                  let '(m, rest) := class_match body x false in
                  if xorb neg m then glob_match fuel rest s' else false
                else if Ascii.eqb c backslash then
                  match p' with
                  | String e p'' => Ascii.eqb e x && glob_match fuel p'' s'
                  | EmptyString => Ascii.eqb c x && glob_match fuel p' s'
                  end
                else Ascii.eqb c x && glob_match fuel p' s'
            end
      end
  end.

Definition matches (pattern key : string) : bool :=
  glob_match (S (String.length pattern)) pattern key.

(** A command's reply. *)
Inductive Reply : Type :=
  | Nil
  | Bulk (s : string)
  | Multi (xs : list string)
  | Int (n : nat)
  | Status
  | WrongType.

(** One command against the keyspace: the reply and the keyspace after. *)
Definition exec (c : Cmd) (db : keyspace) : Reply * keyspace :=
  match c with
  | GET k =>
      match db !! k with
      | None => (Nil, db)
      | Some (mkEntry (RString s) _) => (Bulk s, db)
      | Some (mkEntry (RSet _) _) => (WrongType, db)
      end
  | SET k v ex => (Status, <[k := mkEntry (RString v) ex]> db)
  | SADD k ms =>
      match db !! k with
      | None => (Int (size (list_to_set ms : gset string)),
                 <[k := mkEntry (RSet (list_to_set ms)) None]> db)
      | Some (mkEntry (RSet old) t) =>
          (Int (size (list_to_set ms ∖ old : gset string)),
           <[k := mkEntry (RSet (old ∪ list_to_set ms)) t]> db)
      | Some (mkEntry (RString _) _) => (WrongType, db)
      end
  | SREM k m =>
      match db !! k with
      | None => (Int 0, db)
      | Some (mkEntry (RSet old) t) =>
          let new := old ∖ {[m]} in
          (Int (if decide (m ∈ old) then 1 else 0),
           if decide (new = ∅) then delete k db else <[k := mkEntry (RSet new) t]> db)
      | Some (mkEntry (RString _) _) => (WrongType, db)
      end
  | SMEMBERS k =>
      match db !! k with
      | None => (Multi [], db)
      | Some (mkEntry (RSet s) _) => (Multi (elements s), db)
      | Some (mkEntry (RString _) _) => (WrongType, db)
      end
  | EXPIRE k seconds =>
      match db !! k with
      | None => (Int 0, db)
      | Some (mkEntry v _) => (Int 1, <[k := mkEntry v (Some seconds)]> db)
      end
  | DEL ks =>
      (Int (length (filter (fun k => is_Some (db !! k)) ks)),
       foldr delete db ks)
  | KEYS pattern =>
      (Multi (filter (fun k => matches pattern k = true) (map fst (map_to_list db))), db)
  end.

(** The keyspace [dt] seconds later: keys whose time to live has run out
    are gone, the others have [dt] seconds less to live. *)
Definition age (dt : nat) (db : keyspace) : keyspace :=
  omap (fun e => match ttl e with
                 | Some t => if (t <=? dt)%nat then None else Some (mkEntry (val e) (Some (t - dt)))
                 | None => Some e
                 end) db.

End Redis.

(** ** The world the handlers run in *)

(** What a thrown error is. *)
Inductive Exn : Type :=
  | ConnectionError          (* Redis unreachable, timed out, connect failed *)
  | ReplyError               (* Redis answered WRONGTYPE *)
  | SyntaxError              (* JSON.parse *)
  | TypeError                (* property of undefined or null, not a function *)
  | NotInstalled             (* getBotToken: no team record *)
  | SlackApiError            (* Slack answered ok: false *)
  | HttpError                (* an axios or QStash request failed *)
  | LookupFailed.            (* spotify.getCurrentlyPlayingTrack rethrow *)

(** [err.message], where the program reads it. *)
Definition message (e : Exn) : string :=
  match e with
  | ConnectionError => "Connection is closed."
  | ReplyError => "WRONGTYPE Operation against a key holding the wrong kind of value"
  | SyntaxError => "Unexpected token in JSON"
  | TypeError => "Cannot read properties of undefined"
  | NotInstalled => "App not installed in this workspace. Please install at /slack/install"
  | SlackApiError => "Slack API error"
  | HttpError => "Request failed"
  | LookupFailed => "Failed to get currently playing track"
  end.

(** The texts posted to the channel, by template. *)
Inductive Text : Type :=
  | SkipRequested (requestedBy trackName artistName : js)
  | SongSaved (trackName : js) (thumbsUpCount thumbsDownCount : nat)
  | SongSkipped (trackName artistName : js) (thumbsUpCount thumbsDownCount : nat).

(** Outbound calls. [live] is false when the mock branch answered. *)
Inductive Effect : Type :=
  | SlackPost (live : bool) (channel : js) (text : Text)
  | SpotifyNext (live : bool) (accessToken : js)
  | SpotifyCurrentlyPlaying (live : bool) (accessToken : js)
  | QStashPublish (channelId skipId teamId : js) (delay : nat).

(** console.error and console.warn lines. *)
Inductive LogLine : Type :=
  | LogMissingSignature
  | LogInvalidSignature
  | LogVerificationSkipped
  | LogSkipTrackError
  | LogNowPlayingError
  | LogProcessFailed (e : Exn)
  | LogSkipFailed (e : Exn).

Record World : Type := mkWorld {
  store : Redis.keyspace;
  faults : list bool;          (* the next Redis round trips: true fails *)
  cmds : list Redis.Cmd;       (* commands sent to Redis, oldest first *)
  outbox : list Effect;        (* outbound calls made, oldest first *)
  console : list LogLine;
  now : N                      (* Date.now(), milliseconds *)
}.

(** What Slack, Spotify and QStash answer, and the deployment's
    configuration. *)
Inductive NowPlaying : Type :=
  | Playing (name : js) (artists : string)
  | NothingPlaying
  | NowPlayingFails.

Record Env : Type := mkEnv {
  qstash : bool;                                  (* QSTASH_TOKEN is set *)
  receiver : option (js -> js -> bool);            (* Receiver.verify, when both signing keys are set *)
  slack_api : js -> Text -> string -> option js;   (* chat.postMessage: the response data *)
  spotify_next : js -> bool;                       (* POST /me/player/next succeeds *)
  spotify_now : js -> NowPlaying;                  (* GET /me/player/currently-playing *)
  qstash_publish : bool                            (* publishJSON succeeds *)
}.

Inductive Outcome (A : Type) : Type :=
  | Ret (a : A)
  | Throw (e : Exn).
Arguments Ret {A} a.
Arguments Throw {A} e.

(** Computations: a result or a thrown error, and the world after. *)
Definition M (A : Type) : Type := World -> Outcome A * World.

Definition ret {A} (a : A) : M A := fun w => (Ret a, w).
Definition throw {A} (e : Exn) : M A := fun w => (Throw e, w).
Definition bind {A B} (m : M A) (k : A -> M B) : M B :=
  fun w => match m w with
           | (Ret a, w') => k a w'
           | (Throw e, w') => (Throw e, w')
           end.
Definition try_catch {A} (m : M A) (handler : Exn -> M A) : M A :=
  fun w => match m w with
           | (Ret a, w') => (Ret a, w')
           | (Throw e, w') => handler e w'
           end.

Declare Scope m_scope.
Delimit Scope m_scope with M.
Notation "x <- m ;; k" := (bind m (fun x => k))
  (at level 100, m at next level, right associativity) : m_scope.
Notation "m ;;; k" := (bind m (fun _ => k))
  (at level 100, right associativity) : m_scope.
Open Scope m_scope.

Definition log (l : LogLine) : M unit :=
  fun w => (Ret tt, mkWorld (store w) (faults w) (cmds w) (outbox w) (console w ++ [l]) (now w)).

Definition emit (e : Effect) : M unit :=
  fun w => (Ret tt, mkWorld (store w) (faults w) (cmds w) (outbox w ++ [e]) (console w) (now w)).

Definition date_now : M N := fun w => (Ret (now w), w).

(** [o.k]: a TypeError when [o] is undefined or null. *)
Definition member (o : js) (k : string) : M js :=
  match o with
  | JUndefined | JNull => throw TypeError
  | _ => ret (prop o k)
  end.

(** The outcome of the next Redis round trip, from the fault script. *)
Definition next_fault (w : World) : bool * list bool :=
  match faults w with
  | b :: rest => (b, rest)
  | [] => (false, [])
  end.

(** One command through the client: a transient fault rejects it before
    the server sees it, a WRONGTYPE reply rejects it after. *)
Definition send (c : Redis.Cmd) : M Redis.Reply :=
  fun w =>
    let '(fails, rest) := next_fault w in
    if fails then
      (Throw ConnectionError, mkWorld (store w) rest (cmds w ++ [c]) (outbox w) (console w) (now w))
    else
      let '(r, db) := Redis.exec c (store w) in
      (match r with Redis.WrongType => Throw ReplyError | _ => Ret r end,
       mkWorld db rest (cmds w ++ [c]) (outbox w) (console w) (now w)).

(** The world [dt] seconds later. *)
Definition elapse (dt : nat) (w : World) : World :=
  mkWorld (Redis.age dt (store w)) (faults w) (cmds w) (outbox w) (console w)
          (now w + 1000 * N.of_nat dt).

(** ** src/redis.js: the store adapter *)

Module redis.

Definition CHANNEL_PREFIX : string := "channel:".
Definition SKIP_VOTE_PREFIX : string := "skipVote:".
Definition SKIP_VOTE_USERS_PREFIX : string := "skipVoteUsers:".
Definition TEAM_PREFIX : string := "team:".

(** TTL for skip votes (15 minutes). *)
Definition SKIP_VOTE_TTL : nat := 60 * 15.

(** A skip vote as the adapter hands it out and takes it in: the
    properties of the metadata object, and the two sets of user ids. *)
Record Vote : Type := mkVote {
  fields : list (string * js);
  thumbsUpUsers : gset string;
  thumbsDownUsers : gset string
}.

(** [vote.k] for a metadata property. *)
Definition vprop (v : Vote) (k : string) : js := prop (JObj (fields v)) k.

Definition voteKey (channelId skipId : js) : string :=
  SKIP_VOTE_PREFIX +:+ to_str channelId +:+ ":" +:+ to_str skipId.
Definition thumbsUpKey (skipId : js) : string :=
  SKIP_VOTE_USERS_PREFIX +:+ to_str skipId +:+ ":thumbsUp".
Definition thumbsDownKey (skipId : js) : string :=
  SKIP_VOTE_USERS_PREFIX +:+ to_str skipId +:+ ":thumbsDown".

(** The connection is checked, and opened when it is not ready, before
    every operation; this is a round trip of its own that can fail. *)
Definition ensureConnection : M unit :=
  fun w =>
    let '(fails, rest) := next_fault w in
    (if fails then Throw ConnectionError else Ret tt,
     mkWorld (store w) rest (cmds w) (outbox w) (console w) (now w)).

(** [redisClient.get(key)]: the string, or null. *)
Definition get (key : string) : M (option string) :=
  r <- send (Redis.GET key);;
  ret (match r with Redis.Bulk s => Some s | _ => None end).

(** [redisClient.smembers(key) || []]. *)
Definition smembers (key : string) : M (list string) :=
  r <- send (Redis.SMEMBERS key);;
  ret (match r with Redis.Multi xs => xs | _ => [] end).

(** [JSON.parse(value)], throwing on a text that is not JSON. *)
Definition parse (value : string) : M js :=
  match JSON_parse value with
  | Some v => ret v
  | None => throw SyntaxError
  end.

(** [value ? JSON.parse(value) : null]. *)
Definition parse_or_null (value : option string) : M js :=
  if falsy_str value then ret JNull else parse (default EmptyString value).

Definition getChannel (channelId : js) : M js :=
  ensureConnection;;;
  value <- get (CHANNEL_PREFIX +:+ to_str channelId);;
  parse_or_null value.

Definition getTeamToken (teamId : js) : M js :=
  ensureConnection;;;
  value <- get (TEAM_PREFIX +:+ to_str teamId);;
  parse_or_null value.

(** The own properties [{...vote}] copies, without the two names the
    caller then overwrites with the sets. *)
Definition spread (vote : js) : list (string * js) :=
  match vote with
  | JObj fs =>
      filter (fun kv => kv.1 ≠ "thumbsUpUsers" ∧ kv.1 ≠ "thumbsDownUsers") fs
  | JArr xs => imap (fun i x => (N_to_string (N.of_nat i), x)) xs
  | JStr s =>
      imap (fun i c => (N_to_string (N.of_nat i), JStr (String c EmptyString)))
           (list_ascii_of_string s)
  | _ => []
  end.

Definition getSkipVote (channelId skipId : js) : M (option Vote) :=
  ensureConnection;;;
  value <- get (voteKey channelId skipId);;
  if falsy_str value then ret None
  else
    vote <- parse (default EmptyString value);;
    (* Get the vote counts from Redis sets *)
    thumbsUpUsers <- smembers (thumbsUpKey skipId);;
    thumbsDownUsers <- smembers (thumbsDownKey skipId);;
    ret (Some (mkVote (spread vote) (list_to_set thumbsUpUsers) (list_to_set thumbsDownUsers))).

Definition setSkipVote (channelId skipId : js) (vote : Vote) : M unit :=
  ensureConnection;;;
  (* Store vote metadata *)
  send (Redis.SET (voteKey channelId skipId)
          (default EmptyString (JSON_stringify (JObj (fields vote))))
          (Some SKIP_VOTE_TTL));;;
  (* Store user sets separately *)
  (if (0 <? size (thumbsUpUsers vote))%nat then
     send (Redis.SADD (thumbsUpKey skipId) (elements (thumbsUpUsers vote)));;;
     send (Redis.EXPIRE (thumbsUpKey skipId) SKIP_VOTE_TTL);;;
     ret tt
   else ret tt);;;
  (if (0 <? size (thumbsDownUsers vote))%nat then
     send (Redis.SADD (thumbsDownKey skipId) (elements (thumbsDownUsers vote)));;;
     send (Redis.EXPIRE (thumbsDownKey skipId) SKIP_VOTE_TTL);;;
     ret tt
   else ret tt).

Definition addThumbsUp (skipId userId : js) : M unit :=
  ensureConnection;;;
  (* Add to thumbs up set (users can have both up and down) *)
  send (Redis.SADD (thumbsUpKey skipId) [to_str userId]);;;
  (* Refresh TTL *)
  send (Redis.EXPIRE (thumbsUpKey skipId) SKIP_VOTE_TTL);;;
  ret tt.

Definition addThumbsDown (skipId userId : js) : M unit :=
  ensureConnection;;;
  (* Add to thumbs down set (users can have both up and down) *)
  send (Redis.SADD (thumbsDownKey skipId) [to_str userId]);;;
  (* Refresh TTL *)
  send (Redis.EXPIRE (thumbsDownKey skipId) SKIP_VOTE_TTL);;;
  ret tt.

Definition removeThumbsUp (skipId userId : js) : M unit :=
  ensureConnection;;;
  send (Redis.SREM (thumbsUpKey skipId) (to_str userId));;;
  ret tt.

Definition removeThumbsDown (skipId userId : js) : M unit :=
  ensureConnection;;;
  send (Redis.SREM (thumbsDownKey skipId) (to_str userId));;;
  ret tt.

Definition deleteSkipVote (channelId skipId : js) : M unit :=
  ensureConnection;;;
  send (Redis.DEL [voteKey channelId skipId; thumbsUpKey skipId; thumbsDownKey skipId]);;;
  ret tt.

(** [redisClient.keys(pattern)]. *)
Definition keys (pattern : string) : M (list string) :=
  r <- send (Redis.KEYS pattern);;
  ret (match r with Redis.Multi xs => xs | _ => [] end).

(** The loop of findSkipVoteByMessageTs over the keys found. *)
Fixpoint findIn (channelId messageTs : js) (ks : list string) : M (option Vote) :=
  match ks with
  | [] => ret None
  | key :: rest =>
      value <- get key;;
      if falsy_str value then findIn channelId messageTs rest
      else
        vote <- parse (default EmptyString value);;
        ts <- member vote "messageTs";;
        if strict_eq ts messageTs then
          (* Extract skipId from key *)
          getSkipVote channelId (index (split_on ":" key) 2)
        else findIn channelId messageTs rest
  end.

Definition findSkipVoteByMessageTs (channelId messageTs : js) : M (option Vote) :=
  ensureConnection;;;
  (* Scan for skip votes in this channel *)
  ks <- keys (SKIP_VOTE_PREFIX +:+ to_str channelId +:+ ":*");;
  findIn channelId messageTs ks.

Definition setChannel (channelId data : js) : M unit :=
  ensureConnection;;;
  send (Redis.SET (CHANNEL_PREFIX +:+ to_str channelId)
          (default EmptyString (JSON_stringify data)) None);;;
  ret tt.

Definition updateChannel (channelId updates : js) : M js :=
  stored <- getChannel channelId;;
  let channel := js_or stored (JObj [("slackChannelId", channelId); ("queue", JArr [])]) in
  let updated := spread2 channel updates in
  setChannel channelId updated;;;
  ret updated.

(** The loop of getAllChannels over the keys found; assigning to the
    name [__proto__] defines no property. *)
Fixpoint collect (ks : list string) (channels : list (string * js)) : M js :=
  match ks with
  | [] => ret (JObj channels)
  | key :: rest =>
      value <- get key;;
      if falsy_str value then collect rest channels
      else
        let channelId := remove_first CHANNEL_PREFIX key in
        v <- parse (default EmptyString value);;
        collect rest (if String.eqb channelId "__proto__" then channels
                      else set_prop channelId v channels)
  end.

(** Debug/admin operations. *)
Definition getAllChannels : M js :=
  ensureConnection;;;
  ks <- keys (CHANNEL_PREFIX +:+ "*");;
  collect ks [].

(** Team token operations (for Slack OAuth). *)
Definition storeTeamToken (teamId tokenData : js) : M unit :=
  ensureConnection;;;
  send (Redis.SET (TEAM_PREFIX +:+ to_str teamId)
          (default EmptyString (JSON_stringify tokenData)) None);;;
  ret tt.

Definition getTeamByChannelId (channelId : js) : M js :=
  ensureConnection;;;
  value <- get ("channelTeam:" +:+ to_str channelId);;
  ret (match value with Some s => JStr s | None => JNull end).

End redis.

(** ** src/slack.js *)

Module slack.

(** [(Date.now() / 1000).toString()]. *)
Definition mock_ts (t : N) : string :=
  let q := (t / 1000)%N in
  let r := (t mod 1000)%N in
  let d (n : N) := String (ascii_of_N (48 + n)) EmptyString in
  if (r =? 0)%N then N_to_string q
  else if (r mod 100 =? 0)%N then N_to_string q +:+ "." +:+ d (r / 100)%N
  else if (r mod 10 =? 0)%N then N_to_string q +:+ "." +:+ d (r / 100)%N +:+ d ((r / 10) mod 10)%N
  else N_to_string q +:+ "." +:+ d (r / 100)%N +:+ d ((r / 10) mod 10)%N +:+ d (r mod 10)%N.

(** [!botToken || !botToken.startsWith('xoxb-')]: a token that is
    neither falsy nor a string has no startsWith. *)
Definition no_valid_token (botToken : js) : M bool :=
  if negb (truthy botToken) then ret true
  else match botToken with
       | JStr s => ret (negb (String.prefix "xoxb-" s))
       | _ => throw TypeError
       end.

(** Both posting functions, which differ in the text only. *)
Definition post (env : Env) (channel : js) (text : Text) (botToken : js) : M js :=
  mock <- no_valid_token botToken;;
  if mock then
    t <- date_now;;
    emit (SlackPost false channel text);;;
    ret (JObj [("ok", JBool true); ("ts", JStr (mock_ts t)); ("channel", channel)])
  else
    emit (SlackPost true channel text);;;
    match slack_api env channel text (to_str botToken) with
    | None => throw HttpError
    | Some data =>
        ok <- member data "ok";;
        if negb (truthy ok) then throw SlackApiError else ret data
    end.

Definition postMessage (env : Env) (channel : js) (text : Text) (botToken : js) : M js :=
  post env channel text botToken.

Definition postSkipVoteMessage (env : Env) (channel trackName artistName requestedBy botToken : js)
  : M js :=
  (* Post a skip vote message *)
  post env channel (SkipRequested requestedBy trackName artistName) botToken.

End slack.

(** ** src/spotify.js *)

Module spotify.

(** [!accessToken || accessToken === 'fake-access']. *)
Definition is_mock (accessToken : js) : bool :=
  negb (truthy accessToken) || strict_eq accessToken (JStr "fake-access").

(** Whether the skip succeeded; it never throws. *)
Definition skipTrack (env : Env) (accessToken : js) : M bool :=
  (* Skip to the next track *)
  if is_mock accessToken then
    emit (SpotifyNext false accessToken);;;
    ret true
  else
    emit (SpotifyNext true accessToken);;;
    if spotify_next env accessToken then ret true
    else
      (* Don't throw - skipping might fail if nothing is playing *)
      log LogSkipTrackError;;;
      ret false.

(** The track object (its trackName and artistName; the other
    properties are not read by the program), or null. *)
Definition getCurrentlyPlayingTrack (env : Env) (accessToken : js) : M js :=
  if is_mock accessToken then
    emit (SpotifyCurrentlyPlaying false accessToken);;;
    ret (JObj [("trackName", JStr "Mock Song"); ("artistName", JStr "Mock Artist");
               ("trackId", JStr "mock123")])
  else
    emit (SpotifyCurrentlyPlaying true accessToken);;;
    match spotify_now env accessToken with
    | Playing name artists =>
        ret (JObj [("trackName", name); ("artistName", JStr artists)])
    | NothingPlaying => ret JNull
    | NowPlayingFails => log LogNowPlayingError;;; throw LookupFailed
    end.

(** [text.split] exists on strings only. *)
Definition parseSongText (text : js) : M js :=
  match text with
  | JStr s =>
      (* Accept formats like: Song - Artist or "Song" - "Artist" or Song -Artist *)
      let parts := split_on "-" s in
      if (length parts <? 2)%nat then ret JNull
      else
        let title := strip_quotes (trim (default EmptyString (head parts))) in
        let artist := strip_quotes (trim (join_with "-" (tail parts))) in
        if negb (truthy (JStr title)) || negb (truthy (JStr artist)) then ret JNull
        else ret (JObj [("title", JStr title); ("artist", JStr artist)])
  | _ => throw TypeError
  end.

End spotify.

(** ** src/app.js *)

Module app.

(** The replies to a slash command, by template. *)
Inductive Reply : Type :=
  | NotConnected
  | QStashNotConfigured
  | NoSongPlaying
  | SkipVoteStarted (trackName : js)
  | FailedToSkip (message : string).

Inductive Response : Type :=
  | StatusSend (code : nat) (body : string)  (* res.status(code).send(body) *)
  | SendStatus (code : nat)                  (* res.sendStatus(code) *)
  | Send (body : js)                         (* res.send(body) *)
  | Json (reply : Reply).                    (* res.json({ text }) *)

(** Helper function to get bot token for a request. *)
Definition getBotToken (teamId : js) : M js :=
  teamData <- redis.getTeamToken teamId;;
  if negb (truthy teamData) then throw NotInstalled
  else ret (prop teamData "botToken").

(** [qstash.publishJSON({ url, body, delay })]. *)
Definition publishJSON (env : Env) (channelId skipId teamId : js) (delay : nat) : M unit :=
  emit (QStashPublish channelId skipId teamId delay);;;
  if qstash_publish env then ret tt else throw HttpError.

(** Skip song endpoint - invoked by Slack slash command /skip. *)
Definition skip (env : Env) (body : js) : M Response :=
  let channel_id := prop body "channel_id" in
  let user_name := prop body "user_name" in
  let user_id := prop body "user_id" in
  let team_id := prop body "team_id" in
  if negb (truthy channel_id) then ret (StatusSend 400 "Missing channel_id")
  else if negb (truthy team_id) then ret (StatusSend 400 "Missing team_id")
  else
    try_catch
      ((* Get bot token for this team *)
       botToken <- getBotToken team_id;;
       ch <- redis.getChannel channel_id;;
       if negb (truthy ch) || negb (truthy (prop ch "spotify")) then ret (Json NotConnected)
       else if negb (qstash env) then ret (Json QStashNotConfigured)
       else
         (* Get currently playing track *)
         currentTrack <-
           spotify.getCurrentlyPlayingTrack env (prop (prop ch "spotify") "accessToken");;
         if negb (truthy currentTrack) || negb (truthy (prop currentTrack "trackName"))
         then ret (Json NoSongPlaying)
         else
           (* Create a skip vote entry *)
           t <- date_now;;
           let skipId := JStr (N_to_string t) in
           let trackName := prop currentTrack "trackName" in
           let artistName := prop currentTrack "artistName" in
           let requestedBy := js_or user_name user_id in
           (* Post skip vote message to Slack (with bot token) *)
           message <-
             slack.postSkipVoteMessage env (prop ch "slackChannelId")
               trackName artistName requestedBy botToken;;
           let skipVote :=
             [("id", skipId); ("trackName", trackName); ("artistName", artistName);
              ("requestedBy", requestedBy); ("messageTs", prop message "ts");
              ("resolved", JBool false)] in
           (* Store in Redis with empty vote sets *)
           redis.setSkipVote channel_id skipId (redis.mkVote skipVote ∅ ∅);;;
           (* Schedule QStash job to process skip vote in 10 seconds *)
           publishJSON env channel_id skipId team_id 10;;;
           (* Respond immediately to Slack *)
           ret (Json (SkipVoteStarted trackName)))
      (fun err =>
         log (LogSkipFailed err);;;
         ret (Json (FailedToSkip (message err)))).

(** The body of /process-skip once the delivery is trusted. *)
Definition resolve (env : Env) (body : js) : M Response :=
  let channelId := prop body "channelId" in
  let skipId := prop body "skipId" in
  let teamId := prop body "teamId" in
  try_catch
    ((* Get bot token for this team *)
     botToken <- getBotToken teamId;;
     ch <- redis.getChannel channelId;;
     if negb (truthy ch) then ret (SendStatus 200)
     else
       skipVote <- redis.getSkipVote channelId skipId;;
       match skipVote with
       | None => ret (SendStatus 200)
       | Some skipVote =>
           (* Check if already resolved (shouldn't happen, but safety check) *)
           if truthy (redis.vprop skipVote "resolved") then ret (SendStatus 200)
           else
             let thumbsUpCount := size (redis.thumbsUpUsers skipVote) in
             let thumbsDownCount := size (redis.thumbsDownUsers skipVote) in
             (* Decide result *)
             resultMessage <-
               (if (thumbsDownCount <=? thumbsUpCount)%nat then
                  ret (SongSaved (redis.vprop skipVote "trackName")
                         thumbsUpCount thumbsDownCount)
                else
                  (* Skip the song *)
                  accessToken <- member (prop ch "spotify") "accessToken";;
                  spotify.skipTrack env accessToken;;;
                  ret (SongSkipped (redis.vprop skipVote "trackName")
                         (redis.vprop skipVote "artistName")
                         thumbsUpCount thumbsDownCount));;
             (* Post result to Slack (with bot token) *)
             slack.postMessage env (prop ch "slackChannelId") resultMessage botToken;;;
             (* Clean up skip vote from Redis *)
             redis.deleteSkipVote channelId skipId;;;
             ret (SendStatus 200)
       end)
    (fun err =>
       log (LogProcessFailed err);;;
       ret (SendStatus 500)).

(** Process skip vote - called by QStash after delay. *)
Definition process_skip (env : Env) (headers body : js) : M Response :=
  (* Verify QStash signature if receiver is configured *)
  match receiver env with
  | Some verify =>
      let signature := prop headers "upstash-signature" in
      if negb (truthy signature) then
        log LogMissingSignature;;;
        ret (StatusSend 401 "Unauthorized: Missing signature")
      else if verify signature body then resolve env body
      else
        log LogInvalidSignature;;;
        ret (StatusSend 401 "Unauthorized: Invalid signature")
  | None =>
      log LogVerificationSkipped;;;
      resolve env body
  end.

Definition is_thumbs_up (reaction : js) : bool :=
  strict_eq reaction (JStr "+1") || strict_eq reaction (JStr "thumbsup")
  || strict_eq reaction (JStr "thumbs_up").

Definition is_thumbs_down (reaction : js) : bool :=
  strict_eq reaction (JStr "-1") || strict_eq reaction (JStr "thumbsdown")
  || strict_eq reaction (JStr "thumbs_down").

(** Update vote sets based on reaction type. *)
Definition applyReaction (evType reaction skipId userId : js) : M unit :=
  (if strict_eq evType (JStr "reaction_added") then
     (if is_thumbs_up reaction then redis.addThumbsUp skipId userId else ret tt);;;
     (if is_thumbs_down reaction then redis.addThumbsDown skipId userId else ret tt)
   else ret tt);;;
  (if strict_eq evType (JStr "reaction_removed") then
     (if is_thumbs_up reaction then redis.removeThumbsUp skipId userId else ret tt);;;
     (if is_thumbs_down reaction then redis.removeThumbsDown skipId userId else ret tt)
   else ret tt).

(** Emoji callback from Slack Events API. A thrown error is not caught
    in this handler: the outcome [Throw] is a rejected handler, with no
    response sent. *)
Definition emoji_callback (payload : js) : M Response :=
  (* Slack URL verification challenge - respond with challenge value *)
  if strict_eq (prop payload "type") (JStr "url_verification") then
    ret (Send (prop payload "challenge"))
  else if strict_eq (prop payload "type") (JStr "event_callback") then
    let ev := prop payload "event" in
    evType <- member ev "type";;
    (* Only process reaction events *)
    if negb (strict_eq evType (JStr "reaction_added"))
       && negb (strict_eq evType (JStr "reaction_removed"))
    then ret (SendStatus 200)
    (* Only care about reactions to messages (not files, etc.) *)
    else if negb (truthy (prop ev "item"))
            || negb (strict_eq (prop (prop ev "item") "type") (JStr "message"))
    then ret (SendStatus 200)
    else
      let channelId := prop (prop ev "item") "channel" in
      let messageTs := prop (prop ev "item") "ts" in
      (* Find the skip vote that matches this message ts (ID) *)
      skipVote <- redis.findSkipVoteByMessageTs channelId messageTs;;
      match skipVote with
      (* Ignore reactions on messages that aren't tracked skip votes *)
      | None => ret (SendStatus 200)
      | Some skipVote =>
          (* Ignore if voting has been resolved (10 seconds passed) *)
          if truthy (redis.vprop skipVote "resolved") then ret (SendStatus 200)
          else
            let userId := prop ev "user" in
            let skipId := redis.vprop skipVote "id" in
            applyReaction evType (prop ev "reaction") skipId userId;;;
            (* Fetch updated counts for logging *)
            updatedVote <- redis.getSkipVote channelId skipId;;
            match updatedVote with
            | None => throw TypeError
            | Some _ => ret (SendStatus 200)
            end
      end
  else ret (SendStatus 200).

End app.

(** ** Vocabulary of the properties *)

(** No Redis round trip fails from here on. *)
Definition calm (w : World) : Prop := Forall (fun b => b = false) (faults w).

(** [w'] is [w] after read-only Redis traffic and nothing else. *)
Definition reads (w w' : World) : Prop :=
  store w' = store w /\ outbox w' = outbox w /\ console w' = console w /\ now w' = now w
  /\ (exists cs, cmds w' = cmds w ++ cs /\ Forall (fun c => Redis.is_write c = false) cs)
  /\ (exists n, faults w' = drop n (faults w)).

(** [w'] is [w] with no key written and no outbound call made: only
    read commands, and possibly console lines, were added. *)
Definition untouched (w w' : World) : Prop :=
  store w' = store w /\ outbox w' = outbox w
  /\ (exists cs, cmds w' = cmds w ++ cs /\ Forall (fun c => Redis.is_write c = false) cs).

(** A world that holds the keyspace [db] and nothing else. *)
Definition pure_world (db : Redis.keyspace) : World := mkWorld db [] [] [] [] 0.

(** What a computation finds in the keyspace [db] when Redis answers. *)
Definition observe {A} (m : M A) (db : Redis.keyspace) : Outcome A := (m (pure_world db)).1.

(** A computation that only reads Redis: it changes nothing, and its
    result is a function of the keyspace, or a connection error. *)
Definition reader {A} (m : M A) : Prop :=
  forall w,
    reads w (m w).2
    /\ ((m w).1 = observe m (store w) \/ (m w).1 = Throw ConnectionError)
    /\ (calm w -> (m w).1 = observe m (store w)).

(** The members of the set stored at [key] (none when the key is absent). *)
Definition members (db : Redis.keyspace) (key : string) : gset string :=
  match db !! key with
  | Some (Redis.mkEntry (Redis.RSet s) _) => s
  | _ => ∅
  end.

(** The key is absent or holds a set. *)
Definition set_or_absent (db : Redis.keyspace) (key : string) : Prop :=
  match db !! key with
  | Some (Redis.mkEntry (Redis.RString _) _) => False
  | _ => True
  end.

(** The remaining time to live of [key]. *)
Definition ttl_of (db : Redis.keyspace) (key : string) : option nat :=
  match db !! key with
  | Some e => Redis.ttl e
  | None => None
  end.

(** A computation that makes no outbound call. *)
Definition silent {A} (m : M A) : Prop := forall w, outbox (m w).2 = outbox w.

(** Whether a post with the bot token [tok] goes to the Slack API. *)
Definition live_token (tok : string) : bool :=
  negb (String.eqb tok EmptyString) && String.prefix "xoxb-" tok.



(** The world after the command [c] went through. *)
Definition sent (c : Redis.Cmd) (w : World) : World :=
  mkWorld (Redis.exec c (store w)).2 (tail (faults w)) (cmds w ++ [c]) (outbox w) (console w)
          (now w).

(** The world after the connection check went through. *)
Definition connected (w : World) : World :=
  mkWorld (store w) (tail (faults w)) (cmds w) (outbox w) (console w) (now w).


(** [m] returns from [w], with a result and a world that satisfy [Q]. *)
Definition returns {A} (m : M A) (w : World) (Q : A -> World -> Prop) : Prop :=
  exists a w', m w = (Ret a, w') /\ Q a w'.


Inductive Polarity : Type := Up | Down.

(** A reaction event as /emoji-callback reads it: [ev.type],
    [ev.reaction] and [ev.user]. *)
Definition Reaction : Type := js * js * js.

Definition polarity_key (p : Polarity) (skipId : js) : string :=
  match p with
  | Up => redis.thumbsUpKey skipId
  | Down => redis.thumbsDownKey skipId
  end.

(** The emoji names that stand for a vote of each polarity. *)
Definition aliases (p : Polarity) : list string :=
  match p with
  | Up => ["+1"; "thumbsup"; "thumbs_up"]
  | Down => ["-1"; "thumbsdown"; "thumbs_down"]
  end.

(** The user an event adds to ([true]) or removes from ([false]) the
    votes of polarity [p]; [None] when the event is not about [p]: its
    emoji is not one of the [aliases] of [p], or its type is neither
    reaction_added nor reaction_removed. *)
Definition touches (p : Polarity) (ev : Reaction) : option (string * bool) :=
  match ev with
  | (JStr evType, JStr emoji, userId) =>
      if bool_decide (emoji ∈ aliases p) then
        if String.eqb evType "reaction_added" then Some (to_str userId, true)
        else if String.eqb evType "reaction_removed" then Some (to_str userId, false)
        else None
      else None
  | _ => None
  end.

(** Whether the most recent event of [user] for polarity [p] was an
    add; [None] when [user] has no such event. Events are listed oldest
    first. *)
Fixpoint most_recent (p : Polarity) (user : string) (evs : list Reaction) : option bool :=
  match evs with
  | [] => None
  | ev :: rest =>
      match most_recent p user rest with
      | Some added => Some added
      | None =>
          match touches p ev with
          | Some (u, added) => if String.eqb u user then Some added else None
          | None => None
          end
      end
  end.

(** The users with an event for polarity [p], each once. *)
Definition users_of (p : Polarity) (evs : list Reaction) : list string :=
  remove_dups (omap (fun ev => fst <$> touches p ev) evs).

(** The number of distinct users whose most recent event for [p] was
    an add. *)
Definition current_voters (p : Polarity) (evs : list Reaction) : nat :=
  length (filter (fun u => most_recent p u evs = Some true) (users_of p evs)).

(** The vote mutations of a sequence of reaction events, in order. *)
Fixpoint applyReactions (skipId : js) (evs : list Reaction) : M unit :=
  match evs with
  | [] => ret tt
  | (evType, reaction, userId) :: rest =>
      app.applyReaction evType reaction skipId userId;;;
      applyReactions skipId rest
  end.

(** The sets of a vote after a step, as functions of the sets before. *)
Definition sets_become (skipId : js) (w : World) (fu fd : gset string -> gset string)
  (w' : World) : Prop :=
  calm w'
  /\ set_or_absent (store w') (redis.thumbsUpKey skipId)
  /\ set_or_absent (store w') (redis.thumbsDownKey skipId)
  /\ members (store w') (redis.thumbsUpKey skipId) = fu (members (store w) (redis.thumbsUpKey skipId))
  /\ members (store w') (redis.thumbsDownKey skipId)
     = fd (members (store w) (redis.thumbsDownKey skipId)).

(** The connection answers and both set keys can take members. *)
Definition ready (skipId : js) (w : World) : Prop :=
  calm w
  /\ set_or_absent (store w) (redis.thumbsUpKey skipId)
  /\ set_or_absent (store w) (redis.thumbsDownKey skipId).

(** How one event changes a set, by what it [touches]. *)
Definition change (t : option (string * bool)) (s : gset string) : gset string :=
  match t with
  | Some (u, true) => s ∪ {[u]}
  | Some (u, false) => s ∖ {[u]}
  | None => s
  end.


(** Every character of [s] passes [ok]. *)
Fixpoint all_chars (ok : ascii -> bool) (s : string) : bool :=
  match s with
  | EmptyString => true
  | String c r => ok c && all_chars ok r
  end.

(** The characters a glob pattern gives a meaning to. *)
Definition glob_special (c : ascii) : bool :=
  Ascii.eqb c "*" || Ascii.eqb c "?" || Ascii.eqb c "[" || Ascii.eqb c backslash.

Definition not_colon (c : ascii) : bool := negb (Ascii.eqb c ":").

(** An identifier that is taken literally in a key pattern and is one
    part of a key: no glob character and no colon. *)
Definition plain (s : string) : bool :=
  all_chars (fun c => negb (glob_special c) && not_colon c) s.


(** The key holds the JSON text of the record [vote]. *)
Definition stored_vote (db : Redis.keyspace) (key : string) (vote : js) : Prop :=
  exists text t,
    db !! key = Some (Redis.mkEntry (Redis.RString text) t)
    /\ text <> EmptyString /\ JSON_parse text = Some vote.

(** The vote keys of the channel are as the program writes them: the
    skip id has no colon, the value is a JSON text (or empty) that is
    not null, and the two set keys of the id can take members. *)
Definition channel_in_order (db : Redis.keyspace) (channelId : js) : Prop :=
  forall id e,
    db !! redis.voteKey channelId (JStr id) = Some e ->
    all_chars not_colon id = true
    /\ (exists text, Redis.val e = Redis.RString text
                     /\ (text = EmptyString
                         \/ exists vote, JSON_parse text = Some vote
                                         /\ vote <> JNull /\ vote <> JUndefined))
    /\ set_or_absent db (redis.thumbsUpKey (JStr id))
    /\ set_or_absent db (redis.thumbsDownKey (JStr id)).

(** The record of [id] as getSkipVote assembles it from [vote]. *)
Definition assembled (db : Redis.keyspace) (skipId vote : js) : redis.Vote :=
  redis.mkVote (redis.spread vote)
    (members db (redis.thumbsUpKey skipId))
    (members db (redis.thumbsDownKey skipId)).


(** The text after a JSON value: nothing, or a comma or a closing
    bracket or brace. *)
Definition terminated (rest : string) : Prop :=
  match rest with
  | EmptyString => True
  | String c _ => c = ","%char \/ c = "]"%char \/ c = "}"%char
  end.

(** An element of an array as JSON.stringify writes it and as
    JSON.parse reads it back: [undefined] becomes null. *)
Definition element_text (v : js) : string := default "null" (stringify_value v).
Definition element_value (v : js) : js :=
  match v with
  | JUndefined => JNull
  | _ => normalize v
  end.


(** The characters a JSON value's text starts with. *)
Definition value_start (c : ascii) : Prop :=
  c = "n"%char \/ c = "t"%char \/ c = "f"%char \/ c = "["%char \/ c = "{"%char
  \/ c = "-"%char \/ c = dquote
  \/ c = "0"%char \/ c = "1"%char \/ c = "2"%char \/ c = "3"%char \/ c = "4"%char
  \/ c = "5"%char \/ c = "6"%char \/ c = "7"%char \/ c = "8"%char \/ c = "9"%char.

Definition is_undefined (v : js) : bool :=
  match v with
  | JUndefined => true
  | _ => false
  end.

(** A property as JSON.stringify writes it. *)
Definition member_text (kv : string * js) : string :=
  quote kv.1 +:+ ":" +:+ element_text kv.2.

(** The properties JSON.stringify writes: those that are not undefined. *)
Definition written (fs : list (string * js)) : list (string * js) :=
  List.filter (fun kv => negb (is_undefined kv.2)) fs.

(** JSON.parse reads the text of [v] back, in front of any text that
    can follow a value. *)
Definition reads_back (v : js) : Prop :=
  forall rest fuel,
    terminated rest ->
    String.length (element_text v) < fuel ->
    parse_value fuel (element_text v +:+ rest) = Some (element_value v, rest).


(** A value that is not an array or an object. *)
Definition is_scalar (v : js) : bool :=
  match v with
  | JArr _ | JObj _ => false
  | _ => true
  end.


(** The keys a command can write. *)
Definition targets (c : Redis.Cmd) : list string :=
  match c with
  | Redis.SET k _ _ | Redis.SADD k _ | Redis.SREM k _ | Redis.EXPIRE k _ => [k]
  | Redis.DEL ks => ks
  | Redis.GET _ | Redis.SMEMBERS _ | Redis.KEYS _ => []
  end.

(** Started at time [t], [m] leaves the clock alone and writes no key
    outside [K], whatever Redis answers. *)
Definition confined {A} (t : N) (K : string -> Prop) (m : M A) : Prop :=
  forall w, now w = t ->
    now (m w).2 = t /\ forall k, ~ K k -> store (m w).2 !! k = store w !! k.

(** Whatever [m] returns satisfies [P]. *)
Definition yields {A} (P : A -> Prop) (m : M A) : Prop :=
  forall w a w', m w = (Ret a, w') -> P a.

(** The player reports [track] as the current track for [accessToken]. *)
Definition plays (env : Env) (accessToken track : js) : Prop :=
  (spotify.is_mock accessToken = true
   /\ track = JObj [("trackName", JStr "Mock Song"); ("artistName", JStr "Mock Artist");
                    ("trackId", JStr "mock123")])
  \/ (spotify.is_mock accessToken = false
      /\ exists name artists,
           spotify_now env accessToken = Playing name artists
           /\ track = JObj [("trackName", name); ("artistName", JStr artists)]).

(** A post of [text] with the bot token [tok] at time [t] is accepted
    and returns [data]. *)
Definition posted (env : Env) (channel : js) (text : Text) (tok : string) (t : N) (data : js)
  : Prop :=
  (live_token tok = false
   /\ data = JObj [("ok", JBool true); ("ts", JStr (slack.mock_ts t)); ("channel", channel)])
  \/ (live_token tok = true
      /\ slack_api env channel text tok = Some data
      /\ truthy (prop data "ok") = true).

(** The delivery passes the signature check of /process-skip. *)
Definition trusted (env : Env) (headers body : js) : Prop :=
  match receiver env with
  | Some verify =>
      truthy (prop headers "upstash-signature") = true
      /\ verify (prop headers "upstash-signature") body = true
  | None => True
  end.

(** The vote record /skip builds. *)
Definition new_vote (skipId track requestedBy posted_data : js) : list (string * js) :=
  [("id", skipId); ("trackName", prop track "trackName");
   ("artistName", prop track "artistName"); ("requestedBy", requestedBy);
   ("messageTs", prop posted_data "ts"); ("resolved", JBool false)].

Definition no_hyphen (c : ascii) : bool := negb (Ascii.eqb c "-").

(** A printable ASCII character other than the space. *)
Definition visible (c : ascii) : bool :=
  ((33 <=? N_of_ascii c) && (N_of_ascii c <=? 126))%N.

(** The last character of [String c r]. *)
Fixpoint last_char (c : ascii) (r : string) : ascii :=
  match r with
  | EmptyString => c
  | String d r' => last_char d r'
  end.

(** A string that starts and ends with a visible character. *)
Definition firm (s : string) : bool :=
  match s with
  | EmptyString => false
  | String c r => visible c && visible (last_char c r)
  end.

(** A title or an artist as it is typed: it starts and ends with a
    visible character that is not a double quote. *)
Definition word (s : string) : bool :=
  match s with
  | EmptyString => false
  | String c r =>
      firm s && negb (Ascii.eqb c dquote) && negb (Ascii.eqb (last_char c r) dquote)
  end.

(** [s] between double quotes. *)
Definition quoted (s : string) : string := String dquote (s +:+ String dquote EmptyString).

(** The channel record the keyspace holds for [id]: the value of a
    key that holds a JSON text. *)
Definition channel_record (db : Redis.keyspace) (id : string) : option js :=
  match db !! (redis.CHANNEL_PREFIX +:+ id) with
  | Some (Redis.mkEntry (Redis.RString text) _) =>
      if String.eqb text EmptyString then None else JSON_parse text
  | _ => None
  end.

(** Every key of a channel holds a JSON text, or nothing. *)
Definition channels_in_order (db : Redis.keyspace) : Prop :=
  forall id e,
    db !! (redis.CHANNEL_PREFIX +:+ id) = Some e ->
    exists text, Redis.val e = Redis.RString text
                 /\ (text = EmptyString \/ exists v, JSON_parse text = Some v).

(** A run of [m] throws the connection error exactly when one of its
    Redis round trips failed: [fs], the part of the fault script the
    run used up, then holds a fault. *)
Definition surfaces {A} (m : M A) : Prop :=
  forall w, exists fs,
    faults w = fs ++ faults (m w).2
    /\ (true ∈ fs <-> (m w).1 = Throw ConnectionError).

(** From [w] to [w'], [n] Redis round trips were made and none failed:
    [n] entries of the fault script are used up (all of it when it is
    shorter), none of them a fault. *)
Definition round_trips (n : nat) (w w' : World) : Prop :=
  faults w' = drop n (faults w) /\ Forall (fun b => b = false) (take n (faults w)).

(** ** A running example *)

Module Scenario.

Definition slack_ok : js := JObj [("ok", JBool true); ("ts", JStr "1700000000.5")].

Definition env : Env :=
  {| qstash := true;
     receiver := None;
     slack_api := fun _ _ _ => Some slack_ok;
     spotify_next := fun _ => true;
     spotify_now := fun _ => Playing (JStr "Song A") "Artist A";
     qstash_publish := true |}.

(** Slack cannot be reached. *)
Definition env_slack_down : Env :=
  {| qstash := true;
     receiver := None;
     slack_api := fun _ _ _ => None;
     spotify_next := fun _ => true;
     spotify_now := fun _ => Playing (JStr "Song A") "Artist A";
     qstash_publish := true |}.

(** Spotify refuses the skip command. *)
Definition env_skip_fails : Env :=
  {| qstash := true;
     receiver := None;
     slack_api := fun _ _ _ => Some slack_ok;
     spotify_next := fun _ => false;
     spotify_now := fun _ => Playing (JStr "Song A") "Artist A";
     qstash_publish := true |}.

(** Nothing is playing. *)
Definition env_silence : Env :=
  {| qstash := true;
     receiver := None;
     slack_api := fun _ _ _ => Some slack_ok;
     spotify_next := fun _ => true;
     spotify_now := fun _ => NothingPlaying;
     qstash_publish := true |}.

(** The signing keys are configured; the signature [good] verifies. *)
Definition env_signed : Env :=
  {| qstash := true;
     receiver := Some (fun signature _ => strict_eq signature (JStr "good"));
     slack_api := fun _ _ _ => Some slack_ok;
     spotify_next := fun _ => true;
     spotify_now := fun _ => Playing (JStr "Song A") "Artist A";
     qstash_publish := true |}.

(** QStash cannot be reached. *)
Definition env_publish_fails : Env :=
  {| qstash := true;
     receiver := None;
     slack_api := fun _ _ _ => Some slack_ok;
     spotify_next := fun _ => true;
     spotify_now := fun _ => Playing (JStr "Song A") "Artist A";
     qstash_publish := false |}.

Definition text (v : js) : string := default EmptyString (JSON_stringify v).

Definition team : js := JObj [("botToken", JStr "xoxb-1"); ("teamName", JStr "T")].

Definition channel : js :=
  JObj [("slackChannelId", JStr "C1"); ("queue", JArr []);
        ("spotify", JObj [("accessToken", JStr "tok"); ("refreshToken", JStr "ref");
                          ("expiresAt", JNum 1700003600000)])].

(** The app is installed for team T1 and channel C1 is connected. *)
Definition installed : Redis.keyspace :=
  <["team:T1" := Redis.mkEntry (Redis.RString (text team)) None]>
    (<["channel:C1" := Redis.mkEntry (Redis.RString (text channel)) None]> ∅).

Definition start : World := mkWorld installed [] [] [] [] 1700000000123.

Definition skip_body : js :=
  JObj [("channel_id", JStr "C1"); ("team_id", JStr "T1"); ("user_name", JStr "ann")].

(** After /skip: the vote 1700000000123 is open. *)
Definition created : World := (app.skip env skip_body start).2.

Definition reaction (evType name user : string) : js :=
  JObj [("type", JStr "event_callback");
        ("event", JObj [("type", JStr evType); ("reaction", JStr name); ("user", JStr user);
                        ("item", JObj [("type", JStr "message"); ("channel", JStr "C1");
                                       ("ts", JStr "1700000000.5")])])].

Definition react (payload : js) (w : World) : World := (app.emoji_callback payload w).2.

(** One thumbs up and two thumbs down. *)
Definition voted : World :=
  react (reaction "reaction_added" "thumbsdown" "U3")
    (react (reaction "reaction_added" "-1" "U2")
       (react (reaction "reaction_added" "+1" "U1") created)).

Definition skipId : js := JStr "1700000000123".

(** The start, with the fifth Redis round trip failing. *)
Definition outage : World :=
  mkWorld installed [false; false; false; false; true] [] [] [] 1700000000123.

(** The votes are in, and the Redis round trip [n] of the resolution
    fails, counted from 0: 0 to 3 load the team and the channel, 4 to 7
    the vote and its two sets, 8 and 9 delete it. *)
Definition failing (n : nat) : World :=
  mkWorld (store voted) (replicate n false ++ [true]) (cmds voted) (outbox voted)
          (console voted) (now voted).

(** The worlds along a resolution of the open vote. *)
Definition after_token : World := (app.getBotToken (JStr "T1") voted).2.
Definition after_channel : World := (redis.getChannel (JStr "C1") after_token).2.
Definition after_load : World := (redis.getSkipVote (JStr "C1") skipId after_channel).2.

Definition process_body : js :=
  JObj [("channelId", JStr "C1"); ("skipId", skipId); ("teamId", JStr "T1")].


(** The vote as a resolution loads it. *)
Definition loaded : redis.Vote :=
  match (redis.getSkipVote (JStr "C1") skipId after_channel).1 with
  | Ret (Some v) => v
  | _ => redis.mkVote [] ∅ ∅
  end.

(** A thumbs down given, taken back, and given by someone else. *)
Definition second_thoughts : list Reaction :=
  [(JStr "reaction_added", JStr "-1", JStr "U1");
   (JStr "reaction_removed", JStr "-1", JStr "U1");
   (JStr "reaction_added", JStr "thumbsdown", JStr "U2")].

(** A show of hands under every alias: U1 and U3 end with a thumbs up
    (U1 gives it twice), U1 takes a thumbs down back, U2 keeps one, U3
    takes back a thumbs down never given, and U4 sends a heart. *)
Definition show_of_hands : list Reaction :=
  [(JStr "reaction_added", JStr "+1", JStr "U1");
   (JStr "reaction_added", JStr "thumbsup", JStr "U3");
   (JStr "reaction_added", JStr "-1", JStr "U1");
   (JStr "reaction_added", JStr "thumbs_up", JStr "U1");
   (JStr "reaction_removed", JStr "thumbs_down", JStr "U1");
   (JStr "reaction_added", JStr "thumbsdown", JStr "U2");
   (JStr "reaction_removed", JStr "-1", JStr "U3");
   (JStr "reaction_added", JStr "heart", JStr "U4")].

(** The open vote, stored again with its resolved flag set. *)
Definition flagged : World :=
  (redis.setSkipVote (JStr "C1") skipId
     (redis.mkVote
        [("id", skipId); ("trackName", JStr "Song A"); ("artistName", JStr "Artist A");
         ("requestedBy", JStr "ann"); ("messageTs", JStr "1700000000.5");
         ("resolved", JBool true)] ∅ ∅) created).2.

(** The metadata of the open vote. *)
Definition metadata : js :=
  JObj [("id", skipId); ("trackName", JStr "Song A"); ("artistName", JStr "Artist A");
        ("requestedBy", JStr "ann"); ("messageTs", JStr "1700000000.5");
        ("resolved", JBool false)].

(** The keyspace after /skip, key by key. *)
Definition created_entries : list (string * Redis.Entry) :=
  [("skipVote:C1:1700000000123", Redis.mkEntry (Redis.RString (text metadata)) (Some 900));
   ("channel:C1", Redis.mkEntry (Redis.RString (text channel)) None);
   ("team:T1", Redis.mkEntry (Redis.RString (text team)) None)].

(** The track the player reports. *)
Definition track : js := JObj [("trackName", JStr "Song A"); ("artistName", JStr "Artist A")].

(** A reaction to a message of the channel that announces no vote. *)
Definition stray : js :=
  JObj [("type", JStr "event_callback");
        ("event", JObj [("type", JStr "reaction_added"); ("reaction", JStr "+1");
                        ("user", JStr "U1");
                        ("item", JObj [("type", JStr "message"); ("channel", JStr "C1");
                                       ("ts", JStr "1700000000.9")])])].

(** The keyspace at the start, key by key. *)
Definition start_entries : list (string * Redis.Entry) :=
  [("channel:C1", Redis.mkEntry (Redis.RString (text channel)) None);
   ("team:T1", Redis.mkEntry (Redis.RString (text team)) None)].

(** The start after the lookups of /skip when nothing is playing. *)
Definition no_track : World :=
  (spotify.getCurrentlyPlayingTrack env_silence (JStr "tok")
     (redis.getChannel (JStr "C1") (app.getBotToken (JStr "T1") start).2).2).2.

End Scenario.
(** * Properties *)

(** ** The monad *)

Lemma bind_ret {A B} (m : M A) (k : A -> M B) w a w' :
  m w = (Ret a, w') -> bind m k w = k a w'.
Proof. intros H. unfold bind. by rewrite H. Qed.

Lemma bind_throw {A B} (m : M A) (k : A -> M B) w e w' :
  m w = (Throw e, w') -> bind m k w = (Throw e, w').
Proof. intros H. unfold bind. by rewrite H. Qed.

Lemma calm_drop n w w' : faults w' = drop n (faults w) -> calm w -> calm w'.
Proof. unfold calm. intros -> H. by apply Forall_drop. Qed.

Lemma reads_refl w : reads w w.
Proof.
  repeat split; try done.
  - exists []. by rewrite app_nil_r.
  - by exists 0.
Qed.

Lemma reads_trans w1 w2 w3 : reads w1 w2 -> reads w2 w3 -> reads w1 w3.
Proof.
  intros (S1 & O1 & C1 & N1 & (cs1 & L1 & F1) & (n1 & D1))
         (S2 & O2 & C2 & N2 & (cs2 & L2 & F2) & (n2 & D2)).
  repeat split; try congruence.
  - exists (cs1 ++ cs2). split.
    + by rewrite L2, L1, app_assoc.
    + by apply Forall_app.
  - exists (n1 + n2). by rewrite D2, D1, drop_drop.
Qed.

Lemma reads_calm w w' : reads w w' -> calm w -> calm w'.
Proof. intros (_ & _ & _ & _ & _ & (n & D)). by apply calm_drop with n. Qed.

Lemma reads_untouched w w' : reads w w' -> untouched w w'.
Proof. intros (S & O & _ & _ & L & _). by repeat split. Qed.

Lemma untouched_refl w : untouched w w.
Proof. apply reads_untouched, reads_refl. Qed.

Lemma untouched_trans w1 w2 w3 : untouched w1 w2 -> untouched w2 w3 -> untouched w1 w3.
Proof.
  intros (S1 & O1 & (cs1 & L1 & F1)) (S2 & O2 & (cs2 & L2 & F2)).
  repeat split; try congruence.
  exists (cs1 ++ cs2). split.
  - by rewrite L2, L1, app_assoc.
  - by apply Forall_app.
Qed.

Lemma calm_pure_world db : calm (pure_world db).
Proof. constructor. Qed.

(** ** Readers *)

Lemma reader_ret {A} (a : A) : reader (ret a).
Proof. intros w. split; [apply reads_refl | by split; [left|]]. Qed.

Lemma reader_throw {A} (e : Exn) : reader (@throw A e).
Proof. intros w. split; [apply reads_refl | by split; [left|]]. Qed.

Lemma observe_bind {A B} (m : M A) (k : A -> M B) db :
  reader m -> (forall a, reader (k a)) ->
  observe (bind m k) db =
  match observe m db with
  | Ret a => observe (k a) db
  | Throw e => Throw e
  end.
Proof.
  intros Hm Hk. unfold observe, bind.
  destruct (Hm (pure_world db)) as (R & _ & _).
  destruct (m (pure_world db)) as [[a|e] w'] eqn:E; simpl in *; [|done].
  destruct (Hk a w') as (_ & _ & C).
  rewrite C.
  - unfold observe. destruct R as (-> & _). done.
  - eapply reads_calm; [exact R | apply calm_pure_world].
Qed.

Lemma reader_bind {A B} (m : M A) (k : A -> M B) :
  reader m -> (forall a, reader (k a)) -> reader (bind m k).
Proof.
  intros Hm Hk w.
  rewrite (observe_bind m k (store w) Hm Hk).
  destruct (Hm w) as (R & D & C).
  unfold bind. destruct (m w) as [[a|e] w'] eqn:E; simpl in *.
  - destruct (Hk a w') as (R' & D' & C').
    assert (S : store w' = store w) by apply R.
    split; [by eapply reads_trans|]. split.
    + destruct D as [<-|D]; [|done]. by rewrite <- S.
    + intros Hc. rewrite <- (C Hc), <- S. apply C'. by eapply reads_calm.
  - split; [done|]. split.
    + destruct D as [<-|D]; [by left | right; congruence].
    + intros Hc. by rewrite <- (C Hc).
Qed.

Lemma exec_read c db : Redis.is_write c = false -> (Redis.exec c db).2 = db.
Proof.
  destruct c; simpl; try done; intros _.
  - destruct (db !! k) as [[[] ?]|]; done.
  - destruct (db !! k) as [[[] ?]|]; done.
Qed.

Lemma reader_send c : Redis.is_write c = false -> reader (send c).
Proof.
  intros Hc w. unfold send, observe, next_fault. simpl.
  pose proof (exec_read c (store w) Hc) as Hx.
  destruct (Redis.exec c (store w)) as [r db] eqn:Ex. simpl in Hx. subst db.
  assert (Rd : forall fs, (exists n, fs = drop n (faults w)) ->
            reads w (mkWorld (store w) fs (cmds w ++ [c]) (outbox w) (console w) (now w))).
  { intros fs Hfs. repeat split; try done. exists [c]. split; [done|]. by constructor. }
  destruct (faults w) as [|[] fs] eqn:Ef; simpl.
  - split; [apply Rd; by exists 0|]. split; [by left|done].
  - split; [apply Rd; by exists 1|]. split; [by right|].
    unfold calm. rewrite Ef. by inversion 1.
  - split; [apply Rd; by exists 1|]. split; [by left|done].
Qed.

Lemma reader_ensureConnection : reader redis.ensureConnection.
Proof.
  intros w. unfold redis.ensureConnection, observe, next_fault. simpl.
  assert (Rd : forall fs, (exists n, fs = drop n (faults w)) ->
            reads w (mkWorld (store w) fs (cmds w) (outbox w) (console w) (now w))).
  { intros fs Hfs. repeat split; try done. exists []. by rewrite app_nil_r. }
  destruct (faults w) as [|[] fs] eqn:Ef; simpl.
  - split; [apply Rd; by exists 0|]. split; [by left|done].
  - split; [apply Rd; by exists 1|]. split; [by right|].
    unfold calm. rewrite Ef. by inversion 1.
  - split; [apply Rd; by exists 1|]. split; [by left|done].
Qed.

Lemma reader_member o k : reader (member o k).
Proof. destruct o; simpl; first [apply reader_throw | apply reader_ret]. Qed.

Lemma reader_parse value : reader (redis.parse value).
Proof. unfold redis.parse. destruct (JSON_parse value); [apply reader_ret | apply reader_throw]. Qed.

Lemma reader_parse_or_null value : reader (redis.parse_or_null value).
Proof. unfold redis.parse_or_null. destruct (falsy_str value); [apply reader_ret | apply reader_parse]. Qed.

Lemma reader_get key : reader (redis.get key).
Proof. apply reader_bind; [by apply reader_send | intros; apply reader_ret]. Qed.

Lemma reader_smembers key : reader (redis.smembers key).
Proof. apply reader_bind; [by apply reader_send | intros; apply reader_ret]. Qed.

Lemma reader_keys pattern : reader (redis.keys pattern).
Proof. apply reader_bind; [by apply reader_send | intros; apply reader_ret]. Qed.

Lemma reader_getChannel channelId : reader (redis.getChannel channelId).
Proof.
  apply reader_bind; [apply reader_ensureConnection|]. intros _.
  apply reader_bind; [apply reader_get|]. intros value.
  apply reader_parse_or_null.
Qed.

Lemma reader_getTeamToken teamId : reader (redis.getTeamToken teamId).
Proof.
  apply reader_bind; [apply reader_ensureConnection|]. intros _.
  apply reader_bind; [apply reader_get|]. intros value.
  apply reader_parse_or_null.
Qed.

Lemma reader_getBotToken teamId : reader (app.getBotToken teamId).
Proof.
  apply reader_bind; [apply reader_getTeamToken|]. intros teamData.
  destruct (negb (truthy teamData)); [apply reader_throw | apply reader_ret].
Qed.

Lemma reader_getSkipVote channelId skipId : reader (redis.getSkipVote channelId skipId).
Proof.
  apply reader_bind; [apply reader_ensureConnection|]. intros _.
  apply reader_bind; [apply reader_get|]. intros value.
  destruct (falsy_str value); [apply reader_ret|].
  apply reader_bind; [apply reader_parse|]. intros vote.
  apply reader_bind; [apply reader_smembers|]. intros ups.
  apply reader_bind; [apply reader_smembers|]. intros downs.
  apply reader_ret.
Qed.

Lemma reader_findIn channelId messageTs ks : reader (redis.findIn channelId messageTs ks).
Proof.
  induction ks as [|key rest IH]; simpl; [apply reader_ret|].
  apply reader_bind; [apply reader_get|]. intros value.
  destruct (falsy_str value); [done|].
  apply reader_bind; [apply reader_parse|]. intros vote.
  apply reader_bind; [apply reader_member|]. intros ts.
  destruct (strict_eq ts messageTs); [apply reader_getSkipVote | done].
Qed.

Lemma reader_findSkipVoteByMessageTs channelId messageTs :
  reader (redis.findSkipVoteByMessageTs channelId messageTs).
Proof.
  apply reader_bind; [apply reader_ensureConnection|]. intros _.
  apply reader_bind; [apply reader_keys|]. intros ks.
  apply reader_findIn.
Qed.
(** ** Computations that make no outbound call *)

Lemma silent_ret {A} (a : A) : silent (ret a).
Proof. done. Qed.

Lemma silent_throw {A} e : silent (@throw A e).
Proof. done. Qed.

Lemma silent_bind {A B} (m : M A) (k : A -> M B) :
  silent m -> (forall a, silent (k a)) -> silent (bind m k).
Proof.
  intros Hm Hk w. unfold bind. specialize (Hm w).
  destruct (m w) as [[a|e] w']; simpl in *; [|done].
  by rewrite Hk.
Qed.

Lemma silent_send c : silent (send c).
Proof.
  intros w. unfold send. destruct (next_fault w) as [[] rest]; [done|].
  by destruct (Redis.exec c (store w)).
Qed.

Lemma silent_ensureConnection : silent redis.ensureConnection.
Proof. intros w. unfold redis.ensureConnection. by destruct (next_fault w). Qed.

Lemma silent_log l : silent (log l).
Proof. done. Qed.

Lemma silent_deleteSkipVote channelId skipId : silent (redis.deleteSkipVote channelId skipId).
Proof.
  apply silent_bind; [apply silent_ensureConnection|]. intros _.
  apply silent_bind; [apply silent_send|]. intros _. apply silent_ret.
Qed.

(** ** Slack and Spotify *)

Lemma post_outbox env channel text tok w :
  outbox (slack.post env channel text (JStr tok) w).2
  = outbox w ++ [SlackPost (live_token tok) channel text].
Proof.
  unfold slack.post, slack.no_valid_token, live_token. simpl.
  destruct (String.eqb tok EmptyString); simpl; [done|].
  destruct (String.prefix "xoxb-" tok); simpl; [|done].
  unfold bind, emit; simpl.
  destruct (slack_api env channel text tok) as [data|]; [|done].
  destruct data; simpl; try done;
    match goal with |- context [truthy ?x] => destruct (truthy x) end; done.
Qed.

Lemma skipTrack_outbox env accessToken w :
  exists ok w',
    spotify.skipTrack env accessToken w = (Ret ok, w')
    /\ outbox w' = outbox w ++ [SpotifyNext (negb (spotify.is_mock accessToken)) accessToken].
Proof.
  unfold spotify.skipTrack.
  destruct (spotify.is_mock accessToken); simpl.
  - by eexists _, _.
  - unfold bind, emit; simpl. destruct (spotify_next env accessToken); by eexists _, _.
Qed.

Lemma try_bind_ret {A B} (m : M A) (k : A -> M B) h w a w' :
  m w = (Ret a, w') -> try_catch (bind m k) h w = try_catch (k a) h w'.
Proof. intros H. unfold try_catch, bind. by rewrite H. Qed.

Lemma try_bind_throw {A B} (m : M A) (k : A -> M B) h w e w' :
  m w = (Throw e, w') -> try_catch (bind m k) h w = h e w'.
Proof. intros H. unfold try_catch, bind. by rewrite H. Qed.

Lemma member_truthy o k : truthy o = true -> member o k = ret (prop o k).
Proof. by destruct o. Qed.

(** C7: a delivery without a valid QStash signature, when the signing
    keys are configured, is answered 401 before anything else happens:
    no Redis round trip is made (no command sent, the fault script is
    not consumed), no key changes and no outbound call is made. *)
Theorem process_skip_rejects_unsigned env verify headers body w :
  receiver env = Some verify ->
  truthy (prop headers "upstash-signature") = false
  \/ verify (prop headers "upstash-signature") body = false ->
  exists reason w',
    app.process_skip env headers body w = (Ret (app.StatusSend 401 reason), w')
    /\ store w' = store w /\ cmds w' = cmds w /\ faults w' = faults w
    /\ outbox w' = outbox w.
Proof.
  intros Hr Hbad. unfold app.process_skip. rewrite Hr.
  destruct (truthy (prop headers "upstash-signature")) eqn:Hs; simpl.
  - destruct Hbad as [|Hv]; [done|]. rewrite Hv. by eexists _, _.
  - by eexists _, _.
Qed.

(** C1: a resolution that has loaded the vote with [u] thumbs up and
    [d] thumbs down skips the track and announces the skip when
    [d > u], and announces that the song was saved, without any skip
    command, when [u >= d] (ties included). *)
Theorem resolve_skips_iff_more_thumbs_down env body w tok w1 ch w2 skipVote w3 :
  let channelId := prop body "channelId" in
  let skipId := prop body "skipId" in
  let teamId := prop body "teamId" in
  let u := size (redis.thumbsUpUsers skipVote) in
  let d := size (redis.thumbsDownUsers skipVote) in
  let accessToken := prop (prop ch "spotify") "accessToken" in
  let w' := (app.resolve env body w).2 in
  app.getBotToken teamId w = (Ret (JStr tok), w1) ->
  redis.getChannel channelId w1 = (Ret ch, w2) ->
  truthy ch = true ->
  truthy (prop ch "spotify") = true ->
  redis.getSkipVote channelId skipId w2 = (Ret (Some skipVote), w3) ->
  truthy (redis.vprop skipVote "resolved") = false ->
  (d > u ->
   outbox w' = outbox w3 ++
     [SpotifyNext (negb (spotify.is_mock accessToken)) accessToken;
      SlackPost (live_token tok) (prop ch "slackChannelId")
        (SongSkipped (redis.vprop skipVote "trackName") (redis.vprop skipVote "artistName") u d)])
  /\ (u >= d ->
      outbox w' = outbox w3 ++
        [SlackPost (live_token tok) (prop ch "slackChannelId")
           (SongSaved (redis.vprop skipVote "trackName") u d)]).
Proof.
  intros channelId skipId teamId u d accessToken w' H1 H2 Hch Hsp H3 Hres.
  assert (Tail : forall text w4,
            outbox ((try_catch
               (slack.postMessage env (prop ch "slackChannelId") text (JStr tok);;;
                redis.deleteSkipVote channelId skipId;;;
                ret (app.SendStatus 200))
               (fun err => log (LogProcessFailed err);;; ret (app.SendStatus 500))) w4).2
            = outbox w4 ++ [SlackPost (live_token tok) (prop ch "slackChannelId") text]).
  { intros text w4. unfold try_catch, bind at 1.
    pose proof (post_outbox env (prop ch "slackChannelId") text tok w4) as P.
    unfold slack.postMessage.
    destruct (slack.post env (prop ch "slackChannelId") text (JStr tok) w4) as [[a|e] w5];
      simpl in P.
    - pose proof (silent_deleteSkipVote channelId skipId w5) as Dl.
      unfold bind.
      destruct (redis.deleteSkipVote channelId skipId w5) as [[[]|e] w6]; simpl in *; congruence.
    - simpl. done. }
  subst w'. unfold app.resolve. fold channelId skipId teamId.
  rewrite (try_bind_ret _ _ _ _ _ _ H1), (try_bind_ret _ _ _ _ _ _ H2), Hch. simpl.
  rewrite (try_bind_ret _ _ _ _ _ _ H3), Hres. simpl. fold u d.
  split; intros Hcmp.
  - destruct (d <=? u)%nat eqn:E; [apply Nat.leb_le in E; lia|].
    rewrite (member_truthy _ _ Hsp). fold accessToken.
    destruct (skipTrack_outbox env accessToken w3) as (ok & w4 & Hk & Ho).
    erewrite try_bind_ret; last first.
    { unfold bind at 1, ret at 1. unfold bind at 1. rewrite Hk. reflexivity. }
    rewrite Tail, Ho, <- app_assoc. done.
  - destruct (d <=? u)%nat eqn:E; [|apply Nat.leb_gt in E; lia].
    erewrite try_bind_ret; [|reflexivity]. apply Tail.
Qed.

(** ** Resolution: absence, faults and redelivery *)

Lemma reader_ret_observe {A} (m : M A) w a w' :
  reader m -> m w = (Ret a, w') -> reads w w' /\ observe m (store w) = Ret a.
Proof.
  intros Hm E. destruct (Hm w) as (R & D & _). rewrite E in R, D. simpl in *.
  split; [done|]. by destruct D as [<-|?].
Qed.

Lemma reader_reads {A} (m : M A) w o w' : reader m -> m w = (o, w') -> reads w w'.
Proof. intros Hm E. destruct (Hm w) as (R & _). by rewrite E in R. Qed.



Lemma send_ret c w r w' :
  send c w = (Ret r, w') ->
  store w' = (Redis.exec c (store w)).2 /\ outbox w' = outbox w /\ console w' = console w.
Proof.
  unfold send. destruct (next_fault w) as [[] rest]; [done|].
  destruct (Redis.exec c (store w)) as [r0 db]. destruct r0; intros [= <- <-]; done.
Qed.

Lemma ensureConnection_store o w w' :
  redis.ensureConnection w = (o, w') ->
  store w' = store w /\ outbox w' = outbox w /\ console w' = console w /\ cmds w' = cmds w.
Proof.
  unfold redis.ensureConnection. destruct (next_fault w) as [b rest]. by intros [= <- <-].
Qed.

Lemma lookup_foldr_delete (db : Redis.keyspace) ks k :
  k ∈ ks -> foldr delete db ks !! k = None.
Proof.
  induction ks as [|k' ks IH]; simpl; [by inversion 1|].
  intros [->|Hin]%elem_of_cons; [apply lookup_delete_eq|].
  destruct (decide (k' = k)) as [->|Hne]; [apply lookup_delete_eq|].
  rewrite lookup_delete_ne; auto.
Qed.

Lemma deleteSkipVote_ret channelId skipId w w' :
  redis.deleteSkipVote channelId skipId w = (Ret tt, w') ->
  store w' !! redis.voteKey channelId skipId = None
  /\ store w' !! redis.thumbsUpKey skipId = None
  /\ store w' !! redis.thumbsDownKey skipId = None.
Proof.
  unfold redis.deleteSkipVote. intros H.
  destruct (redis.ensureConnection w) as [[[]|e] w1] eqn:E1;
    [rewrite (bind_ret _ _ _ _ _ E1) in H | by rewrite (bind_throw _ _ _ _ _ E1) in H].
  destruct (send (Redis.DEL [redis.voteKey channelId skipId; redis.thumbsUpKey skipId;
                             redis.thumbsDownKey skipId]) w1) as [[r|e] w2] eqn:E2;
    [rewrite (bind_ret _ _ _ _ _ E2) in H | by rewrite (bind_throw _ _ _ _ _ E2) in H].
  injection H as <-.
  apply send_ret in E2 as (-> & _). cbn [Redis.exec snd].
  repeat split; apply lookup_foldr_delete; set_solver.
Qed.

Lemma observe_getSkipVote_absent channelId skipId db :
  db !! redis.voteKey channelId skipId = None ->
  observe (redis.getSkipVote channelId skipId) db = Ret None.
Proof.
  intros Hk. unfold observe, redis.getSkipVote, bind, redis.ensureConnection, redis.get, bind,
    send, next_fault, pure_world.
  cbn [faults store Redis.exec fst snd]. rewrite Hk. reflexivity.
Qed.



(** ** Faults and round trips *)

Lemma surfaces_quiet {A} (m : M A) :
  (forall w, faults (m w).2 = faults w) ->
  (forall w, (m w).1 <> Throw ConnectionError) ->
  surfaces m.
Proof.
  intros Hf Hn w. exists []. rewrite Hf. split; [done|].
  split; [by intros ?%elem_of_nil | by intros ?%Hn].
Qed.

Lemma surfaces_ret {A} (a : A) : surfaces (ret a).
Proof. by apply surfaces_quiet. Qed.

Lemma surfaces_throw {A} e : e <> ConnectionError -> surfaces (@throw A e).
Proof. intros He. apply surfaces_quiet; [done|]. intros w; simpl. congruence. Qed.

Lemma surfaces_bind {A B} (m : M A) (k : A -> M B) :
  surfaces m -> (forall a, surfaces (k a)) -> surfaces (bind m k).
Proof.
  intros Hm Hk w. destruct (Hm w) as (fs1 & E1 & T1). unfold bind.
  destruct (m w) as [[a|e] w1]; cbn [fst snd] in *.
  - destruct (Hk a w1) as (fs2 & E2 & T2). exists (fs1 ++ fs2).
    split; [by rewrite <- app_assoc, <- E2|].
    rewrite elem_of_app, <- T2. split; [|by right]. intros [H|H]; [|done].
    destruct T1 as [T1 _]. discriminate (T1 H).
  - exists fs1. split; [done|]. rewrite T1. split; by intros [= ->].
Qed.

Lemma surfaces_log l : surfaces (log l).
Proof. by apply surfaces_quiet. Qed.

Lemma surfaces_emit e : surfaces (emit e).
Proof. by apply surfaces_quiet. Qed.

Lemma surfaces_date_now : surfaces date_now.
Proof. by apply surfaces_quiet. Qed.

Lemma surfaces_member o k : surfaces (member o k).
Proof. destruct o; simpl; first [by apply surfaces_throw | apply surfaces_ret]. Qed.

Lemma surfaces_parse value : surfaces (redis.parse value).
Proof.
  unfold redis.parse. destruct (JSON_parse value); [apply surfaces_ret | by apply surfaces_throw].
Qed.

Lemma surfaces_parse_or_null value : surfaces (redis.parse_or_null value).
Proof.
  unfold redis.parse_or_null. destruct (falsy_str value); [apply surfaces_ret | apply surfaces_parse].
Qed.

Lemma not_true_in_false : true ∉ [false].
Proof. intros H. apply elem_of_cons in H as [H|H]; [done | by apply elem_of_nil in H]. Qed.

Lemma surfaces_send c : surfaces (send c).
Proof.
  intros w. unfold send, next_fault.
  destruct (Redis.exec c (store w)) as [r db].
  destruct (faults w) as [|[] rest] eqn:Ef; cbn [fst snd faults].
  - exists []. split; [done|]. split; [by intros ?%elem_of_nil | by destruct r].
  - exists [true]. split; [done|]. split; [done | intros _; apply elem_of_cons; by left].
  - exists [false]. split; [done|]. split; [by intros ?%not_true_in_false | by destruct r].
Qed.

Lemma surfaces_ensureConnection : surfaces redis.ensureConnection.
Proof.
  intros w. unfold redis.ensureConnection, next_fault.
  destruct (faults w) as [|[] rest] eqn:Ef; cbn [fst snd faults].
  - exists []. split; [done|]. split; [by intros ?%elem_of_nil | done].
  - exists [true]. split; [done|]. split; [done | intros _; apply elem_of_cons; by left].
  - exists [false]. split; [done|]. split; [by intros ?%not_true_in_false | done].
Qed.

Create HintDb surfaces.
#[global] Hint Resolve surfaces_ret surfaces_log surfaces_emit surfaces_date_now
  surfaces_member surfaces_parse_or_null surfaces_parse surfaces_send
  surfaces_ensureConnection : surfaces.
#[global] Hint Extern 1 (surfaces (throw _)) => apply surfaces_throw; discriminate : surfaces.

(** Solves [surfaces m] for a computation [m] built from operations
    that are known to surface their faults. *)
Ltac surfacing :=
  repeat first
    [ solve [auto with surfaces nocore]
    | apply surfaces_bind; [|intro]
    | match goal with
      | |- surfaces (if ?b then _ else _) => destruct b
      | |- surfaces (match ?x with _ => _ end) => destruct x
      end ].

Lemma surfaces_getBotToken teamId : surfaces (app.getBotToken teamId).
Proof. unfold app.getBotToken, redis.getTeamToken, redis.get. surfacing. Qed.

Lemma surfaces_getChannel channelId : surfaces (redis.getChannel channelId).
Proof. unfold redis.getChannel, redis.get. surfacing. Qed.

Lemma surfaces_getSkipVote channelId skipId : surfaces (redis.getSkipVote channelId skipId).
Proof. unfold redis.getSkipVote, redis.get, redis.smembers. surfacing. Qed.

Lemma surfaces_deleteSkipVote channelId skipId :
  surfaces (redis.deleteSkipVote channelId skipId).
Proof. unfold redis.deleteSkipVote. surfacing. Qed.

Lemma surfaces_skipTrack env accessToken : surfaces (spotify.skipTrack env accessToken).
Proof. unfold spotify.skipTrack. surfacing. Qed.

Lemma surfaces_postMessage env channel text botToken :
  surfaces (slack.postMessage env channel text botToken).
Proof. unfold slack.postMessage, slack.post, slack.no_valid_token. surfacing. Qed.

#[global] Hint Resolve surfaces_getBotToken surfaces_getChannel surfaces_getSkipVote
  surfaces_deleteSkipVote surfaces_skipTrack surfaces_postMessage : surfaces.

Lemma round_trips_add n1 n2 w w1 w2 :
  round_trips n1 w w1 -> round_trips n2 w1 w2 -> round_trips (n1 + n2) w w2.
Proof.
  intros (E1 & F1) (E2 & F2). split.
  - by rewrite E2, E1, drop_drop.
  - rewrite <- take_take_drop. apply Forall_app. split; [done|]. by rewrite <- E1.
Qed.

Lemma ensureConnection_trip w w' :
  redis.ensureConnection w = (Ret tt, w') -> round_trips 1 w w'.
Proof.
  unfold redis.ensureConnection, next_fault, round_trips.
  destruct (faults w) as [|[] rest]; intros [= <-]; simpl; repeat constructor.
Qed.

Lemma send_trip c w r w' : send c w = (Ret r, w') -> round_trips 1 w w'.
Proof.
  unfold send, next_fault, round_trips.
  destruct (Redis.exec c (store w)) as [r0 db].
  destruct (faults w) as [|[] rest]; [|done|]; destruct r0; intros [= <- <-]; simpl;
    repeat constructor.
Qed.

Lemma bind_inv {A B} (m : M A) (k : A -> M B) w b w' :
  bind m k w = (Ret b, w') -> exists a w1, m w = (Ret a, w1) /\ k a w1 = (Ret b, w').
Proof. unfold bind. destruct (m w) as [[a|e] w1]; [|done]. by exists a, w1. Qed.

Lemma parse_world value w o w' : redis.parse value w = (o, w') -> w' = w.
Proof. unfold redis.parse. destruct (JSON_parse value); by intros [= _ <-]. Qed.

Lemma parse_or_null_world value w o w' : redis.parse_or_null value w = (o, w') -> w' = w.
Proof.
  unfold redis.parse_or_null. destruct (falsy_str value); [by intros [= _ <-]|].
  apply parse_world.
Qed.

Lemma get_trip key w value w' : redis.get key w = (Ret value, w') -> round_trips 1 w w'.
Proof.
  intros (r & w1 & E & [= _ <-])%bind_inv. by eapply send_trip.
Qed.

Lemma smembers_trip key w xs w' : redis.smembers key w = (Ret xs, w') -> round_trips 1 w w'.
Proof.
  intros (r & w1 & E & [= _ <-])%bind_inv. by eapply send_trip.
Qed.

Lemma getChannel_trips channelId w ch w' :
  redis.getChannel channelId w = (Ret ch, w') -> round_trips 2 w w'.
Proof.
  intros ([] & w1 & E1 & (value & w2 & E2 & E3)%bind_inv)%bind_inv.
  apply parse_or_null_world in E3 as ->.
  apply (round_trips_add 1 1 _ w1); [by apply ensureConnection_trip | by eapply get_trip].
Qed.

Lemma getBotToken_trips teamId w botToken w' :
  app.getBotToken teamId w = (Ret botToken, w') -> round_trips 2 w w'.
Proof.
  intros (teamData & w3 & E & E4)%bind_inv.
  assert (w' = w3) as -> by (destruct (negb (truthy teamData)); by injection E4).
  apply bind_inv in E as ([] & w1 & E1 & (value & w2 & E2 & E3)%bind_inv).
  apply parse_or_null_world in E3 as ->.
  apply (round_trips_add 1 1 _ w1); [by apply ensureConnection_trip | by eapply get_trip].
Qed.

Lemma getSkipVote_trips channelId skipId w skipVote w' :
  redis.getSkipVote channelId skipId w = (Ret (Some skipVote), w') -> round_trips 4 w w'.
Proof.
  intros ([] & w1 & E1 & (value & w2 & E2 & E3)%bind_inv)%bind_inv.
  destruct (falsy_str value); [done|].
  apply bind_inv in E3 as (vote & w3 & E3 & E4).
  apply parse_world in E3 as ->.
  apply bind_inv in E4 as (ups & w4 & E4 & E5).
  apply bind_inv in E5 as (downs & w5 & E5 & [= _ <-]).
  apply (round_trips_add 1 3 _ w1); [by apply ensureConnection_trip|].
  apply (round_trips_add 1 2 _ w2); [by eapply get_trip|].
  apply (round_trips_add 1 1 _ w4); by eapply smembers_trip.
Qed.

(** No fault among the first [n] round trips of a run that made [n]
    round trips without one before it went on. *)
Lemma round_trips_prefix n w w1 w' fs fs' :
  round_trips n w w1 ->
  faults w1 = fs' ++ faults w' ->
  faults w = fs ++ faults w' ->
  Forall (fun b => b = false) (take n fs).
Proof.
  intros (E & F) E1 E2.
  assert (Hfs : fs = take n (faults w) ++ fs').
  { apply (app_inv_tail (faults w')). by rewrite <- E2, <- app_assoc, <- E1, E, take_drop. }
  destruct (decide (n <= length (faults w))) as [Hn|Hn].
  - rewrite Hfs, take_app_le by (rewrite length_take; lia).
    rewrite take_take. by rewrite Nat.min_id.
  - rewrite drop_ge in E by lia. rewrite E in E1.
    symmetry in E1. apply app_eq_nil in E1 as [-> _].
    rewrite app_nil_r in Hfs. rewrite Hfs. by apply Forall_take.
Qed.

(** C6: a resolution tells an absent vote record from a Redis fault.
    Of the fault script, a call uses up a part [fs]: the outcomes of
    the Redis round trips it made. When none of them failed, the
    keyspace holds the team's token and the channel, and holds no vote
    record under the key, the call answers 200, writes no key, makes no
    outbound call and logs nothing. When one of them failed, at
    whichever load, SMEMBERS or DEL, the call answers 500 and its last
    console line is the connection error; when the failure is among the
    eight round trips of the three loads, no key is written, no
    outbound call is made and the connection error is the one line
    logged. *)
Theorem resolve_absent_is_not_a_fault env body w :
  let channelId := prop body "channelId" in
  let skipId := prop body "skipId" in
  let teamId := prop body "teamId" in
  let out := app.resolve env body w in
  (exists fs, faults w = fs ++ faults out.2)
  /\ forall fs,
       faults w = fs ++ faults out.2 ->
       (true ∉ fs ->
        forall botToken ch,
          observe (app.getBotToken teamId) (store w) = Ret botToken ->
          observe (redis.getChannel channelId) (store w) = Ret ch ->
          store w !! redis.voteKey channelId skipId = None ->
          out.1 = Ret (app.SendStatus 200)
          /\ untouched w out.2
          /\ console out.2 = console w)
       /\ (true ∈ fs ->
           out.1 = Ret (app.SendStatus 500)
           /\ last (console out.2) = Some (LogProcessFailed ConnectionError)
           /\ (true ∈ take 8 fs ->
               untouched w out.2
               /\ console out.2 = console w ++ [LogProcessFailed ConnectionError])).
Proof.
  intros channelId skipId teamId out. subst out.
  unfold app.resolve. cbv zeta. fold channelId skipId teamId.
  match goal with
  | |- context [try_catch ?m ?h w] => set (run := m); set (handler := h)
  end.
  assert (S : surfaces run).
  { subst run. surfacing. }
  destruct (S w) as (fs0 & E0 & T0).
  (* the loads, one after the other *)
  assert (W : (reads w (run w).2
               /\ ((run w).1 = Ret (app.SendStatus 200)
                   \/ exists e, (run w).1 = Throw e
                        /\ (e = ConnectionError
                            \/ observe (app.getBotToken teamId) (store w) = Throw e
                            \/ observe (redis.getChannel channelId) (store w) = Throw e
                            \/ observe (redis.getSkipVote channelId skipId) (store w)
                               = Throw e)))
              \/ exists skipVote w3,
                   observe (redis.getSkipVote channelId skipId) (store w) = Ret (Some skipVote)
                   /\ round_trips 8 w w3
                   /\ exists fs', faults w3 = fs' ++ faults (run w).2).
  { subst run.
    destruct (app.getBotToken teamId w) as [[botToken|e] w1] eqn:E1.
    2: { rewrite (bind_throw _ _ _ _ _ E1). left. cbn [fst snd].
         split; [by eapply reader_reads; [apply reader_getBotToken|]|].
         right. exists e. split; [done|].
         destruct (reader_getBotToken teamId w) as (_ & D & _). rewrite E1 in D.
         destruct D as [D|D]; [by right; left | left; cbn [fst] in D; congruence]. }
    rewrite (bind_ret _ _ _ _ _ E1).
    destruct (reader_ret_observe _ _ _ _ (reader_getBotToken _) E1) as (R1 & O1).
    destruct (redis.getChannel channelId w1) as [[ch|e] w2] eqn:E2.
    2: { rewrite (bind_throw _ _ _ _ _ E2). left. cbn [fst snd].
         assert (R2 : reads w1 w2) by by eapply reader_reads; [apply reader_getChannel|].
         split; [by eapply reads_trans|].
         right. exists e. split; [done|].
         destruct (reader_getChannel channelId w1) as (_ & D & _). rewrite E2 in D.
         destruct R1 as (S1 & _). rewrite S1 in D.
         destruct D as [D|D]; [by right; right; left | left; cbn [fst] in D; congruence]. }
    rewrite (bind_ret _ _ _ _ _ E2).
    destruct (reader_ret_observe _ _ _ _ (reader_getChannel _) E2) as (R2 & O2).
    assert (R02 : reads w w2) by by eapply reads_trans.
    destruct (truthy ch) eqn:Hch; cbn [negb].
    2: { left. split; [done | by left]. }
    destruct (redis.getSkipVote channelId skipId w2) as [[[skipVote|]|e] w3] eqn:E3.
    3: { rewrite (bind_throw _ _ _ _ _ E3). left. cbn [fst snd].
         assert (R3 : reads w2 w3) by by eapply reader_reads; [apply reader_getSkipVote|].
         split; [by eapply reads_trans|].
         right. exists e. split; [done|].
         destruct (reader_getSkipVote channelId skipId w2) as (_ & D & _). rewrite E3 in D.
         destruct R02 as (S2 & _). rewrite S2 in D.
         destruct D as [D|D]; [by right; right; right | left; cbn [fst] in D; congruence]. }
    all: rewrite (bind_ret _ _ _ _ _ E3).
    all: destruct (reader_ret_observe _ _ _ _ (reader_getSkipVote _ _) E3) as (R3 & O3).
    all: assert (R03 : reads w w3) by by eapply reads_trans.
    2: { left. split; [done | by left]. }
    destruct (truthy (redis.vprop skipVote "resolved")).
    { left. split; [done | by left]. }
    right. exists skipVote, w3.
    split; [destruct R02 as (S2 & _); by rewrite <- S2|].
    split.
    { apply (round_trips_add 2 6 _ w1); [by eapply getBotToken_trips|].
      apply (round_trips_add 2 4 _ w2); [by eapply getChannel_trips|].
      by eapply getSkipVote_trips. }
    match goal with
    | |- exists fs', faults w3 = fs' ++ faults (?m w3).2 =>
        assert (Sr : surfaces m)
    end.
    { surfacing. }
    destruct (Sr w3) as (fs' & E' & _). by exists fs'. }
  assert (Eo : faults (try_catch run handler w).2 = faults (run w).2).
  { unfold try_catch. by destruct (run w) as [[r|e] w1]. }
  rewrite Eo. split; [by exists fs0|].
  intros fs Efs.
  assert (fs = fs0) as -> by (apply (app_inv_tail (faults (run w).2)); by rewrite <- Efs).
  clear Efs Eo. split.
  - intros Hno botToken ch Ht Hc Hk.
    pose proof (observe_getSkipVote_absent channelId skipId _ Hk) as Hv.
    assert (Hn : (run w).1 <> Throw ConnectionError) by (intros H; by apply Hno, T0).
    destruct W as [(R & [H|(e & H & He)])|(skipVote & w3 & Hs & _)]; [| |congruence].
    + unfold try_catch. destruct (run w) as [[r|e] w1]; cbn [fst snd] in *; [|done].
      injection H as ->. split; [done|]. split; [by apply reads_untouched | apply R].
    + exfalso. destruct He as [->|[He|[He|He]]]; congruence.
  - intros Hf. apply T0 in Hf as Hr.
    unfold try_catch. destruct (run w) as [[r|e] w1]; cbn [fst snd] in *; [done|].
    injection Hr as ->.
    split; [done|]. split; [apply last_snoc|].
    intros H8.
    destruct W as [(R & _)|(skipVote & w3 & _ & T8 & fs' & E')].
    + subst handler. unfold bind, log, ret. cbn [fst snd store outbox cmds console].
      destruct R as (Rs & Ro & Rc & _ & Rm & _). by rewrite Rc.
    + exfalso.
      pose proof (round_trips_prefix _ _ _ _ _ _ T8 E' E0) as F.
      rewrite Forall_forall in F. by apply F in H8.
Qed.

Lemma getCurrentlyPlayingTrack_ret env accessToken w track w' :
  spotify.getCurrentlyPlayingTrack env accessToken w = (Ret track, w') ->
  store w' = store w /\ cmds w' = cmds w
  /\ outbox w' = outbox w ++
       [SpotifyCurrentlyPlaying (negb (spotify.is_mock accessToken)) accessToken].
Proof.
  unfold spotify.getCurrentlyPlayingTrack.
  destruct (spotify.is_mock accessToken); simpl.
  - by intros [= <- <-].
  - unfold bind, emit; simpl. destruct (spotify_now env accessToken); by intros [= <- <-].
Qed.

(** C10: when the currently-playing lookup of /skip returns no track,
    or a track without a name, the handler replies that no song is
    playing; no key of the store has changed, only read commands were
    sent, and the lookup is the only outbound call made (nothing is
    posted to Slack and nothing is published to QStash). *)
Theorem skip_without_track_changes_nothing env body w botToken w1 ch w2 track w3 :
  let channel_id := prop body "channel_id" in
  let team_id := prop body "team_id" in
  let accessToken := prop (prop ch "spotify") "accessToken" in
  truthy channel_id = true ->
  truthy team_id = true ->
  app.getBotToken team_id w = (Ret botToken, w1) ->
  redis.getChannel channel_id w1 = (Ret ch, w2) ->
  truthy ch = true ->
  truthy (prop ch "spotify") = true ->
  qstash env = true ->
  spotify.getCurrentlyPlayingTrack env accessToken w2 = (Ret track, w3) ->
  truthy track = false \/ truthy (prop track "trackName") = false ->
  app.skip env body w = (Ret (app.Json app.NoSongPlaying), w3)
  /\ store w3 = store w
  /\ (exists cs, cmds w3 = cmds w ++ cs /\ Forall (fun c => Redis.is_write c = false) cs)
  /\ outbox w3 = outbox w ++
       [SpotifyCurrentlyPlaying (negb (spotify.is_mock accessToken)) accessToken].
Proof.
  intros channel_id team_id accessToken Hc Ht H1 H2 Hch Hsp Hq H3 Hno.
  pose proof (reader_reads _ _ _ _ (reader_getBotToken _) H1) as R1.
  pose proof (reader_reads _ _ _ _ (reader_getChannel _) H2) as R2.
  destruct (reads_trans _ _ _ R1 R2) as (S & O & _ & _ & L & _).
  destruct (getCurrentlyPlayingTrack_ret _ _ _ _ _ H3) as (S3 & C3 & O3).
  split.
  - unfold app.skip. fold channel_id team_id. rewrite Hc, Ht. cbn [negb].
    rewrite (try_bind_ret _ _ _ _ _ _ H1), (try_bind_ret _ _ _ _ _ _ H2), Hch, Hsp, Hq.
    cbn [negb orb]. fold accessToken.
    rewrite (try_bind_ret _ _ _ _ _ _ H3).
    destruct Hno as [-> | Hn]; [done|]. rewrite Hn. by rewrite orb_true_r.
  - split; [congruence|]. split; [by rewrite C3|]. by rewrite O3, O.
Qed.

(** ** Runs without faults *)

Lemma next_fault_calm w : calm w -> next_fault w = (false, tail (faults w)).
Proof.
  unfold calm, next_fault. destruct (faults w) as [|b fs]; [done|].
  by inversion 1; subst.
Qed.

Lemma calm_tail w w' : faults w' = tail (faults w) -> calm w -> calm w'.
Proof. intros E. apply (calm_drop 1). rewrite E. by destruct (faults w). Qed.

Lemma calm_sent c w : calm w -> calm (sent c w).
Proof. by apply calm_tail. Qed.

Lemma calm_connected w : calm w -> calm (connected w).
Proof. by apply calm_tail. Qed.

Lemma ensureConnection_calm w : calm w -> redis.ensureConnection w = (Ret tt, connected w).
Proof. intros Hc. unfold redis.ensureConnection. by rewrite (next_fault_calm w Hc). Qed.

Lemma send_calm c w :
  calm w -> (Redis.exec c (store w)).1 <> Redis.WrongType ->
  send c w = (Ret (Redis.exec c (store w)).1, sent c w).
Proof.
  intros Hc Hr. unfold send, sent. rewrite (next_fault_calm w Hc).
  destruct (Redis.exec c (store w)) as [r db]. simpl in *. by destruct r.
Qed.

Lemma voteKey_not_thumbsUpKey channelId skipId skipId' :
  redis.voteKey channelId skipId <> redis.thumbsUpKey skipId'.
Proof. discriminate. Qed.

Lemma voteKey_not_thumbsDownKey channelId skipId skipId' :
  redis.voteKey channelId skipId <> redis.thumbsDownKey skipId'.
Proof. discriminate. Qed.

Lemma string_app_length (a b : string) : String.length (a +:+ b) = String.length a + String.length b.
Proof. induction a; simpl; [done|]. by f_equal. Qed.

Lemma string_app_inj_l (a b c : string) : a +:+ b = a +:+ c -> b = c.
Proof. induction a; simpl; [done|]. intros [= H]. auto. Qed.

Lemma thumbsUpKey_not_thumbsDownKey skipId :
  redis.thumbsUpKey skipId <> redis.thumbsDownKey skipId.
Proof.
  unfold redis.thumbsUpKey, redis.thumbsDownKey. intros H.
  apply string_app_inj_l, string_app_inj_l in H. discriminate.
Qed.

Lemma returns_bind {A B} (m : M A) (k : A -> M B) w Q :
  returns m w (fun a w' => returns (k a) w' Q) -> returns (bind m k) w Q.
Proof.
  intros (a & w' & E & (b & w'' & E' & HQ)). exists b, w''. split; [|done].
  by rewrite (bind_ret _ _ _ _ _ E).
Qed.

Lemma returns_ret {A} (a : A) w (Q : A -> World -> Prop) : Q a w -> returns (ret a) w Q.
Proof. intros HQ. by exists a, w. Qed.

Lemma returns_weaken {A} (m : M A) w (P Q : A -> World -> Prop) :
  returns m w P -> (forall a w', P a w' -> Q a w') -> returns m w Q.
Proof. intros (a & w' & E & HP) H. exists a, w'. auto. Qed.

Lemma returns_ensureConnection w (Q : unit -> World -> Prop) :
  calm w -> Q tt (connected w) -> returns redis.ensureConnection w Q.
Proof. intros Hc HQ. exists tt, (connected w). split; [by apply ensureConnection_calm | done]. Qed.

Lemma returns_send c w (Q : Redis.Reply -> World -> Prop) :
  calm w -> (Redis.exec c (store w)).1 <> Redis.WrongType ->
  Q (Redis.exec c (store w)).1 (sent c w) -> returns (send c) w Q.
Proof. intros Hc Hr HQ. eexists _, _. split; [by apply send_calm | done]. Qed.

(** ** The set commands *)

Lemma exec_SADD db key ms :
  set_or_absent db key ->
  (Redis.exec (Redis.SADD key ms) db).1 <> Redis.WrongType
  /\ (Redis.exec (Redis.SADD key ms) db).2
     = <[key := Redis.mkEntry (Redis.RSet (members db key ∪ list_to_set ms)) (ttl_of db key)]> db.
Proof.
  unfold set_or_absent, members, ttl_of. simpl.
  destruct (db !! key) as [[[s|s] t]|] eqn:E; simpl; try done; intros _.
  split; [done|]. f_equal. f_equal. f_equal. set_solver.
Qed.

Lemma exec_EXPIRE_set db key s t seconds :
  db !! key = Some (Redis.mkEntry (Redis.RSet s) t) ->
  (Redis.exec (Redis.EXPIRE key seconds) db).1 <> Redis.WrongType
  /\ (Redis.exec (Redis.EXPIRE key seconds) db).2
     = <[key := Redis.mkEntry (Redis.RSet s) (Some seconds)]> db.
Proof. simpl. by intros ->. Qed.

Lemma exec_SREM db key m :
  set_or_absent db key ->
  (Redis.exec (Redis.SREM key m) db).1 <> Redis.WrongType
  /\ members (Redis.exec (Redis.SREM key m) db).2 key = members db key ∖ {[m]}
  /\ set_or_absent (Redis.exec (Redis.SREM key m) db).2 key
  /\ forall k, k <> key -> (Redis.exec (Redis.SREM key m) db).2 !! k = db !! k.
Proof.
  unfold set_or_absent, members. simpl.
  destruct (db !! key) as [[[s|s] t]|] eqn:E; simpl; try done; intros _.
  - split; [done|]. destruct (decide (s ∖ {[m]} = ∅)) as [He|Hne].
    + rewrite lookup_delete_eq. split; [by rewrite He|]. split; [done|].
      intros k Hk. by rewrite lookup_delete_ne.
    + rewrite lookup_insert_eq. split; [done|]. split; [done|].
      intros k Hk. by rewrite lookup_insert_ne.
  - rewrite E. split; [done|]. split; [by rewrite empty_difference_L|]. done.
Qed.

(** What adding [member] to the set at [key] leaves: the shape shared
    by addThumbsUp and addThumbsDown. *)
Lemma add_member_calm key member w :
  calm w -> set_or_absent (store w) key ->
  returns (redis.ensureConnection;;;
           send (Redis.SADD key [member]);;;
           send (Redis.EXPIRE key redis.SKIP_VOTE_TTL);;;
           ret tt) w
    (fun _ w' =>
       calm w'
       /\ store w' = <[key := Redis.mkEntry (Redis.RSet (members (store w) key ∪ {[member]}))
                                (Some 900)]> (store w)
       /\ outbox w' = outbox w /\ console w' = console w).
Proof.
  intros Hc Hs.
  apply returns_bind, returns_ensureConnection; [done|].
  destruct (exec_SADD (store w) key [member] Hs) as (Hr & Hx).
  apply returns_bind, returns_send; [by apply calm_connected | done |].
  assert (Hk : store (sent (Redis.SADD key [member]) (connected w)) !! key
               = Some (Redis.mkEntry (Redis.RSet (members (store w) key ∪ {[member]}))
                         (ttl_of (store w) key))).
  { unfold sent. cbn [store connected]. rewrite Hx, lookup_insert_eq.
    do 3 f_equal. set_solver. }
  destruct (exec_EXPIRE_set _ _ _ _ redis.SKIP_VOTE_TTL Hk) as (Hr' & Hx').
  apply returns_bind, returns_send; [by apply calm_sent, calm_connected | done |].
  apply returns_ret. split; [by apply calm_sent, calm_sent, calm_connected|].
  split; [|done].
  unfold sent at 1. cbn [store]. rewrite Hx'.
  unfold sent. cbn [store connected]. rewrite Hx, insert_insert_eq. done.
Qed.

(** What removing [member] from the set at [key] leaves. *)
Lemma remove_member_calm key member w :
  calm w -> set_or_absent (store w) key ->
  returns (redis.ensureConnection;;; send (Redis.SREM key member);;; ret tt) w
    (fun _ w' =>
       calm w'
       /\ members (store w') key = members (store w) key ∖ {[member]}
       /\ set_or_absent (store w') key
       /\ (forall k, k <> key -> store w' !! k = store w !! k)
       /\ outbox w' = outbox w /\ console w' = console w).
Proof.
  intros Hc Hs.
  apply returns_bind, returns_ensureConnection; [done|].
  destruct (exec_SREM (store w) key member Hs) as (Hr & Hm & Hs' & Ho).
  apply returns_bind, returns_send; [by apply calm_connected | done |].
  apply returns_ret. split; [by apply calm_sent, calm_connected|]. done.
Qed.

Lemma members_insert_set db key s t :
  members (<[key := Redis.mkEntry (Redis.RSet s) t]> db) key = s.
Proof. unfold members. by rewrite lookup_insert_eq. Qed.

Lemma members_insert_ne db key k e : k <> key -> members (<[key := e]> db) k = members db k.
Proof. intros H. unfold members. by rewrite lookup_insert_ne. Qed.

Lemma set_or_absent_insert_set db key s t :
  set_or_absent (<[key := Redis.mkEntry (Redis.RSet s) t]> db) key.
Proof. unfold set_or_absent. by rewrite lookup_insert_eq. Qed.

Lemma set_or_absent_insert_ne db key k e :
  k <> key -> set_or_absent db k -> set_or_absent (<[key := e]> db) k.
Proof. intros H. unfold set_or_absent. by rewrite lookup_insert_ne. Qed.

Lemma ttl_of_insert db key v t : ttl_of (<[key := Redis.mkEntry v t]> db) key = t.
Proof. unfold ttl_of. by rewrite lookup_insert_eq. Qed.

Lemma ttl_of_insert_ne db key k e : k <> key -> ttl_of (<[key := e]> db) k = ttl_of db k.
Proof. intros H. unfold ttl_of. by rewrite lookup_insert_ne. Qed.

(** The block of setSkipVote that stores one set of users. *)
Lemma store_users_calm key (users : gset string) w :
  calm w -> set_or_absent (store w) key ->
  returns (if (0 <? size users)%nat then
             send (Redis.SADD key (elements users));;;
             send (Redis.EXPIRE key redis.SKIP_VOTE_TTL);;;
             ret tt
           else ret tt) w
    (fun _ w' =>
       calm w' /\ outbox w' = outbox w /\ console w' = console w
       /\ store w' = if decide (users = ∅) then store w
                     else <[key := Redis.mkEntry (Redis.RSet (members (store w) key ∪ users))
                                     (Some 900)]> (store w)).
Proof.
  intros Hc Hs.
  destruct (decide (users = ∅)) as [->|Hne].
  { rewrite size_empty. simpl. by apply returns_ret. }
  assert (Hpos : (0 <? size users)%nat = true).
  { apply Nat.ltb_lt. assert (size users <> 0); [|lia].
    apply size_non_empty_iff. by intros H%leibniz_equiv. }
  rewrite Hpos.
  destruct (exec_SADD (store w) key (elements users) Hs) as (Hr & Hx).
  rewrite list_to_set_elements_L in Hx.
  apply returns_bind, returns_send; [done | done |].
  assert (Hk : store (sent (Redis.SADD key (elements users)) w) !! key
               = Some (Redis.mkEntry (Redis.RSet (members (store w) key ∪ users))
                         (ttl_of (store w) key))).
  { unfold sent. cbn [store]. by rewrite Hx, lookup_insert_eq. }
  destruct (exec_EXPIRE_set _ _ _ _ redis.SKIP_VOTE_TTL Hk) as (Hr' & Hx').
  apply returns_bind, returns_send; [by apply calm_sent | done |].
  apply returns_ret. split; [by apply calm_sent, calm_sent|].
  split; [done|]. split; [done|].
  unfold sent at 1. cbn [store]. rewrite Hx'.
  unfold sent. cbn [store]. rewrite Hx, insert_insert_eq. done.
Qed.

Lemma setSkipVote_calm channelId skipId vote w :
  calm w ->
  set_or_absent (store w) (redis.thumbsUpKey skipId) ->
  set_or_absent (store w) (redis.thumbsDownKey skipId) ->
  returns (redis.setSkipVote channelId skipId vote) w
    (fun _ w' =>
       calm w' /\ outbox w' = outbox w
       /\ store w' !! redis.voteKey channelId skipId
          = Some (Redis.mkEntry
                    (Redis.RString (default EmptyString (JSON_stringify (JObj (redis.fields vote)))))
                    (Some 900))
       /\ members (store w') (redis.thumbsUpKey skipId)
          = members (store w) (redis.thumbsUpKey skipId) ∪ redis.thumbsUpUsers vote
       /\ members (store w') (redis.thumbsDownKey skipId)
          = members (store w) (redis.thumbsDownKey skipId) ∪ redis.thumbsDownUsers vote
       /\ set_or_absent (store w') (redis.thumbsUpKey skipId)
       /\ set_or_absent (store w') (redis.thumbsDownKey skipId)
       /\ (redis.thumbsUpUsers vote <> ∅ ->
           ttl_of (store w') (redis.thumbsUpKey skipId) = Some 900)
       /\ (redis.thumbsDownUsers vote <> ∅ ->
           ttl_of (store w') (redis.thumbsDownKey skipId) = Some 900)).
Proof.
  intros Hc Hu Hd.
  pose proof (voteKey_not_thumbsUpKey channelId skipId skipId) as N1.
  pose proof (voteKey_not_thumbsDownKey channelId skipId skipId) as N2.
  pose proof (thumbsUpKey_not_thumbsDownKey skipId) as N3.
  apply returns_bind, returns_ensureConnection; [done|].
  set (text := default EmptyString (JSON_stringify (JObj (redis.fields vote)))).
  set (SETc := Redis.SET (redis.voteKey channelId skipId) text (Some redis.SKIP_VOTE_TTL)).
  apply returns_bind, returns_send; [by apply calm_connected | done |].
  set (w1 := sent SETc (connected w)).
  assert (S1 : store w1 = <[redis.voteKey channelId skipId
                             := Redis.mkEntry (Redis.RString text) (Some 900)]> (store w)) by done.
  assert (C1 : calm w1) by by apply calm_sent, calm_connected.
  assert (U1 : set_or_absent (store w1) (redis.thumbsUpKey skipId)).
  { rewrite S1. by apply set_or_absent_insert_ne. }
  apply returns_bind.
  eapply returns_weaken; [by apply (store_users_calm _ (redis.thumbsUpUsers vote) w1)|].
  intros [] w2 (C2 & O2 & _ & S2). simpl.
  assert (D2 : set_or_absent (store w2) (redis.thumbsDownKey skipId)).
  { rewrite S2. destruct (decide (redis.thumbsUpUsers vote = ∅)).
    - rewrite S1. by apply set_or_absent_insert_ne.
    - apply set_or_absent_insert_ne; [done|]. rewrite S1. by apply set_or_absent_insert_ne. }
  eapply returns_weaken; [by apply (store_users_calm _ (redis.thumbsDownUsers vote) w2)|].
  intros [] w3 (C3 & O3 & _ & S3).
  split; [done|]. split; [by rewrite O3, O2|].
  rewrite S3, S2.
  destruct (decide (redis.thumbsUpUsers vote = ∅)) as [Eu|Eu],
           (decide (redis.thumbsDownUsers vote = ∅)) as [Ed|Ed];
    rewrite ?Eu, ?Ed, ?union_empty_r_L, ?S1;
    unfold members, ttl_of, set_or_absent in *;
    repeat first [rewrite lookup_insert_eq | rewrite lookup_insert_ne by done];
    repeat split; done.
Qed.

(** ** TTL of the vote keys *)

(** C8 (amended): every vote key is written with the 900-second TTL:
    setSkipVote gives it to the metadata key and to each non-empty set
    it stores, and an add gives it again to the set it touches. The add
    changes no other key: the metadata key keeps the TTL it had. *)
Theorem vote_keys_are_written_with_ttl_900 channelId skipId vote userId w :
  calm w ->
  set_or_absent (store w) (redis.thumbsUpKey skipId) ->
  set_or_absent (store w) (redis.thumbsDownKey skipId) ->
  (let db := store (redis.setSkipVote channelId skipId vote w).2 in
   ttl_of db (redis.voteKey channelId skipId) = Some 900
   /\ (redis.thumbsUpUsers vote <> ∅ -> ttl_of db (redis.thumbsUpKey skipId) = Some 900)
   /\ (redis.thumbsDownUsers vote <> ∅ -> ttl_of db (redis.thumbsDownKey skipId) = Some 900))
  /\ (let db := store (redis.addThumbsUp skipId userId w).2 in
      ttl_of db (redis.thumbsUpKey skipId) = Some 900
      /\ forall k, k <> redis.thumbsUpKey skipId -> db !! k = store w !! k)
  /\ (let db := store (redis.addThumbsDown skipId userId w).2 in
      ttl_of db (redis.thumbsDownKey skipId) = Some 900
      /\ forall k, k <> redis.thumbsDownKey skipId -> db !! k = store w !! k).
Proof.
  intros Hc Hu Hd. split; [|split].
  - destruct (setSkipVote_calm channelId skipId vote w Hc Hu Hd)
      as ([] & w' & E & _ & _ & Hk & _ & _ & _ & _ & Tu & Td).
    rewrite E. cbn [snd]. split; [|done]. unfold ttl_of. by rewrite Hk.
  - destruct (add_member_calm (redis.thumbsUpKey skipId) (to_str userId) w Hc Hu)
      as ([] & w' & E & _ & S & _).
    unfold redis.addThumbsUp. rewrite E. cbn [snd]. rewrite S. split.
    + apply ttl_of_insert.
    + intros k Hk. by rewrite lookup_insert_ne.
  - destruct (add_member_calm (redis.thumbsDownKey skipId) (to_str userId) w Hc Hd)
      as ([] & w' & E & _ & S & _).
    unfold redis.addThumbsDown. rewrite E. cbn [snd]. rewrite S. split.
    + apply ttl_of_insert.
    + intros k Hk. by rewrite lookup_insert_ne.
Qed.

(** ** Failures downstream of the decision *)

Lemma post_returns env channel text tok w :
  live_token tok = false
  \/ (exists data, slack_api env channel text tok = Some data
                   /\ truthy (prop data "ok") = true) ->
  returns (slack.post env channel text (JStr tok)) w
    (fun _ w' =>
       store w' = store w /\ faults w' = faults w /\ console w' = console w
       /\ outbox w' = outbox w ++ [SlackPost (live_token tok) channel text]).
Proof.
  unfold slack.post, slack.no_valid_token, live_token. simpl.
  destruct (String.eqb tok EmptyString); simpl.
  { intros _. by eexists _, _. }
  destruct (String.prefix "xoxb-" tok); simpl.
  2: { intros _. by eexists _, _. }
  intros [|(data & Hd & Hok)]; [done|].
  unfold returns, bind, emit; simpl. rewrite Hd.
  destruct data; try done. simpl. simpl in Hok. rewrite Hok. simpl. by eexists _, _.
Qed.

Lemma deleteSkipVote_returns channelId skipId w :
  Forall (fun b => b = false) (take 2 (faults w)) ->
  returns (redis.deleteSkipVote channelId skipId) w
    (fun _ w' => outbox w' = outbox w /\ console w' = console w).
Proof.
  intros Hf. unfold returns, redis.deleteSkipVote, bind, redis.ensureConnection, send, next_fault.
  destruct (faults w) as [|[] [|[] fs]]; cbn [take] in Hf;
    repeat match goal with
           | H : Forall _ (_ :: _) |- _ => inversion H; clear H; subst
           end; try done;
    cbn [faults store Redis.exec fst snd]; by eexists _, _.
Qed.

(** C3 (amended): when the skip command fails during a resolution, the
    failure is logged and the resolution still completes, provided the
    announcement is accepted and the two round trips of the deletion
    succeed: the outcome is announced, the vote record and both sets
    are deleted, and the delivery is answered 200. *)
Theorem skip_failure_does_not_block_cleanup env body w tok w1 ch w2 skipVote w3 :
  let channelId := prop body "channelId" in
  let skipId := prop body "skipId" in
  let teamId := prop body "teamId" in
  let u := size (redis.thumbsUpUsers skipVote) in
  let d := size (redis.thumbsDownUsers skipVote) in
  let accessToken := prop (prop ch "spotify") "accessToken" in
  let text := SongSkipped (redis.vprop skipVote "trackName")
                (redis.vprop skipVote "artistName") u d in
  app.getBotToken teamId w = (Ret (JStr tok), w1) ->
  redis.getChannel channelId w1 = (Ret ch, w2) ->
  truthy ch = true ->
  truthy (prop ch "spotify") = true ->
  redis.getSkipVote channelId skipId w2 = (Ret (Some skipVote), w3) ->
  truthy (redis.vprop skipVote "resolved") = false ->
  d > u ->
  spotify.is_mock accessToken = false ->
  spotify_next env accessToken = false ->
  live_token tok = false
  \/ (exists data, slack_api env (prop ch "slackChannelId") text tok = Some data
                   /\ truthy (prop data "ok") = true) ->
  Forall (fun b => b = false) (take 2 (faults w3)) ->
  exists w',
    app.resolve env body w = (Ret (app.SendStatus 200), w')
    /\ store w' !! redis.voteKey channelId skipId = None
    /\ store w' !! redis.thumbsUpKey skipId = None
    /\ store w' !! redis.thumbsDownKey skipId = None
    /\ console w' = console w3 ++ [LogSkipTrackError]
    /\ outbox w' = outbox w3 ++
         [SpotifyNext true accessToken;
          SlackPost (live_token tok) (prop ch "slackChannelId") text].
Proof.
  intros channelId skipId teamId u d accessToken text H1 H2 Hch Hsp H3 Hres Hgt Hmock Hfail
    Hpost Hf.
  unfold app.resolve. fold channelId skipId teamId.
  rewrite (try_bind_ret _ _ _ _ _ _ H1), (try_bind_ret _ _ _ _ _ _ H2), Hch. simpl.
  rewrite (try_bind_ret _ _ _ _ _ _ H3), Hres. simpl. fold u d.
  destruct (d <=? u)%nat eqn:E; [apply Nat.leb_le in E; lia|].
  rewrite (member_truthy _ _ Hsp). fold accessToken.
  set (w4 := mkWorld (store w3) (faults w3) (cmds w3)
               (outbox w3 ++ [SpotifyNext true accessToken])
               (console w3 ++ [LogSkipTrackError]) (now w3)).
  erewrite try_bind_ret; last first.
  { unfold bind at 1, ret at 1. unfold bind at 1, spotify.skipTrack.
    rewrite Hmock. unfold bind, emit, log. cbn. rewrite Hfail. cbn.
    fold text. fold w4. reflexivity. }
  destruct (post_returns env (prop ch "slackChannelId") text tok w4 Hpost)
    as (data & w5 & E5 & S5 & F5 & C5 & O5).
  unfold slack.postMessage.
  rewrite (try_bind_ret _ _ _ _ _ _ E5).
  assert (Hf5 : Forall (fun b => b = false) (take 2 (faults w5))) by by rewrite F5.
  destruct (deleteSkipVote_returns channelId skipId w5 Hf5) as ([] & w6 & E6 & O6 & C6).
  rewrite (try_bind_ret _ _ _ _ _ _ E6).
  destruct (deleteSkipVote_ret _ _ _ _ E6) as (K1 & K2 & K3).
  exists w6. split; [done|]. repeat split; try done.
  - by rewrite C6, C5.
  - rewrite O6, O5. subst w4. cbn [outbox]. by rewrite <- app_assoc.
Qed.

(** ** Reactions *)

Section Reactions.
Variable skipId : js.

Lemma addThumbsUp_sets userId w :
  ready skipId w ->
  returns (redis.addThumbsUp skipId userId) w
    (fun _ => sets_become skipId w (fun s => s ∪ {[to_str userId]}) id).
Proof.
  intros (Hc & Hu & Hd).
  pose proof (thumbsUpKey_not_thumbsDownKey skipId) as N.
  eapply returns_weaken; [by apply add_member_calm|].
  intros [] w' (C & S & _). unfold sets_become. rewrite S.
  split; [done|]. split; [apply set_or_absent_insert_set|].
  split; [by apply set_or_absent_insert_ne|].
  split; [apply members_insert_set | by apply members_insert_ne].
Qed.

Lemma addThumbsDown_sets userId w :
  ready skipId w ->
  returns (redis.addThumbsDown skipId userId) w
    (fun _ => sets_become skipId w id (fun s => s ∪ {[to_str userId]})).
Proof.
  intros (Hc & Hu & Hd).
  pose proof (thumbsUpKey_not_thumbsDownKey skipId) as N.
  eapply returns_weaken; [by apply add_member_calm|].
  intros [] w' (C & S & _). unfold sets_become. rewrite S.
  split; [done|]. split; [by apply set_or_absent_insert_ne|].
  split; [apply set_or_absent_insert_set|].
  split; [by apply members_insert_ne | apply members_insert_set].
Qed.

Lemma removeThumbsUp_sets userId w :
  ready skipId w ->
  returns (redis.removeThumbsUp skipId userId) w
    (fun _ => sets_become skipId w (fun s => s ∖ {[to_str userId]}) id).
Proof.
  intros (Hc & Hu & Hd).
  pose proof (thumbsUpKey_not_thumbsDownKey skipId) as N.
  eapply returns_weaken; [by apply remove_member_calm|].
  intros [] w' (C & M & S & O & _). unfold sets_become.
  split; [done|]. split; [done|].
  unfold set_or_absent, members in *. rewrite (O (redis.thumbsDownKey skipId)); done.
Qed.

Lemma removeThumbsDown_sets userId w :
  ready skipId w ->
  returns (redis.removeThumbsDown skipId userId) w
    (fun _ => sets_become skipId w id (fun s => s ∖ {[to_str userId]})).
Proof.
  intros (Hc & Hu & Hd).
  pose proof (thumbsUpKey_not_thumbsDownKey skipId) as N.
  eapply returns_weaken; [by apply remove_member_calm|].
  intros [] w' (C & M & S & O & _). unfold sets_become.
  split; [done|].
  unfold set_or_absent, members in *. rewrite (O (redis.thumbsUpKey skipId)); done.
Qed.

Lemma sets_become_ready w fu fd w' : sets_become skipId w fu fd w' -> ready skipId w'.
Proof. intros (C & U & D & _). done. Qed.

Lemma sets_become_id w : ready skipId w -> sets_become skipId w id id w.
Proof. intros (C & U & D). done. Qed.

Lemma sets_become_trans w fu fd w' gu gd w'' :
  sets_become skipId w fu fd w' -> sets_become skipId w' gu gd w'' ->
  sets_become skipId w (fun s => gu (fu s)) (fun s => gd (fd s)) w''.
Proof.
  intros (_ & _ & _ & Mu & Md) (C & U & D & Mu' & Md').
  unfold sets_become. by rewrite Mu', Md', Mu, Md.
Qed.

Lemma added_not_removed evType :
  strict_eq evType (JStr "reaction_added") = true ->
  strict_eq evType (JStr "reaction_removed") = false.
Proof. destruct evType; simpl; try done. by intros ->%String.eqb_eq. Qed.

Lemma is_thumbs_up_aliases emoji :
  app.is_thumbs_up (JStr emoji) = bool_decide (emoji ∈ aliases Up).
Proof.
  unfold app.is_thumbs_up, aliases. cbn [strict_eq].
  destruct (String.eqb_spec emoji "+1") as [->|N1]; [done|].
  destruct (String.eqb_spec emoji "thumbsup") as [->|N2]; [done|].
  destruct (String.eqb_spec emoji "thumbs_up") as [->|N3]; [done|].
  symmetry. apply bool_decide_eq_false_2. set_solver.
Qed.

Lemma is_thumbs_down_aliases emoji :
  app.is_thumbs_down (JStr emoji) = bool_decide (emoji ∈ aliases Down).
Proof.
  unfold app.is_thumbs_down, aliases. cbn [strict_eq].
  destruct (String.eqb_spec emoji "-1") as [->|N1]; [done|].
  destruct (String.eqb_spec emoji "thumbsdown") as [->|N2]; [done|].
  destruct (String.eqb_spec emoji "thumbs_down") as [->|N3]; [done|].
  symmetry. apply bool_decide_eq_false_2. set_solver.
Qed.

Lemma is_thumbs_up_string reaction :
  app.is_thumbs_up reaction = true -> exists emoji, reaction = JStr emoji.
Proof. destruct reaction; try discriminate. by eexists. Qed.

Lemma is_thumbs_down_string reaction :
  app.is_thumbs_down reaction = true -> exists emoji, reaction = JStr emoji.
Proof. destruct reaction; try discriminate. by eexists. Qed.

(** What an event [touches], read off the tests the handler makes. *)
Lemma touches_Up evType reaction userId :
  touches Up (evType, reaction, userId)
  = if app.is_thumbs_up reaction then
      if strict_eq evType (JStr "reaction_added") then Some (to_str userId, true)
      else if strict_eq evType (JStr "reaction_removed") then Some (to_str userId, false)
      else None
    else None.
Proof.
  destruct (app.is_thumbs_up reaction) eqn:E.
  - destruct (is_thumbs_up_string _ E) as (emoji & ->).
    rewrite is_thumbs_up_aliases in E. unfold touches.
    destruct evType; try reflexivity; by rewrite ?E.
  - unfold touches. destruct evType; try reflexivity.
    destruct reaction; try reflexivity.
    rewrite is_thumbs_up_aliases in E. by rewrite E.
Qed.

Lemma touches_Down evType reaction userId :
  touches Down (evType, reaction, userId)
  = if app.is_thumbs_down reaction then
      if strict_eq evType (JStr "reaction_added") then Some (to_str userId, true)
      else if strict_eq evType (JStr "reaction_removed") then Some (to_str userId, false)
      else None
    else None.
Proof.
  destruct (app.is_thumbs_down reaction) eqn:E.
  - destruct (is_thumbs_down_string _ E) as (emoji & ->).
    rewrite is_thumbs_down_aliases in E. unfold touches.
    destruct evType; try reflexivity; by rewrite ?E.
  - unfold touches. destruct evType; try reflexivity.
    destruct reaction; try reflexivity.
    rewrite is_thumbs_down_aliases in E. by rewrite E.
Qed.

Lemma applyReaction_sets evType reaction userId w :
  ready skipId w ->
  returns (app.applyReaction evType reaction skipId userId) w
    (fun _ => sets_become skipId w (change (touches Up (evType, reaction, userId)))
                (change (touches Down (evType, reaction, userId)))).
Proof.
  intros Hr. rewrite touches_Up, touches_Down. unfold app.applyReaction.
  destruct (strict_eq evType (JStr "reaction_added")) eqn:Ea.
  - rewrite (added_not_removed _ Ea).
    apply returns_bind. apply returns_bind.
    destruct (app.is_thumbs_up reaction).
    + eapply returns_weaken; [by apply addThumbsUp_sets|]. intros [] w1 H1.
      destruct (app.is_thumbs_down reaction).
      * eapply returns_weaken; [apply addThumbsDown_sets; by eapply sets_become_ready|].
        intros [] w2 H2. apply returns_ret.
        by apply (sets_become_trans _ _ _ _ _ _ _ H1 H2).
      * apply returns_ret. apply returns_ret. done.
    + apply returns_ret.
      destruct (app.is_thumbs_down reaction).
      * eapply returns_weaken; [by apply addThumbsDown_sets|].
        intros [] w2 H2. apply returns_ret. done.
      * apply returns_ret. apply returns_ret. by apply sets_become_id.
  - apply returns_bind, returns_ret.
    destruct (strict_eq evType (JStr "reaction_removed")).
    + apply returns_bind.
      destruct (app.is_thumbs_up reaction).
      * eapply returns_weaken; [by apply removeThumbsUp_sets|]. intros [] w1 H1.
        destruct (app.is_thumbs_down reaction).
        -- eapply returns_weaken; [apply removeThumbsDown_sets; by eapply sets_become_ready|].
           intros [] w2 H2. by apply (sets_become_trans _ _ _ _ _ _ _ H1 H2).
        -- apply returns_ret. done.
      * apply returns_ret.
        destruct (app.is_thumbs_down reaction).
        -- eapply returns_weaken; [by apply removeThumbsDown_sets|]. by intros [] w2 H2.
        -- apply returns_ret. by apply sets_become_id.
    + apply returns_ret.
      destruct (app.is_thumbs_up reaction), (app.is_thumbs_down reaction);
        by apply sets_become_id.
Qed.

Lemma most_recent_user p user evs added :
  most_recent p user evs = Some added -> user ∈ users_of p evs.
Proof.
  unfold users_of. rewrite elem_of_remove_dups. revert added.
  induction evs as [|ev rest IH]; intros added; simpl; [done|].
  destruct (most_recent p user rest) as [b|].
  - intros _. destruct (touches p ev) as [[u a]|]; simpl; [right|]; by apply (IH b).
  - destruct (touches p ev) as [[u a]|]; simpl; [|done].
    destruct (String.eqb u user) eqn:E; [|done].
    apply String.eqb_eq in E as ->. intros _. by left.
Qed.

Lemma change_elem t (s : gset string) user :
  user ∈ change t s <->
  match t with
  | Some (u, added) => if String.eqb u user then added = true else user ∈ s
  | None => user ∈ s
  end.
Proof.
  destruct t as [[u []]|]; simpl; [| |done].
  - destruct (String.eqb u user) eqn:E.
    + apply String.eqb_eq in E as ->. set_solver.
    + apply String.eqb_neq in E. set_solver.
  - destruct (String.eqb u user) eqn:E.
    + apply String.eqb_eq in E as ->. set_solver.
    + apply String.eqb_neq in E. set_solver.
Qed.

(** The sets after a sequence of events: a user is in a set exactly
    when its most recent event for the polarity was an add, or when it
    has no event and was in the set before. *)
Lemma applyReactions_sets evs w :
  ready skipId w ->
  returns (applyReactions skipId evs) w
    (fun _ w' =>
       ready skipId w'
       /\ forall p user,
            user ∈ members (store w') (polarity_key p skipId) <->
            most_recent p user evs = Some true
            \/ (most_recent p user evs = None
                /\ user ∈ members (store w) (polarity_key p skipId))).
Proof.
  revert w. induction evs as [|[[evType reaction] userId] rest IH]; intros w Hr.
  { apply returns_ret. split; [done|]. intros p user. simpl. naive_solver. }
  cbn [applyReactions]. apply returns_bind.
  eapply returns_weaken; [by apply applyReaction_sets|].
  intros [] w1 H1.
  eapply returns_weaken; [apply IH; by eapply sets_become_ready|].
  intros [] w2 (R2 & H2). split; [done|].
  intros p user. rewrite H2. cbn [most_recent].
  destruct H1 as (_ & _ & _ & Mu & Md).
  assert (M : members (store w1) (polarity_key p skipId)
              = change (touches p (evType, reaction, userId))
                  (members (store w) (polarity_key p skipId))) by by destruct p.
  rewrite M, change_elem.
  destruct (most_recent p user rest) as [[]|]; [naive_solver | naive_solver |].
  destruct (touches p (evType, reaction, userId)) as [[u a]|]; [|naive_solver].
  destruct (String.eqb u user); naive_solver.
Qed.

End Reactions.

(** C5: for every sequence of reaction events applied to a vote whose
    sets start empty, with Redis answering, the cardinality of each
    polarity set is the number of distinct users whose most recent
    event for that polarity was an add. An event is for the thumbs up
    when its emoji is +1, thumbsup or thumbs_up, and for the thumbs
    down when it is -1, thumbsdown or thumbs_down; it is an add when
    its type is reaction_added and a removal when it is
    reaction_removed; any other event counts for neither. *)
Theorem reactions_count_current_voters skipId evs w :
  calm w ->
  store w !! redis.thumbsUpKey skipId = None ->
  store w !! redis.thumbsDownKey skipId = None ->
  exists w',
    applyReactions skipId evs w = (Ret tt, w')
    /\ size (members (store w') (redis.thumbsUpKey skipId)) = current_voters Up evs
    /\ size (members (store w') (redis.thumbsDownKey skipId)) = current_voters Down evs.
Proof.
  intros Hc Hu Hd.
  assert (Hr : ready skipId w).
  { split; [done|]. unfold set_or_absent. by rewrite Hu, Hd. }
  destruct (applyReactions_sets skipId evs w Hr) as ([] & w' & E & _ & H).
  exists w'. split; [done|].
  assert (Count : forall p,
            size (members (store w') (polarity_key p skipId)) = current_voters p evs).
  { intros p. unfold current_voters.
    rewrite <- (size_list_to_set (C := gset string)).
    - f_equal. apply set_eq. intros user.
      rewrite H, elem_of_list_to_set, list_elem_of_filter.
      assert (E0 : members (store w) (polarity_key p skipId) = ∅).
      { unfold members. destruct p; simpl; by rewrite ?Hu, ?Hd. }
      rewrite E0. split.
      + intros [Hm|[_ Hm]]; [|set_solver]. split; [done|]. by eapply most_recent_user.
      + intros [Hm _]. by left.
    - apply NoDup_filter, NoDup_remove_dups. }
  split; [apply (Count Up) | apply (Count Down)].
Qed.

(** ** Key patterns and key parts *)

Lemma append_cons c (a b : string) : String c a +:+ b = String c (a +:+ b).
Proof. reflexivity. Qed.

Lemma append_nil (b : string) : EmptyString +:+ b = b.
Proof. reflexivity. Qed.

Lemma all_chars_app ok a b : all_chars ok (a +:+ b) = all_chars ok a && all_chars ok b.
Proof.
  induction a as [|c a IH]; [done|].
  rewrite append_cons. simpl. by rewrite IH, andb_assoc.
Qed.

Lemma all_chars_weaken (ok ok' : ascii -> bool) s :
  (forall c, ok c = true -> ok' c = true) -> all_chars ok s = true -> all_chars ok' s = true.
Proof.
  intros H. induction s as [|c s IH]; simpl; [done|].
  intros [Hc Hs]%andb_true_iff. rewrite (H c Hc). auto.
Qed.

Lemma string_app_assoc (a b c : string) : (a +:+ b) +:+ c = a +:+ (b +:+ c).
Proof. induction a; [done|]. rewrite !append_cons. by f_equal. Qed.

Lemma prefix_app (p s : string) : String.prefix p s = true <-> exists r, s = p +:+ r.
Proof.
  revert s. induction p as [|a p IH]; intros s.
  - split; [intros _; exists s; reflexivity | intros _; by destruct s].
  - destruct s as [|b s]; simpl.
    { split; [done|]. intros [r Hr]. by rewrite append_cons in Hr. }
    destruct (ascii_dec a b) as [->|Hne].
    + rewrite IH. split; intros [r Hr]; exists r.
      * by rewrite append_cons, Hr.
      * rewrite append_cons in Hr. by injection Hr.
    + split; [done|]. intros [r Hr]. rewrite append_cons in Hr. by injection Hr.
Qed.

Lemma glob_star_end f s : Redis.glob_match (S (S f)) "*" s = true.
Proof.
  cbn [Redis.glob_match]. simpl Ascii.eqb. cbn iota.
  induction s as [|x s IH]; [done|]. by rewrite IH, orb_true_r.
Qed.

(** A pattern made of a literal text and a final star matches the keys
    that start with the text. *)
Lemma glob_literal_star p s f :
  all_chars (fun c => negb (glob_special c)) p = true ->
  String.length p + 2 <= f ->
  Redis.glob_match f (p +:+ "*") s = String.prefix p s.
Proof.
  revert s f. induction p as [|a p IH]; intros s f Hp Hf.
  - destruct f as [|[|f]]; simpl in Hf; try lia. rewrite append_nil, glob_star_end. by destruct s.
  - simpl in Hp. apply andb_true_iff in Hp as [Ha Hp].
    unfold glob_special in Ha. rewrite !negb_orb, !andb_true_iff, !negb_true_iff in Ha.
    destruct Ha as [[[A1 A2] A3] A4].
    destruct f as [|f]; simpl in Hf; [lia|].
    rewrite append_cons. simpl. rewrite A1. destruct s as [|x s]; [done|].
    rewrite A2, A3, A4, IH; [|done|lia]. simpl.
    destruct (ascii_dec a x) as [->|Hne].
    + by rewrite Ascii.eqb_refl.
    + apply Ascii.eqb_neq in Hne. by rewrite Hne.
Qed.

Lemma split_on_free s : all_chars not_colon s = true -> split_on ":" s = [s].
Proof.
  induction s as [|c s IH]; simpl; [done|].
  intros [Hc Hs]%andb_true_iff. unfold not_colon in Hc. apply negb_true_iff in Hc.
  by rewrite Hc, IH.
Qed.

Lemma split_on_part a b :
  all_chars not_colon a = true ->
  split_on ":" (a +:+ String ":" b) = a :: split_on ":" b.
Proof.
  induction a as [|c a IH]; [done|]. rewrite append_cons. simpl.
  intros [Hc Ha]%andb_true_iff. unfold not_colon in Hc. apply negb_true_iff in Hc.
  by rewrite Hc, IH.
Qed.

(** The third part of a vote key is the skip id. *)
Lemma voteKey_skipId channelId id :
  plain (to_str channelId) = true -> all_chars not_colon id = true ->
  index (split_on ":" (redis.voteKey channelId (JStr id))) 2 = JStr id.
Proof.
  intros Hc Hi.
  assert (Hc' : all_chars not_colon (to_str channelId) = true).
  { revert Hc. apply all_chars_weaken. by intros c [_ ?]%andb_true_iff. }
  change (redis.voteKey channelId (JStr id))
    with ("skipVote" +:+ String ":" (to_str channelId +:+ String ":" id)).
  rewrite split_on_part, split_on_part, split_on_free; done.
Qed.

(** KEYS with the pattern of a channel finds the keys of the channel. *)
Lemma matches_channel channelId key :
  plain (to_str channelId) = true ->
  Redis.matches (redis.SKIP_VOTE_PREFIX +:+ to_str channelId +:+ ":*") key = true
  <-> exists id, key = redis.voteKey channelId (JStr id).
Proof.
  intros Hc. unfold Redis.matches.
  change (redis.SKIP_VOTE_PREFIX +:+ to_str channelId +:+ ":*")
    with ("skipVote:" +:+ (to_str channelId +:+ (":" +:+ "*"))).
  rewrite <- !string_app_assoc.
  rewrite glob_literal_star.
  - rewrite prefix_app. unfold redis.voteKey. simpl to_str.
    split; intros [id ->]; exists id; by rewrite !string_app_assoc.
  - rewrite !all_chars_app. simpl. rewrite andb_true_r.
    revert Hc. apply all_chars_weaken. by intros c [? _]%andb_true_iff.
  - rewrite !string_app_length. simpl. lia.
Qed.

(** ** Looking a vote up *)

Lemma store_sent_read c w : Redis.is_write c = false -> store (sent c w) = store w.
Proof. intros H. unfold sent. cbn [store]. by apply exec_read. Qed.

Lemma get_calm key text t w :
  calm w -> store w !! key = Some (Redis.mkEntry (Redis.RString text) t) ->
  returns (redis.get key) w (fun v w' => v = Some text /\ store w' = store w /\ calm w').
Proof.
  intros Hc Hk. apply returns_bind, returns_send; [done | | ].
  - simpl. by rewrite Hk.
  - apply returns_ret.
    split; [|split; [by apply store_sent_read | by apply calm_sent]].
    simpl. by rewrite Hk.
Qed.

Lemma smembers_calm key w :
  calm w -> set_or_absent (store w) key ->
  returns (redis.smembers key) w
    (fun xs w' => list_to_set xs = members (store w) key /\ store w' = store w /\ calm w').
Proof.
  intros Hc Hs. unfold set_or_absent, members in *.
  apply returns_bind, returns_send; [done | | ].
  - simpl. by destruct (store w !! key) as [[[] ?]|].
  - apply returns_ret.
    split; [|split; [by apply store_sent_read | by apply calm_sent]].
    simpl. destruct (store w !! key) as [[[] ?]|]; simpl; try done.
    apply list_to_set_elements_L.
Qed.

Lemma getSkipVote_calm channelId skipId text t vote w :
  calm w ->
  store w !! redis.voteKey channelId skipId = Some (Redis.mkEntry (Redis.RString text) t) ->
  text <> EmptyString ->
  JSON_parse text = Some vote ->
  set_or_absent (store w) (redis.thumbsUpKey skipId) ->
  set_or_absent (store w) (redis.thumbsDownKey skipId) ->
  returns (redis.getSkipVote channelId skipId) w
    (fun o w' => o = Some (assembled (store w) skipId vote) /\ store w' = store w /\ calm w').
Proof.
  intros Hc Hk Ht Hp Hu Hd.
  apply returns_bind, returns_ensureConnection; [done|].
  apply returns_bind.
  eapply returns_weaken; [by apply (get_calm _ text t (connected w)); [apply calm_connected|]|].
  intros v w1 (-> & S1 & C1). simpl.
  apply String.eqb_neq in Ht. rewrite Ht.
  unfold redis.parse at 1. rewrite Hp.
  apply returns_bind, returns_ret. apply returns_bind.
  eapply returns_weaken; [apply smembers_calm; [done | by rewrite S1]|].
  intros ups w2 (Mu & S2 & C2). apply returns_bind.
  eapply returns_weaken; [apply smembers_calm; [done | by rewrite S2, S1]|].
  intros downs w3 (Md & S3 & C3). apply returns_ret.
  split; [|split; [by rewrite S3, S2, S1 | done]].
  unfold assembled. rewrite Mu, Md, S2, S1. done.
Qed.

Lemma findIn_calm channelId messageTs ks w :
  plain (to_str channelId) = true ->
  calm w ->
  channel_in_order (store w) channelId ->
  (forall k, k ∈ ks -> exists id, k = redis.voteKey channelId (JStr id)
                                  /\ is_Some (store w !! k)) ->
  returns (redis.findIn channelId messageTs ks) w
    (fun o w' =>
       store w' = store w
       /\ match o with
          | Some v =>
              exists id vote,
                stored_vote (store w) (redis.voteKey channelId (JStr id)) vote
                /\ strict_eq (prop vote "messageTs") messageTs = true
                /\ v = assembled (store w) (JStr id) vote
          | None =>
              forall k vote,
                k ∈ ks -> stored_vote (store w) k vote ->
                strict_eq (prop vote "messageTs") messageTs = false
          end).
Proof.
  intros Hplain. revert w. induction ks as [|key rest IH]; intros w Hc Hord Hks.
  { apply returns_ret. split; [done|]. intros k vote Hin. by apply elem_of_nil in Hin. }
  destruct (Hks key) as (id & -> & [[v t] Hk]); [by left|].
  destruct (Hord id _ Hk) as (Hid & (text & Hv & Htext) & Hu & Hd).
  simpl in Hv. subst v.
  assert (Rest : forall w1, store w1 = store w -> calm w1 ->
            (forall vote, stored_vote (store w) (redis.voteKey channelId (JStr id)) vote ->
                          strict_eq (prop vote "messageTs") messageTs = false) ->
            returns (redis.findIn channelId messageTs rest) w1
              (fun o w' =>
                 store w' = store w
                 /\ match o with
                    | Some v =>
                        exists id vote,
                          stored_vote (store w) (redis.voteKey channelId (JStr id)) vote
                          /\ strict_eq (prop vote "messageTs") messageTs = true
                          /\ v = assembled (store w) (JStr id) vote
                    | None =>
                        forall k vote,
                          k ∈ redis.voteKey channelId (JStr id) :: rest ->
                          stored_vote (store w) k vote ->
                          strict_eq (prop vote "messageTs") messageTs = false
                    end)).
  { intros w1 S1 C1 Hno.
    eapply returns_weaken.
    - apply IH; [done | by rewrite S1 |].
      intros k Hin. rewrite S1. apply Hks. by right.
    - intros o w' (S' & Ho). rewrite S1 in S', Ho. split; [done|].
      destruct o as [v|]; [done|].
      intros k vote [->|Hin]%elem_of_cons; [apply Hno | by apply Ho]. }
  cbn [redis.findIn]. apply returns_bind.
  eapply returns_weaken; [by apply (get_calm _ text t w)|].
  intros value w1 (-> & S1 & C1). simpl.
  destruct Htext as [->|(vote & Hp & Hnn & Hnu)].
  { simpl. apply Rest; [done | done |].
    intros vote (text' & t' & Hk' & Hne & _). congruence. }
  destruct (String.eqb text EmptyString) eqn:Et.
  { apply String.eqb_eq in Et as ->. apply Rest; [done | done |].
    intros vote' (text' & t' & Hk' & Hne & _). congruence. }
  apply String.eqb_neq in Et.
  unfold redis.parse at 1. rewrite Hp. apply returns_bind, returns_ret.
  assert (Hm : member vote "messageTs" = ret (prop vote "messageTs")).
  { by destruct vote. }
  rewrite Hm. apply returns_bind, returns_ret.
  destruct (strict_eq (prop vote "messageTs") messageTs) eqn:Em.
  - change (index _ 2) with (index (split_on ":" (redis.voteKey channelId (JStr id))) 2).
    rewrite (voteKey_skipId _ _ Hplain Hid).
    eapply returns_weaken.
    + apply (getSkipVote_calm channelId (JStr id) text t vote w1); try done; by rewrite S1.
    + intros o w' (-> & S' & C'). split; [congruence|].
      exists id, vote. rewrite S1. split; [|done]. by exists text, t.
  - apply Rest; [done | done |].
    intros vote' (text' & t' & Hk' & Hne & Hp'). congruence.
Qed.

Lemma keys_calm pattern w :
  calm w ->
  returns (redis.keys pattern) w
    (fun ks w' =>
       store w' = store w /\ calm w'
       /\ forall k, k ∈ ks <-> Redis.matches pattern k = true /\ is_Some (store w !! k)).
Proof.
  intros Hc. apply returns_bind, returns_send; [done | done |].
  apply returns_ret. split; [by apply store_sent_read|]. split; [by apply calm_sent|].
  intros k. simpl. rewrite list_elem_of_filter, list_elem_of_fmap.
  split.
  - intros (Hm & [key e] & -> & Hin). apply elem_of_map_to_list in Hin. split; [done|].
    by exists e.
  - intros (Hm & e & He). split; [done|]. exists (k, e). split; [done|].
    by apply elem_of_map_to_list.
Qed.

(** C4 (amended): with Redis answering, for a channel id without glob
    characters or colons and a channel whose vote keys are in order,
    findSkipVoteByMessageTs returns none exactly when no vote record of
    the channel carries the announcement reference, and otherwise a
    record that carries it, assembled as getSkipVote does, whatever
    its resolved flag is. *)
Theorem find_returns_the_match_resolved_or_not channelId messageTs w :
  plain (to_str channelId) = true ->
  calm w ->
  channel_in_order (store w) channelId ->
  exists o w',
    redis.findSkipVoteByMessageTs channelId messageTs w = (Ret o, w')
    /\ store w' = store w
    /\ match o with
       | Some v =>
           exists id vote,
             stored_vote (store w) (redis.voteKey channelId (JStr id)) vote
             /\ strict_eq (prop vote "messageTs") messageTs = true
             /\ v = assembled (store w) (JStr id) vote
       | None =>
           forall id vote,
             stored_vote (store w) (redis.voteKey channelId (JStr id)) vote ->
             strict_eq (prop vote "messageTs") messageTs = false
       end.
Proof.
  intros Hplain Hc Hord.
  unfold redis.findSkipVoteByMessageTs.
  apply returns_bind, returns_ensureConnection; [done|].
  apply returns_bind.
  eapply returns_weaken; [apply keys_calm; by apply calm_connected|].
  intros ks w1 (S1 & C1 & Hks).
  change (store (connected w)) with (store w) in S1, Hks.
  eapply returns_weaken.
  - apply (findIn_calm channelId messageTs ks w1 Hplain C1); [by rewrite S1|].
    intros k [Hm Hin]%Hks. apply (matches_channel _ _ Hplain) in Hm as [id ->].
    exists id. by rewrite S1.
  - intros o w' (S' & Ho). rewrite S1 in S', Ho. split; [done|].
    destruct o as [v|]; [done|].
    intros id vote Hv. apply (Ho (redis.voteKey channelId (JStr id))); [|done].
    apply Hks. split; [apply (matches_channel _ _ Hplain); by exists id|].
    destruct Hv as (text & t & Hk & _). by rewrite Hk.
Qed.

(** ** JSON round trip *)

Lemma parse_chars_escape_char c r :
  parse_chars (escape_char c +:+ r)
  = match parse_chars r with
    | Some (str, rest) => Some (String c str, rest)
    | None => None
    end.
Proof.
  destruct c as [[] [] [] [] [] [] [] []]; reflexivity.
Qed.

Lemma parse_chars_escape s rest :
  parse_chars (escape s +:+ String dquote rest) = Some (s, rest).
Proof.
  induction s as [|c s IH]; [reflexivity|].
  cbn [escape]. by rewrite string_app_assoc, parse_chars_escape_char, IH.
Qed.

Lemma parse_digits_uint d rest :
  match rest with String c _ => is_digit c = false | EmptyString => True end ->
  parse_digits (digits_of_uint d +:+ rest) = (d, rest).
Proof.
  intros Hr. induction d; cbn [digits_of_uint]; rewrite ?append_cons, ?append_nil;
    cbn [parse_digits]; try (by rewrite IHd).
  destruct rest as [|c r]; [done|]. cbn [parse_digits]. by rewrite Hr.
Qed.

Lemma nzhead_not_zero d d' : Decimal.nzhead d <> Decimal.D0 d'.
Proof. induction d; simpl; done. Qed.

Lemma to_uint_canonical n :
  N.to_uint n <> Decimal.Nil
  /\ forall d', N.to_uint n = Decimal.D0 d' -> d' = Decimal.Nil.
Proof.
  pose proof (DecimalN.Unsigned.to_of (N.to_uint n)) as H.
  rewrite DecimalN.Unsigned.of_to in H. rewrite H. unfold Decimal.unorm.
  pose proof (nzhead_not_zero (N.to_uint n)) as Hz.
  destruct (Decimal.nzhead (N.to_uint n)); split; try done; try (by intros d' [=]).
  intros d' E. by destruct (Hz u).
Qed.

Lemma terminated_not_digit rest :
  terminated rest ->
  match rest with String c _ => is_digit c = false | EmptyString => True end.
Proof. destruct rest as [|c r]; [done|]. by intros [->|[->| ->]]. Qed.

Lemma parse_nat_literal_N n rest :
  terminated rest -> parse_nat_literal (N_to_string n +:+ rest) = Some (n, rest).
Proof.
  intros Hr. unfold parse_nat_literal, N_to_string.
  rewrite parse_digits_uint; [|by apply terminated_not_digit].
  assert (Hok : match rest with
                | String c _ => negb (Ascii.eqb c "." || Ascii.eqb c "e" || Ascii.eqb c "E")
                | EmptyString => true
                end = true).
  { destruct rest as [|c r]; [done|]. by destruct Hr as [->|[->| ->]]. }
  rewrite Hok.
  destruct (to_uint_canonical n) as (Hnil & Hzero).
  pose proof (DecimalN.Unsigned.of_to n) as Hof.
  destruct (N.to_uint n) as [|d|d|d|d|d|d|d|d|d|d]; try done; try (by rewrite Hof).
  rewrite (Hzero d eq_refl) in *. by rewrite <- Hof.
Qed.

Lemma js_ind_strong (P : js -> Prop) :
  P JUndefined -> P JNull -> (forall b, P (JBool b)) -> (forall n, P (JNum n)) ->
  (forall s, P (JStr s)) ->
  (forall xs, Forall P xs -> P (JArr xs)) ->
  (forall fs, Forall (fun kv => P kv.2) fs -> P (JObj fs)) ->
  forall v, P v.
Proof.
  intros Hu Hn Hb Hz Hs Ha Ho. fix IH 1. intros [| |b|n|s|xs|fs].
  - exact Hu.
  - exact Hn.
  - apply Hb.
  - apply Hz.
  - apply Hs.
  - apply Ha. induction xs as [|x xs IHxs]; constructor; [apply IH | exact IHxs].
  - apply Ho. induction fs as [|[k x] fs IHfs]; constructor; [apply IH | exact IHfs].
Qed.

Lemma join_comma_cons p q ps :
  join_comma (p :: q :: ps) = p +:+ "," +:+ join_comma (q :: ps).
Proof.
  unfold join_comma. simpl. revert p q.
  induction ps as [|r ps IH]; intros p q; simpl; [done|].
  rewrite IH, (IH q r). by rewrite !string_app_assoc.
Qed.

Lemma N_to_string_head n :
  exists c t, N_to_string n = String c t
              /\ (c = "0" \/ c = "1" \/ c = "2" \/ c = "3" \/ c = "4"
                  \/ c = "5" \/ c = "6" \/ c = "7" \/ c = "8" \/ c = "9")%char.
Proof.
  unfold N_to_string. destruct (to_uint_canonical n) as (Hnil & _).
  destruct (N.to_uint n); [done|..]; eexists _, _; (split; [reflexivity|]); tauto.
Qed.

Lemma element_text_head v : exists c t, element_text v = String c t /\ value_start c.
Proof.
  unfold value_start.
  destruct v as [| |[]|n|s|xs|fs]; try (eexists _, _; split; [reflexivity|]; tauto).
  unfold element_text. simpl. unfold Z_to_string.
  destruct (n <? 0)%Z; [eexists _, _; split; [reflexivity|]; tauto|].
  destruct (N_to_string_head (Z.abs_N n)) as (c & t & -> & Hc).
  exists c, t. split; [done|]. tauto.
Qed.

Lemma parse_value_array f c r :
  value_start c ->
  parse_value (S f) (String "[" (String c r))
  = match parse_elements f (String c r) with
    | Some (xs, r') => Some (JArr xs, r')
    | None => None
    end.
Proof.
  intros H. unfold value_start in H.
  repeat (destruct H as [->|H]); [..|subst c]; reflexivity.
Qed.

Lemma skip_ws_value c r : value_start c -> skip_ws (String c r) = String c r.
Proof.
  intros H. unfold value_start in H.
  repeat (destruct H as [->|H]); [..|subst c]; reflexivity.
Qed.

Lemma join_comma_head x xs :
  exists c t, join_comma (map element_text (x :: xs)) = String c t /\ value_start c.
Proof.
  destruct (element_text_head x) as (c & t & E & Hc).
  destruct xs as [|y ys].
  - exists c, t. by rewrite <- E.
  - cbn [map]. rewrite join_comma_cons, E. eexists _, _. split; [apply append_cons | done].
Qed.

Lemma parse_elements_back xs :
  Forall reads_back xs -> xs <> [] ->
  forall rest fuel,
    String.length (join_comma (map element_text xs)) + 1 < fuel ->
    parse_elements fuel (join_comma (map element_text xs) +:+ String "]" rest)
    = Some (map element_value xs, rest).
Proof.
  induction 1 as [|x xs Hx Hxs IH]; [done|]. intros _ rest fuel Hf.
  destruct fuel as [|f]; [lia|].
  destruct xs as [|y ys].
  - cbn [map] in *. change (join_comma [element_text x]) with (element_text x) in *.
    cbn [parse_elements]. rewrite Hx; [done | by right; left | lia].
  - cbn [map] in Hf |- *. rewrite join_comma_cons in Hf |- *.
    rewrite !string_app_length in Hf.
    rewrite !string_app_assoc. cbn [parse_elements].
    rewrite Hx; [| by left | change (String.length ",") with 1 in Hf; lia].
    change ("," +:+ ?r) with (String "," r).
    set (J := join_comma (element_text y :: map element_text ys)) in *.
    simpl. subst J.
    change (element_text y :: map element_text ys) with (map element_text (y :: ys)) in *.
    rewrite (IH ltac:(done) rest f); [done|].
    change (String.length ",") with 1 in Hf. lia.
Qed.

Lemma member_text_length kv :
  String.length (element_text kv.2) + 3 <= String.length (member_text kv).
Proof.
  unfold member_text, quote. rewrite string_app_length. cbn [String.length].
  rewrite !string_app_length. cbn [String.length]. lia.
Qed.

Lemma parse_members_back ms :
  Forall (fun kv => reads_back kv.2) ms -> ms <> [] ->
  forall rest fuel,
    String.length (join_comma (map member_text ms)) + 1 < fuel ->
    parse_members fuel (join_comma (map member_text ms) +:+ String "}" rest)
    = Some (map (fun kv => (kv.1, element_value kv.2)) ms, rest).
Proof.
  induction 1 as [|[k x] ms Hx Hms IH]; [done|]. intros _ rest fuel Hf.
  destruct fuel as [|f]; [lia|].
  pose proof (member_text_length (k, x)) as Hl. cbn [snd] in Hx, Hl.
  assert (Step : forall more,
            terminated more -> String.length (member_text (k, x)) < f ->
            parse_members (S f) (member_text (k, x) +:+ more)
            = match skip_ws more with
              | String "," r4 =>
                  match parse_members f r4 with
                  | Some (fs, r5) => Some ((k, element_value x) :: fs, r5)
                  | None => None
                  end
              | String "}" r4 => Some ([(k, element_value x)], r4)
              | _ => None
              end).
  { intros more Hmore Hlen. unfold member_text, quote. cbn [fst snd].
    rewrite !append_cons, !string_app_assoc, !append_cons, !append_nil.
    cbn [parse_members]. change (skip_ws (String dquote ?r)) with (String dquote r).
    lazy beta iota.
    rewrite Ascii.eqb_refl, parse_chars_escape. cbn [skip_ws is_ws N_of_ascii]. simpl.
    rewrite Hx; [done | done | lia]. }
  destruct ms as [|m ms'].
  - cbn [map] in *. change (join_comma [member_text (k, x)]) with (member_text (k, x)) in *.
    rewrite Step; [done | by right; right | lia].
  - cbn [map] in Hf |- *. rewrite join_comma_cons in Hf |- *.
    rewrite !string_app_length in Hf.
    rewrite !string_app_assoc.
    rewrite Step; [| by left | change (String.length ",") with 1 in Hf; lia].
    change ("," +:+ ?r) with (String "," r).
    set (J := join_comma (member_text m :: map member_text ms')) in *.
    simpl. subst J.
    change (member_text m :: map member_text ms') with (map member_text (m :: ms')) in *.
    rewrite (IH ltac:(done) rest f); [done|].
    change (String.length ",") with 1 in Hf. lia.
Qed.

Lemma written_texts fs :
  omap (fun kv => match kv with
                  | (k, w) =>
                      match stringify_value w with
                      | Some t => Some (quote k +:+ ":" +:+ t)
                      | None => None
                      end
                  end) fs
  = map member_text (written fs).
Proof.
  induction fs as [|[k w] fs IH]; [done|].
  destruct w as [| |[]|n|s|xs|ys]; first [exact IH | exact (f_equal (cons _) IH)].
Qed.

Lemma written_values fs :
  omap (fun kv => match kv with
                  | (_, JUndefined) => None
                  | (k, w) => Some (k, normalize w)
                  end) fs
  = map (fun kv => (kv.1, element_value kv.2)) (written fs).
Proof.
  induction fs as [|[k w] fs IH]; [done|].
  destruct w as [| |[]|n|s|xs|ys]; first [exact IH | exact (f_equal (cons _) IH)].
Qed.

Lemma element_values xs :
  map (fun x => match x with JUndefined => JNull | _ => normalize x end) xs
  = map element_value xs.
Proof. reflexivity. Qed.

Lemma Forall_written (P : string * js -> Prop) fs : Forall P fs -> Forall P (written fs).
Proof.
  unfold written. induction 1 as [|kv fs H Hfs IH]; simpl; [constructor|].
  destruct (negb (is_undefined kv.2)); [by constructor | done].
Qed.

(** JSON.parse reads back what JSON.stringify writes, for every value. *)
Lemma reads_back_all v : reads_back v.
Proof.
  induction v as [| |b|n|s|xs IH|fs IH] using js_ind_strong; intros rest fuel Hr Hf;
    (destruct fuel as [|f]; [lia|]).
  - reflexivity.
  - reflexivity.
  - by destruct b.
  - unfold element_text, element_value. cbn [stringify_value default from_option normalize id].
    unfold Z_to_string. destruct (n <? 0)%Z eqn:En.
    + rewrite append_cons. cbn [parse_value skip_ws is_ws N_of_ascii]. simpl.
      rewrite parse_nat_literal_N; [|done]. do 3 f_equal. apply Z.ltb_lt in En. lia.
    + pose proof (parse_nat_literal_N (Z.abs_N n) rest Hr) as Hlit.
      destruct (N_to_string_head (Z.abs_N n)) as (c & t & E & Hc).
      rewrite E in Hlit |- *. rewrite append_cons in Hlit |- *.
      assert (Hz : Z.of_N (Z.abs_N n) = n) by (apply Z.ltb_ge in En; lia).
      destruct Hc as [->|[->|[->|[->|[->|[->|[->|[->|[->| ->]]]]]]]]];
        cbn [parse_value skip_ws is_ws N_of_ascii]; simpl; rewrite Hlit, Hz; reflexivity.
  - unfold element_text, element_value.
    cbn [stringify_value default from_option normalize id]. unfold quote.
    rewrite append_cons, string_app_assoc, append_cons, append_nil.
    cbn [parse_value]. change (skip_ws (String dquote ?r)) with (String dquote r).
    lazy beta iota. change (Ascii.eqb dquote dquote) with true. lazy beta iota.
    by rewrite parse_chars_escape.
  - unfold element_text, element_value in *.
    cbn [stringify_value default from_option normalize id] in *.
    rewrite element_values.
    change (map (fun x => default "null" (stringify_value x)) xs) with (map element_text xs) in *.
    destruct xs as [|x xs]; [reflexivity|].
    destruct (join_comma_head x xs) as (c & t & E & Hc).
    rewrite !append_cons, append_nil, string_app_assoc, E, append_cons.
    rewrite parse_value_array; [|done].
    rewrite <- append_cons, <- E.
    change ("]" +:+ rest) with (String "]" rest).
    rewrite parse_elements_back; [done | done | done |].
    rewrite !append_cons, append_nil in Hf. cbn [String.length] in Hf.
    rewrite string_app_length in Hf. cbn [String.length] in Hf. lia.
  - unfold element_text, element_value in *.
    cbn [stringify_value default from_option normalize id] in *.
    rewrite written_texts, written_values in *.
    pose proof (Forall_written _ _ IH) as IH'.
    destruct (written fs) as [|m ms]; [reflexivity|].
    assert (E : exists t, join_comma (map member_text (m :: ms)) = String dquote t).
    { destruct ms as [|m' ms]; [by eexists|]. cbn [map]. rewrite join_comma_cons.
      by eexists. }
    destruct E as (t & E).
    rewrite !append_cons, append_nil, string_app_assoc, E, append_cons.
    change (parse_value (S f) (String "{" (String dquote ?r)))
      with (match parse_members f (String dquote r) with
            | Some (fs, r') => Some (JObj fs, r')
            | None => None
            end).
    rewrite <- append_cons, <- E.
    change ("}" +:+ rest) with (String "}" rest).
    rewrite parse_members_back; [done | done | done |].
    rewrite !append_cons, append_nil in Hf. cbn [String.length] in Hf.
    rewrite string_app_length in Hf. cbn [String.length] in Hf. lia.
Qed.

(** JSON.parse (JSON.stringify v) is [v] without the properties that
    are undefined and with null for the undefined elements of arrays. *)
Lemma JSON_parse_stringify v text :
  JSON_stringify v = Some text -> JSON_parse text = Some (normalize v).
Proof.
  intros E. unfold JSON_parse, JSON_stringify in *.
  pose proof (reads_back_all v EmptyString (S (String.length text)) I) as H.
  assert (Et : element_text v = text) by (unfold element_text; by rewrite E).
  assert (Ev : element_value v = normalize v) by by destruct v.
  assert (A : text +:+ EmptyString = text).
  { clear. induction text; [done|]. rewrite append_cons. by f_equal. }
  rewrite Et, Ev, A in H. rewrite H; [done | lia].
Qed.

(** ** Storing a vote and reading it back *)

Lemma normalize_scalar v : is_scalar v = true -> normalize v = v.
Proof. by destruct v. Qed.

Lemma assoc_last_key k fs v : assoc_last k fs = Some v -> k ∈ map fst fs.
Proof.
  revert v. induction fs as [|[k' w] fs IH]; intros v; simpl; [done|].
  destruct (assoc_last k fs) as [v'|].
  - intros _. right. by apply (IH v').
  - destruct (String.eqb k k') eqn:E; [|done]. apply String.eqb_eq in E as ->. intros _. by left.
Qed.

Lemma written_keys k fs :
  k ∈ map fst (map (fun kv : string * js => (kv.1, element_value kv.2)) (written fs)) ->
  k ∈ map fst fs.
Proof.
  unfold written. induction fs as [|[k' w] fs IH]; simpl; [done|].
  destruct (is_undefined w); simpl.
  - intros H. right. auto.
  - intros [->|H]%elem_of_cons; [by left | right; auto].
Qed.

Lemma assoc_last_written k fs :
  NoDup (map fst fs) ->
  default JUndefined
    (assoc_last k (map (fun kv => (kv.1, element_value kv.2)) (written fs)))
  = normalize (default JUndefined (assoc_last k fs)).
Proof.
  induction fs as [|[k' w] fs IH]; [done|].
  intros [Hk Hnd]%NoDup_cons. specialize (IH Hnd).
  cbn [assoc_last].
  assert (Hw : written ((k', w) :: fs)
               = if is_undefined w then written fs else (k', w) :: written fs).
  { unfold written. simpl. by destruct (is_undefined w). }
  rewrite Hw.
  destruct (assoc_last k fs) as [v'|] eqn:Ef.
  - assert (Hne : String.eqb k k' = false).
    { apply String.eqb_neq. intros ->. apply Hk. by eapply assoc_last_key. }
    destruct (is_undefined w); [done|].
    cbn [map assoc_last fst snd]. rewrite Hne.
    match goal with
    | |- context [assoc_last k (map ?f (written fs))] =>
        by destruct (assoc_last k (map f (written fs)))
    end.
  - destruct (is_undefined w) eqn:Eu.
    + rewrite IH. destruct w; try done. by destruct (String.eqb k k').
    + cbn [map assoc_last fst snd].
      match goal with
      | |- context [assoc_last k (map ?f (written fs))] =>
          destruct (assoc_last k (map f (written fs))) as [v''|] eqn:Ew
      end.
      * destruct (String.eqb k k') eqn:E; [|done].
        apply String.eqb_eq in E as ->. destruct Hk.
        apply written_keys. by eapply assoc_last_key.
      * destruct (String.eqb k k'); [|done]. simpl. by destruct w.
Qed.

Lemma assoc_last_spread k fs :
  k <> "thumbsUpUsers" -> k <> "thumbsDownUsers" ->
  assoc_last k (redis.spread (JObj fs)) = assoc_last k fs.
Proof.
  intros H1 H2. cbn [redis.spread].
  induction fs as [|[k' w] fs IH]; [done|].
  rewrite filter_cons. cbn [assoc_last fst].
  destruct (decide (k' ≠ "thumbsUpUsers" ∧ k' ≠ "thumbsDownUsers")) as [Hd|Hd].
  - cbn [assoc_last]. by rewrite IH.
  - rewrite IH. destruct (assoc_last k fs); [done|].
    destruct (String.eqb k k') eqn:E; [|done].
    apply String.eqb_eq in E as ->. by destruct Hd.
Qed.

(** C9 (amended): with Redis answering, getSkipVote right after
    setSkipVote returns a record whose metadata properties are those
    of the vote stored, as JSON keeps them (a scalar is kept as it is),
    and whose sets hold the members supplied together with the members
    the set keys of the skip id already held; they are exactly the
    members supplied when those keys were absent. *)
Theorem getSkipVote_after_setSkipVote channelId skipId vote w :
  calm w ->
  set_or_absent (store w) (redis.thumbsUpKey skipId) ->
  set_or_absent (store w) (redis.thumbsDownKey skipId) ->
  NoDup (map fst (redis.fields vote)) ->
  exists w1 w2 got,
    redis.setSkipVote channelId skipId vote w = (Ret tt, w1)
    /\ redis.getSkipVote channelId skipId w1 = (Ret (Some got), w2)
    /\ (forall k, k <> "thumbsUpUsers" -> k <> "thumbsDownUsers" ->
                  redis.vprop got k = normalize (redis.vprop vote k)
                  /\ (is_scalar (redis.vprop vote k) = true ->
                      redis.vprop got k = redis.vprop vote k))
    /\ redis.thumbsUpUsers got
       = members (store w) (redis.thumbsUpKey skipId) ∪ redis.thumbsUpUsers vote
    /\ redis.thumbsDownUsers got
       = members (store w) (redis.thumbsDownKey skipId) ∪ redis.thumbsDownUsers vote
    /\ (store w !! redis.thumbsUpKey skipId = None ->
        redis.thumbsUpUsers got = redis.thumbsUpUsers vote)
    /\ (store w !! redis.thumbsDownKey skipId = None ->
        redis.thumbsDownUsers got = redis.thumbsDownUsers vote).
Proof.
  intros Hc Hu Hd Hnd.
  destruct (setSkipVote_calm channelId skipId vote w Hc Hu Hd)
    as ([] & w1 & E1 & C1 & _ & Hk & Mu & Md & Su & Sd & _).
  destruct (JSON_stringify (JObj (redis.fields vote))) as [text|] eqn:Es; [|done].
  cbn [default from_option id] in Hk.
  pose proof (JSON_parse_stringify _ _ Es) as Hp.
  assert (Hne : text <> EmptyString).
  { unfold JSON_stringify in Es. cbn [stringify_value] in Es. by injection Es as <-. }
  destruct (getSkipVote_calm channelId skipId text (Some 900) _ w1 C1 Hk Hne Hp Su Sd)
    as (o & w2 & E2 & -> & _).
  eexists w1, w2, _. split; [done|]. split; [exact E2|].
  set (got := assembled (store w1) skipId (normalize (JObj (redis.fields vote)))).
  assert (Hf : forall k, k <> "thumbsUpUsers" -> k <> "thumbsDownUsers" ->
            redis.vprop got k = normalize (redis.vprop vote k)).
  { intros k H1 H2. unfold got, assembled, redis.vprop, prop. cbn [redis.fields normalize].
    rewrite written_values, assoc_last_spread; [|done|done].
    by apply assoc_last_written. }
  change (redis.thumbsUpUsers got) with (members (store w1) (redis.thumbsUpKey skipId)).
  change (redis.thumbsDownUsers got) with (members (store w1) (redis.thumbsDownKey skipId)).
  rewrite Mu, Md.
  split; [|split; [done|split; [done|]]].
  - intros k H1 H2. split; [by apply Hf|].
    intros Hs. by rewrite Hf, normalize_scalar.
  - unfold members. split; intros ->; by rewrite union_empty_l_L.
Qed.

(** ** What a handler can write *)

Lemma exec_frame c db k : k ∉ targets c -> (Redis.exec c db).2 !! k = db !! k.
Proof.
  destruct c; cbn [targets Redis.exec]; intros Hk.
  - by destruct (db !! k0) as [[[] ?]|].
  - cbn [snd]. rewrite lookup_insert_ne; [done|set_solver].
  - destruct (db !! k0) as [[[] ?]|]; cbn [snd]; try done;
      (rewrite lookup_insert_ne; [done|set_solver]).
  - destruct (db !! k0) as [[[] ?]|]; cbn [snd]; try done.
    destruct (decide (_ = ∅)).
    + rewrite lookup_delete_ne; [done|set_solver].
    + rewrite lookup_insert_ne; [done|set_solver].
  - by destruct (db !! k0) as [[[] ?]|].
  - destruct (db !! k0) as [[? ?]|]; cbn [snd]; try done.
    rewrite lookup_insert_ne; [done|set_solver].
  - cbn [snd]. induction ks as [|k' ks IH]; [done|]. simpl.
    rewrite lookup_delete_ne; [apply IH|]; set_solver.
  - done.
Qed.

Lemma confined_ret {A} t K (a : A) : confined t K (ret a).
Proof. by intros w Hw. Qed.

Lemma confined_throw {A} t K e : confined t K (@throw A e).
Proof. by intros w Hw. Qed.

Lemma confined_log t K l : confined t K (log l).
Proof. by intros w Hw. Qed.

Lemma confined_emit t K e : confined t K (emit e).
Proof. by intros w Hw. Qed.

Lemma confined_member t K o k : confined t K (member o k).
Proof. destruct o; simpl; first [apply confined_throw | apply confined_ret]. Qed.

Lemma confined_bind {A B} t K (m : M A) (k : A -> M B) :
  confined t K m -> (forall a, confined t K (k a)) -> confined t K (bind m k).
Proof.
  intros Hm Hk w Hw. destruct (Hm w Hw) as [Hn Hs]. unfold bind.
  destruct (m w) as [[a|e] w1]; [|done]. cbn [snd] in *.
  destruct (Hk a w1 Hn) as [Hn' Hs']. split; [done|].
  intros k0 Hk0. by rewrite Hs', Hs.
Qed.

Lemma confined_try_catch {A} t K (m : M A) h :
  confined t K m -> (forall e, confined t K (h e)) -> confined t K (try_catch m h).
Proof.
  intros Hm Hh w Hw. destruct (Hm w Hw) as [Hn Hs]. unfold try_catch.
  destruct (m w) as [[a|e] w1]; [done|]. cbn [snd] in *.
  destruct (Hh e w1 Hn) as [Hn' Hs']. split; [done|].
  intros k0 Hk0. by rewrite Hs', Hs.
Qed.

Lemma confined_date_now {B} t K (k : N -> M B) :
  confined t K (k t) -> confined t K (bind date_now k).
Proof. intros Hk w Hw. unfold bind, date_now. rewrite Hw. by apply Hk. Qed.

Lemma confined_reader {A} t K (m : M A) : reader m -> confined t K m.
Proof.
  intros Hr w Hw. destruct (Hr w) as ((S & _ & _ & N & _) & _).
  split; [congruence|]. intros k _. by rewrite S.
Qed.

Lemma confined_send t (K : string -> Prop) c :
  (forall k, k ∈ targets c -> K k) -> confined t K (send c).
Proof.
  intros Hc w Hw. unfold send. destruct (next_fault w) as [[] rest]; [done|].
  pose proof (exec_frame c (store w)) as Hx.
  destruct (Redis.exec c (store w)) as [r db]. cbn [snd] in *.
  split; [done|]. intros k Hk. apply Hx. intros Hin. by apply Hk, Hc.
Qed.

Lemma confined_post t K env channel text botToken :
  confined t K (slack.post env channel text botToken).
Proof.
  unfold slack.post. apply confined_bind.
  - unfold slack.no_valid_token. destruct (negb (truthy botToken)); [apply confined_ret|].
    destruct botToken; first [apply confined_throw | apply confined_ret].
  - intros [].
    + intros w Hw. unfold bind, date_now, emit, ret. by cbn.
    + apply confined_bind; [apply confined_emit|]. intros _.
      destruct (slack_api env channel text (to_str botToken)); [|apply confined_throw].
      apply confined_bind; [apply confined_member|]. intros ok.
      destruct (negb (truthy ok)); [apply confined_throw | apply confined_ret].
Qed.

Lemma confined_skipTrack t K env accessToken :
  confined t K (spotify.skipTrack env accessToken).
Proof.
  unfold spotify.skipTrack. destruct (spotify.is_mock accessToken).
  - apply confined_bind; [apply confined_emit|]. intros _. apply confined_ret.
  - apply confined_bind; [apply confined_emit|]. intros _.
    destruct (spotify_next env accessToken); [apply confined_ret|].
    apply confined_bind; [apply confined_log|]. intros _. apply confined_ret.
Qed.

Lemma confined_getCurrentlyPlayingTrack t K env accessToken :
  confined t K (spotify.getCurrentlyPlayingTrack env accessToken).
Proof.
  unfold spotify.getCurrentlyPlayingTrack. destruct (spotify.is_mock accessToken).
  - apply confined_bind; [apply confined_emit|]. intros _. apply confined_ret.
  - apply confined_bind; [apply confined_emit|]. intros _.
    destruct (spotify_now env accessToken); [apply confined_ret | apply confined_ret|].
    apply confined_bind; [apply confined_log|]. intros _. apply confined_throw.
Qed.

Lemma confined_write t (K : string -> Prop) c :
  (forall k, k ∈ targets c -> K k) ->
  confined t K (redis.ensureConnection;;; send c;;; ret tt).
Proof.
  intros Hc. apply confined_bind; [apply confined_reader, reader_ensureConnection|].
  intros _. apply confined_bind; [by apply confined_send|]. intros _. apply confined_ret.
Qed.

Lemma confined_add t (K : string -> Prop) key member :
  K key ->
  confined t K (redis.ensureConnection;;; send (Redis.SADD key [member]);;;
                send (Redis.EXPIRE key redis.SKIP_VOTE_TTL);;; ret tt).
Proof.
  intros Hk. apply confined_bind; [apply confined_reader, reader_ensureConnection|].
  intros _. apply confined_bind; [apply confined_send; cbn; set_solver|]. intros _.
  apply confined_bind; [apply confined_send; cbn; set_solver|]. intros _. apply confined_ret.
Qed.

Lemma confined_applyReaction t (K : string -> Prop) evType reaction skipId userId :
  K (redis.thumbsUpKey skipId) -> K (redis.thumbsDownKey skipId) ->
  confined t K (app.applyReaction evType reaction skipId userId).
Proof.
  intros Hu Hd. unfold app.applyReaction.
  apply confined_bind; [|intros _].
  - destruct (strict_eq evType (JStr "reaction_added")); [|apply confined_ret].
    apply confined_bind; [|intros _].
    + destruct (app.is_thumbs_up reaction); [by apply confined_add | apply confined_ret].
    + destruct (app.is_thumbs_down reaction); [by apply confined_add | apply confined_ret].
  - destruct (strict_eq evType (JStr "reaction_removed")); [|apply confined_ret].
    apply confined_bind; [|intros _].
    + destruct (app.is_thumbs_up reaction); [|apply confined_ret].
      apply confined_write. cbn. set_solver.
    + destruct (app.is_thumbs_down reaction); [|apply confined_ret].
      apply confined_write. cbn. set_solver.
Qed.

(** X19: A reaction event can change the thumbs sets and nothing else:
    whatever the payload and whatever Redis answers, /emoji-callback
    leaves every key outside the [skipVoteUsers:] namespace (vote
    metadata, channels, teams) as it was. *)
Theorem emoji_callback_writes_thumbs_sets_only payload w k :
  String.prefix redis.SKIP_VOTE_USERS_PREFIX k = false ->
  store (app.emoji_callback payload w).2 !! k = store w !! k.
Proof.
  intros Hk.
  assert (H : confined (now w)
                (fun k => String.prefix redis.SKIP_VOTE_USERS_PREFIX k = true)
                (app.emoji_callback payload)).
  { unfold app.emoji_callback. cbv zeta.
    destruct (strict_eq _ (JStr "url_verification")); [apply confined_ret|].
    destruct (strict_eq _ (JStr "event_callback")); [|apply confined_ret].
    apply confined_bind; [apply confined_member|]. intros evType.
    destruct (_ && _); [apply confined_ret|].
    destruct (_ || _); [apply confined_ret|].
    apply confined_bind; [apply confined_reader, reader_findSkipVoteByMessageTs|].
    intros [skipVote|]; [|apply confined_ret].
    destruct (truthy _); [apply confined_ret|].
    apply confined_bind;
      [apply confined_applyReaction; apply prefix_app; by eexists|]. intros _.
    apply confined_bind; [apply confined_reader, reader_getSkipVote|].
    intros [?|]; [apply confined_ret | apply confined_throw]. }
  apply (H w eq_refl). by rewrite Hk.
Qed.

Lemma confined_resolve t env body :
  confined t
    (fun k => k ∈ [redis.voteKey (prop body "channelId") (prop body "skipId");
                   redis.thumbsUpKey (prop body "skipId");
                   redis.thumbsDownKey (prop body "skipId")])
    (app.resolve env body).
Proof.
  unfold app.resolve. cbv zeta. apply confined_try_catch.
  - apply confined_bind; [apply confined_reader, reader_getBotToken|]. intros botToken.
    apply confined_bind; [apply confined_reader, reader_getChannel|]. intros ch.
    destruct (negb (truthy ch)); [apply confined_ret|].
    apply confined_bind; [apply confined_reader, reader_getSkipVote|].
    intros [skipVote|]; [|apply confined_ret].
    destruct (truthy _); [apply confined_ret|].
    apply confined_bind.
    { destruct (_ <=? _)%nat; [apply confined_ret|].
      apply confined_bind; [apply confined_member|]. intros accessToken.
      apply confined_bind; [apply confined_skipTrack|]. intros _. apply confined_ret. }
    intros resultMessage.
    apply confined_bind; [apply confined_post|]. intros _.
    apply confined_bind; [|intros _; apply confined_ret].
    apply confined_write. cbn. set_solver.
  - intros e. apply confined_bind; [apply confined_log|]. intros _. apply confined_ret.
Qed.

(** X15: A resolution can write the three keys of the vote its body names
    and nothing else: whatever the delivery and whatever Redis answers,
    /process-skip leaves every other key as it was. *)
Theorem process_skip_writes_its_vote_only env headers body w k :
  k <> redis.voteKey (prop body "channelId") (prop body "skipId") ->
  k <> redis.thumbsUpKey (prop body "skipId") ->
  k <> redis.thumbsDownKey (prop body "skipId") ->
  store (app.process_skip env headers body w).2 !! k = store w !! k.
Proof.
  intros H1 H2 H3.
  assert (H : confined (now w)
                (fun k => k ∈ [redis.voteKey (prop body "channelId") (prop body "skipId");
                               redis.thumbsUpKey (prop body "skipId");
                               redis.thumbsDownKey (prop body "skipId")])
                (app.process_skip env headers body)).
  { unfold app.process_skip. destruct (receiver env) as [verify|].
    - destruct (negb (truthy _)).
      + apply confined_bind; [apply confined_log|]. intros _. apply confined_ret.
      + destruct (verify _ _); [apply confined_resolve|].
        apply confined_bind; [apply confined_log|]. intros _. apply confined_ret.
    - apply confined_bind; [apply confined_log|]. intros _. apply confined_resolve. }
  apply (H w eq_refl). set_solver.
Qed.

Lemma confined_setSkipVote_empty t (K : string -> Prop) channelId skipId fs :
  K (redis.voteKey channelId skipId) ->
  confined t K (redis.setSkipVote channelId skipId (redis.mkVote fs ∅ ∅)).
Proof.
  intros Hk. unfold redis.setSkipVote. cbn [redis.thumbsUpUsers redis.thumbsDownUsers redis.fields].
  rewrite size_empty. cbn [Nat.ltb Nat.leb].
  apply confined_bind; [apply confined_reader, reader_ensureConnection|]. intros _.
  apply confined_bind; [apply confined_send; cbn; set_solver|]. intros _.
  apply confined_bind; [apply confined_ret|]. intros _. apply confined_ret.
Qed.

(** X12: A /skip command can write the metadata key of the vote it creates
    and nothing else: whatever the request and whatever Redis answers,
    every other key is as it was. *)
Theorem skip_writes_the_new_vote_only env body w k :
  k <> redis.voteKey (prop body "channel_id") (JStr (N_to_string (now w))) ->
  store (app.skip env body w).2 !! k = store w !! k.
Proof.
  intros Hk.
  assert (H : confined (now w)
                (fun k => k = redis.voteKey (prop body "channel_id") (JStr (N_to_string (now w))))
                (app.skip env body)).
  { unfold app.skip. cbv zeta.
    destruct (negb (truthy (prop body "channel_id"))); [apply confined_ret|].
    destruct (negb (truthy (prop body "team_id"))); [apply confined_ret|].
    apply confined_try_catch.
    - apply confined_bind; [apply confined_reader, reader_getBotToken|]. intros botToken.
      apply confined_bind; [apply confined_reader, reader_getChannel|]. intros ch.
      destruct (_ || _); [apply confined_ret|].
      destruct (negb (qstash env)); [apply confined_ret|].
      apply confined_bind; [apply confined_getCurrentlyPlayingTrack|]. intros currentTrack.
      destruct (_ || _); [apply confined_ret|].
      apply confined_date_now.
      apply confined_bind; [apply confined_post|]. intros message.
      apply confined_bind; [by apply confined_setSkipVote_empty|]. intros _.
      apply confined_bind; [|intros _; apply confined_ret].
      unfold app.publishJSON. apply confined_bind; [apply confined_emit|]. intros _.
      destruct (qstash_publish env); [apply confined_ret | apply confined_throw].
    - intros e. apply confined_bind; [apply confined_log|]. intros _. apply confined_ret. }
  by apply (H w eq_refl).
Qed.

(** ** What a handler answers *)

Lemma yields_ret {A} (P : A -> Prop) a : P a -> yields P (ret a).
Proof. intros HP w a' w' [= <- _]. done. Qed.

Lemma yields_bind {A B} (P : B -> Prop) (m : M A) (k : A -> M B) :
  (forall a, yields P (k a)) -> yields P (bind m k).
Proof.
  intros Hk w b w' H. unfold bind in H. destruct (m w) as [[a|e] w1]; [|done].
  by apply (Hk a w1 b w').
Qed.

Lemma try_catch_answers {A} (P : A -> Prop) (m : M A) h :
  yields P m ->
  (forall e w, exists a w', h e w = (Ret a, w') /\ P a) ->
  forall w, exists a w', try_catch m h w = (Ret a, w') /\ P a.
Proof.
  intros Hm Hh w. unfold try_catch. destruct (m w) as [[a|e] w1] eqn:E.
  - exists a, w1. split; [done|]. by apply (Hm w a w1).
  - apply Hh.
Qed.

Lemma resolve_answers env body w :
  exists r w', app.resolve env body w = (Ret r, w')
    /\ (r = app.SendStatus 200 \/ r = app.SendStatus 500).
Proof.
  unfold app.resolve. cbv zeta. apply try_catch_answers.
  - apply yields_bind. intros botToken. apply yields_bind. intros ch.
    destruct (negb (truthy ch)); [apply yields_ret; by left|].
    apply yields_bind. intros [skipVote|]; [|apply yields_ret; by left].
    destruct (truthy _); [apply yields_ret; by left|].
    apply yields_bind. intros resultMessage. apply yields_bind. intros _.
    apply yields_bind. intros _. apply yields_ret. by left.
  - intros e w0. eexists _, _. split; [reflexivity|]. by right.
Qed.

(** X16: /process-skip always answers, and with 200, 401 or 500: no error
    of Redis, Slack or Spotify escapes the handler. *)
Theorem process_skip_always_answers env headers body w :
  exists r w', app.process_skip env headers body w = (Ret r, w')
    /\ (r = app.SendStatus 200 \/ r = app.SendStatus 500
        \/ r = app.StatusSend 401 "Unauthorized: Missing signature"
        \/ r = app.StatusSend 401 "Unauthorized: Invalid signature").
Proof.
  unfold app.process_skip. destruct (receiver env) as [verify|].
  - destruct (negb (truthy _)).
    + eexists _, _. split; [reflexivity|]. auto.
    + destruct (verify _ _).
      * destruct (resolve_answers env body w) as (r & w' & E & [->| ->]);
          eexists _, _; (split; [exact E|]); auto.
      * eexists _, _. split; [reflexivity|]. auto.
  - unfold bind at 1. cbn [log].
    match goal with |- context [app.resolve env body ?w0] =>
      destruct (resolve_answers env body w0) as (r & w' & E & [->| ->]) end;
      eexists _, _; (split; [exact E|]); auto.
Qed.

(** X13: /skip always replies, whatever Redis, Slack, Spotify and QStash
    do: with 400 and Missing channel_id when the request has no
    channel_id, with 400 and Missing team_id when it has a channel_id
    and no team_id, both before anything is read, written or called,
    and with a JSON message in every other case. No error escapes the
    handler. *)
Theorem skip_always_replies env body w :
  exists r w', app.skip env body w = (Ret r, w')
    /\ (truthy (prop body "channel_id") = false ->
        r = app.StatusSend 400 "Missing channel_id" /\ w' = w)
    /\ (truthy (prop body "channel_id") = true ->
        truthy (prop body "team_id") = false ->
        r = app.StatusSend 400 "Missing team_id" /\ w' = w)
    /\ (truthy (prop body "channel_id") = true ->
        truthy (prop body "team_id") = true ->
        exists reply, r = app.Json reply).
Proof.
  unfold app.skip. cbv zeta.
  destruct (truthy (prop body "channel_id")) eqn:Hc; cbn [negb].
  2: { eexists _, _. split; [reflexivity|]. repeat split; done. }
  destruct (truthy (prop body "team_id")) eqn:Ht; cbn [negb].
  2: { eexists _, _. split; [reflexivity|]. repeat split; done. }
  match goal with
  | |- exists r w', try_catch ?m ?h w = _ /\ _ =>
      assert (H : exists r w',
                 try_catch m h w = (Ret r, w') /\ exists reply, r = app.Json reply)
  end.
  { apply try_catch_answers.
    - apply yields_bind. intros botToken. apply yields_bind. intros ch.
      destruct (_ || _); [apply yields_ret; eauto|].
      destruct (negb (qstash env)); [apply yields_ret; eauto|].
      apply yields_bind. intros currentTrack.
      destruct (_ || _); [apply yields_ret; eauto|].
      apply yields_bind. intros t. apply yields_bind. intros message.
      apply yields_bind. intros _. apply yields_bind. intros _. apply yields_ret. eauto.
    - intros e w0. eexists _, _. split; [reflexivity|]. eauto. }
  destruct H as (r & w' & E & Hr). exists r, w'. split; [exact E|].
  repeat split; done.
Qed.

(** ** Outbound calls *)

(** X20: postMessage and postSkipVoteMessage return acknowledged posts only:
    whenever one returns, exactly one post was made, the data it
    returns has a truthy [ok], and the store is as it was. *)
Theorem post_returns_acknowledged env channel text botToken w data w' :
  slack.post env channel text botToken w = (Ret data, w') ->
  truthy (prop data "ok") = true
  /\ store w' = store w
  /\ exists live, outbox w' = outbox w ++ [SlackPost live channel text].
Proof.
  unfold slack.post, slack.no_valid_token. intros H.
  destruct (negb (truthy botToken)) eqn:T.
  - cbn in H. injection H as <- <-. cbn. eauto.
  - destruct botToken; try done.
    unfold bind at 1 in H. cbn [ret] in H.
    destruct (negb (String.prefix "xoxb-" s)).
    + cbn in H. injection H as <- <-. cbn. eauto.
    + unfold bind at 1 in H. cbn [emit] in H.
      destruct (slack_api env channel text (to_str (JStr s))) as [d|]; [|done].
      destruct d; try done.
      all: unfold bind, member, ret in H; cbn [fst snd] in H.
      all: match type of H with
           | context [negb (truthy ?x)] => destruct (truthy x) eqn:Ok
           end; cbn [negb] in H; try done.
      all: injection H as <- <-; cbn [store outbox]; eauto.
Qed.

(** X21: skipTrack never throws: it makes one call to the player (or to
    the mock) and returns, leaving the store as it was. *)
Theorem skipTrack_never_throws env accessToken w :
  exists ok w',
    spotify.skipTrack env accessToken w = (Ret ok, w')
    /\ store w' = store w
    /\ exists live, outbox w' = outbox w ++ [SpotifyNext live accessToken].
Proof.
  unfold spotify.skipTrack. destruct (spotify.is_mock accessToken).
  - eexists _, _. split; [reflexivity|]. cbn. eauto.
  - destruct (spotify_next env accessToken) eqn:E.
    + eexists _, _. split; [reflexivity|]. cbn. eauto.
    + eexists _, _. split; [reflexivity|]. cbn. eauto.
Qed.

(** ** Records: channels and teams *)

Lemma write_record_calm key text w :
  calm w ->
  returns (redis.ensureConnection;;; send (Redis.SET key text None);;; ret tt) w
    (fun _ w' =>
       store w' = <[key := Redis.mkEntry (Redis.RString text) None]> (store w)
       /\ calm w' /\ outbox w' = outbox w /\ console w' = console w).
Proof.
  intros Hc. apply returns_bind, returns_ensureConnection; [done|].
  apply returns_bind, returns_send; [by apply calm_connected | done |].
  apply returns_ret. split; [done|]. split; [|done]. by apply calm_sent, calm_connected.
Qed.

Lemma fetch_stored key text t v w :
  calm w -> store w !! key = Some (Redis.mkEntry (Redis.RString text) t) ->
  text <> EmptyString -> JSON_parse text = Some v ->
  returns (redis.ensureConnection;;; value <- redis.get key;; redis.parse_or_null value) w
    (fun r w' => r = v /\ store w' = store w /\ calm w'
                 /\ outbox w' = outbox w /\ console w' = console w).
Proof.
  intros Hc Hk Ht Hp. apply returns_bind, returns_ensureConnection; [done|].
  apply returns_bind, returns_bind, returns_send; [by apply calm_connected | | ].
  - simpl. by rewrite Hk.
  - assert (Hx : (Redis.exec (Redis.GET key) (store (connected w))).1 = Redis.Bulk text)
      by (simpl; by rewrite Hk).
    rewrite Hx. apply returns_ret.
    unfold redis.parse_or_null, falsy_str, redis.parse. cbn [default from_option id].
    apply String.eqb_neq in Ht. rewrite Ht, Hp. apply returns_ret.
    split; [done|]. split; [by rewrite store_sent_read|].
    split; [by apply calm_sent, calm_connected | done].
Qed.

Lemma fetch_absent key w :
  calm w -> store w !! key = None ->
  returns (redis.ensureConnection;;; value <- redis.get key;; redis.parse_or_null value) w
    (fun r w' => r = JNull /\ store w' = store w /\ calm w'
                 /\ outbox w' = outbox w /\ console w' = console w).
Proof.
  intros Hc Hk. apply returns_bind, returns_ensureConnection; [done|].
  apply returns_bind, returns_bind, returns_send; [by apply calm_connected | | ].
  - simpl. by rewrite Hk.
  - assert (Hx : (Redis.exec (Redis.GET key) (store (connected w))).1 = Redis.Nil)
      by (simpl; by rewrite Hk).
    rewrite Hx. apply returns_ret, returns_ret.
    split; [done|]. split; [by rewrite store_sent_read|].
    split; [by apply calm_sent, calm_connected | done].
Qed.

Lemma stringify_not_empty v text : JSON_stringify v = Some text -> text <> EmptyString.
Proof.
  intros E. destruct (element_text_head v) as (c & t & H & _).
  unfold element_text, JSON_stringify in *. rewrite E in H. cbn in H. by rewrite H.
Qed.

Lemma stringify_defined v : v <> JUndefined -> exists text, JSON_stringify v = Some text.
Proof. destruct v as [| |[]| | | |]; intros H; try done; by eexists. Qed.

Lemma prop_normalize fs k :
  NoDup (map fst fs) -> prop (normalize (JObj fs)) k = normalize (prop (JObj fs) k).
Proof.
  intros Hnd. unfold prop. cbn [normalize]. rewrite written_values.
  by apply assoc_last_written.
Qed.

(** X2: A channel record is read back as it was stored: getChannel after
    setChannel returns the data as JSON carries it, and the record is
    written without a time to live. *)
Theorem getChannel_after_setChannel channelId data w :
  calm w ->
  data <> JUndefined ->
  exists w1 w2,
    redis.setChannel channelId data w = (Ret tt, w1)
    /\ redis.getChannel channelId w1 = (Ret (normalize data), w2)
    /\ ttl_of (store w1) (redis.CHANNEL_PREFIX +:+ to_str channelId) = None
    /\ store w2 = store w1.
Proof.
  intros Hc Hd.
  destruct (write_record_calm (redis.CHANNEL_PREFIX +:+ to_str channelId)
              (default EmptyString (JSON_stringify data)) w Hc)
    as ([] & w1 & E1 & S1 & C1 & _).
  destruct (stringify_defined data Hd) as (text & Es).
  assert (Hk : store w1 !! (redis.CHANNEL_PREFIX +:+ to_str channelId)
               = Some (Redis.mkEntry (Redis.RString text) None)).
  { rewrite S1, Es. apply lookup_insert_eq. }
  destruct (fetch_stored _ _ _ _ w1 C1 Hk (stringify_not_empty _ _ Es)
              (JSON_parse_stringify _ _ Es)) as (r & w2 & E2 & -> & S2 & _).
  exists w1, w2. split; [done|]. split; [done|]. split; [|done].
  unfold ttl_of. by rewrite Hk.
Qed.

(** X5: Installing the app makes the bot token available: getBotToken
    after storeTeamToken returns the [botToken] of the data stored, as
    JSON carries it (a string as it is). *)
Theorem getBotToken_after_storeTeamToken teamId fs w :
  calm w -> NoDup (map fst fs) ->
  exists w1 w2,
    redis.storeTeamToken teamId (JObj fs) w = (Ret tt, w1)
    /\ app.getBotToken teamId w1 = (Ret (normalize (prop (JObj fs) "botToken")), w2)
    /\ (is_scalar (prop (JObj fs) "botToken") = true ->
        app.getBotToken teamId w1 = (Ret (prop (JObj fs) "botToken"), w2)).
Proof.
  intros Hc Hnd.
  destruct (write_record_calm (redis.TEAM_PREFIX +:+ to_str teamId)
              (default EmptyString (JSON_stringify (JObj fs))) w Hc)
    as ([] & w1 & E1 & S1 & C1 & _).
  destruct (stringify_defined (JObj fs) ltac:(done)) as (text & Es).
  assert (Hk : store w1 !! (redis.TEAM_PREFIX +:+ to_str teamId)
               = Some (Redis.mkEntry (Redis.RString text) None)).
  { rewrite S1, Es. apply lookup_insert_eq. }
  destruct (fetch_stored _ _ _ _ w1 C1 Hk (stringify_not_empty _ _ Es)
              (JSON_parse_stringify _ _ Es)) as (r & w2 & E2 & -> & S2 & _).
  assert (E : app.getBotToken teamId w1 = (Ret (normalize (prop (JObj fs) "botToken")), w2)).
  { unfold app.getBotToken.
    change (redis.getTeamToken teamId)
      with (redis.ensureConnection;;; value <- redis.get (redis.TEAM_PREFIX +:+ to_str teamId);;
            redis.parse_or_null value).
    rewrite (bind_ret _ _ _ _ _ E2). cbn [truthy normalize negb].
    unfold ret. by rewrite <- prop_normalize. }
  exists w1, w2. split; [done|]. split; [done|].
  intros Hs. by rewrite E, normalize_scalar.
Qed.

(** X11: /skip in a workspace where the app is not installed replies that
    it is not, and does nothing else: no call to Slack, Spotify or
    QStash, no key written. *)
Theorem skip_where_not_installed env body w :
  truthy (prop body "channel_id") = true ->
  truthy (prop body "team_id") = true ->
  calm w ->
  store w !! (redis.TEAM_PREFIX +:+ to_str (prop body "team_id")) = None ->
  exists w',
    app.skip env body w = (Ret (app.Json (app.FailedToSkip (message NotInstalled))), w')
    /\ store w' = store w
    /\ outbox w' = outbox w
    /\ console w' = console w ++ [LogSkipFailed NotInstalled].
Proof.
  intros Hch Ht Hc Hk. unfold app.skip. cbv zeta. rewrite Hch, Ht. cbn [negb].
  destruct (fetch_absent _ w Hc Hk) as (r & w1 & E & -> & S & _ & O & L).
  assert (E' : app.getBotToken (prop body "team_id") w = (Throw NotInstalled, w1)).
  { unfold app.getBotToken.
    change (redis.getTeamToken (prop body "team_id"))
      with (redis.ensureConnection;;;
            value <- redis.get (redis.TEAM_PREFIX +:+ to_str (prop body "team_id"));;
            redis.parse_or_null value).
    by rewrite (bind_ret _ _ _ _ _ E). }
  rewrite (try_bind_throw _ _ _ _ _ _ E').
  eexists. split; [reflexivity|]. cbn [store outbox console log bind ret snd fst].
  rewrite S, O, L. done.
Qed.

(** ** Merging an update into a channel *)

Lemma assoc_last_app k xs ys :
  assoc_last k (xs ++ ys)
  = match assoc_last k ys with
    | Some v => Some v
    | None => assoc_last k xs
    end.
Proof.
  induction xs as [|[k' v] xs IH]; simpl.
  - by destruct (assoc_last k ys).
  - rewrite IH. by destruct (assoc_last k ys), (assoc_last k xs).
Qed.

Lemma assoc_last_update k k' v fs :
  assoc_last k (map (fun kv : string * js => if String.eqb k' kv.1 then (k', v) else kv) fs)
  = if String.eqb k k'
    then (if existsb (fun kv : string * js => String.eqb k' kv.1) fs then Some v else None)
    else assoc_last k fs.
Proof.
  induction fs as [|[k0 v0] fs IH]; simpl.
  - by destruct (String.eqb k k').
  - rewrite IH. cbn [fst]. destruct (String.eqb k k') eqn:E.
    + apply String.eqb_eq in E as ->.
      destruct (existsb _ fs); [by destruct (String.eqb k' k0)|].
      destruct (String.eqb k' k0) eqn:E0; simpl; [|by rewrite E0].
      by rewrite String.eqb_refl.
    + destruct (assoc_last k fs); [by destruct (String.eqb k' k0)|].
      destruct (String.eqb k' k0) eqn:E0; simpl; [|done].
      apply String.eqb_eq in E0 as ->. by rewrite E.
Qed.

Lemma assoc_last_set_prop k k' v fs :
  assoc_last k (set_prop k' v fs) = if String.eqb k k' then Some v else assoc_last k fs.
Proof.
  unfold set_prop. destruct (existsb _ fs) eqn:E.
  - rewrite assoc_last_update, E. done.
  - rewrite assoc_last_app. simpl. destruct (String.eqb k k') eqn:E'; [done|done].
Qed.

Lemma assoc_last_assign k xs acc :
  assoc_last k (fold_left (fun acc kv => set_prop kv.1 kv.2 acc) xs acc)
  = match assoc_last k xs with
    | Some v => Some v
    | None => assoc_last k acc
    end.
Proof.
  revert acc. induction xs as [|[k' v] xs IH]; intros acc; simpl; [done|].
  rewrite IH. cbn [fst snd]. rewrite assoc_last_set_prop.
  destruct (assoc_last k xs); [done|]. by destruct (String.eqb k k').
Qed.

(** An own property of [{ ...a, ...b }] is that of [b] if [b] has it,
    and that of [a] otherwise. *)
Lemma spread2_own a b :
  exists fs,
    spread2 a b = JObj fs
    /\ forall k,
         assoc_last k fs
         = match assoc_last k (own b) with
           | Some v => Some v
           | None => assoc_last k (own a)
           end.
Proof.
  eexists. split; [reflexivity|]. intros k. rewrite assoc_last_assign, assoc_last_app.
  by destruct (assoc_last k (own b)), (assoc_last k (own a)).
Qed.

(** X3: updateChannel merges and stores: the record it returns has as
    own properties those of the update and, for the other names, those
    of the stored channel (of a new channel with an empty queue when
    none is stored); getChannel then reads that record, and no other
    key is written. *)
Theorem updateChannel_merges_and_stores channelId updates stored w :
  calm w ->
  observe (redis.getChannel channelId) (store w) = Ret stored ->
  let channel := js_or stored (JObj [("slackChannelId", channelId); ("queue", JArr [])]) in
  exists fs w1 w2,
    redis.updateChannel channelId updates w = (Ret (JObj fs), w1)
    /\ (forall k,
          assoc_last k fs
          = match assoc_last k (own updates) with
            | Some v => Some v
            | None => assoc_last k (own channel)
            end)
    /\ redis.getChannel channelId w1 = (Ret (normalize (JObj fs)), w2)
    /\ (forall k, k <> redis.CHANNEL_PREFIX +:+ to_str channelId ->
                  store w1 !! k = store w !! k).
Proof.
  intros Hc Ho channel.
  destruct (reader_getChannel channelId w) as (R & _ & D). specialize (D Hc).
  destruct (redis.getChannel channelId w) as [o w0] eqn:E0. cbn [fst snd] in *.
  rewrite Ho in D. subst o.
  destruct R as (S0 & _ & _ & _ & _ & n & F0).
  assert (C0 : calm w0) by by eapply calm_drop.
  destruct (spread2_own channel updates) as (fs & Eu & Hfs).
  destruct (write_record_calm (redis.CHANNEL_PREFIX +:+ to_str channelId)
              (default EmptyString (JSON_stringify (JObj fs))) w0 C0)
    as ([] & w1 & E1 & S1 & C1 & _).
  destruct (stringify_defined (JObj fs) ltac:(done)) as (text & Es).
  assert (Hk : store w1 !! (redis.CHANNEL_PREFIX +:+ to_str channelId)
               = Some (Redis.mkEntry (Redis.RString text) None)).
  { rewrite S1, Es. apply lookup_insert_eq. }
  destruct (fetch_stored _ _ _ _ w1 C1 Hk (stringify_not_empty _ _ Es)
              (JSON_parse_stringify _ _ Es)) as (r & w2 & E2 & -> & S2 & _).
  exists fs, w1, w2. split; [|split; [|split]].
  - unfold redis.updateChannel. rewrite (bind_ret _ _ _ _ _ E0).
    fold channel. rewrite Eu.
    change (redis.setChannel channelId (JObj fs))
      with (redis.ensureConnection;;;
            send (Redis.SET (redis.CHANNEL_PREFIX +:+ to_str channelId)
                    (default EmptyString (JSON_stringify (JObj fs))) None);;; ret tt).
    by rewrite (bind_ret _ _ _ _ _ E1).
  - exact Hfs.
  - exact E2.
  - intros k Hne. rewrite S1, lookup_insert_ne, S0; done.
Qed.

(** ** Deleting a vote *)

(** X6: deleteSkipVote removes the vote for good and touches nothing
    else: getSkipVote then finds no vote, and every key other than the
    three of the vote is as it was. *)
Theorem getSkipVote_after_deleteSkipVote channelId skipId w :
  calm w ->
  exists w1 w2,
    redis.deleteSkipVote channelId skipId w = (Ret tt, w1)
    /\ redis.getSkipVote channelId skipId w1 = (Ret None, w2)
    /\ (forall k, k <> redis.voteKey channelId skipId ->
                  k <> redis.thumbsUpKey skipId -> k <> redis.thumbsDownKey skipId ->
                  store w1 !! k = store w !! k).
Proof.
  intros Hc.
  set (DELc := Redis.DEL [redis.voteKey channelId skipId; redis.thumbsUpKey skipId;
                          redis.thumbsDownKey skipId]).
  assert (E1 : redis.deleteSkipVote channelId skipId w
               = (Ret tt, sent DELc (connected w))).
  { unfold redis.deleteSkipVote. rewrite (bind_ret _ _ _ _ _ (ensureConnection_calm w Hc)).
    fold DELc. unfold bind. rewrite send_calm; [done | by apply calm_connected | done]. }
  set (w1 := sent DELc (connected w)) in *.
  assert (C1 : calm w1) by by apply calm_sent, calm_connected.
  assert (Hk : store w1 !! redis.voteKey channelId skipId = None).
  { apply (deleteSkipVote_ret _ _ _ _ E1). }
  destruct (reader_getSkipVote channelId skipId w1) as (_ & _ & D). specialize (D C1).
  rewrite (observe_getSkipVote_absent _ _ _ Hk) in D.
  exists w1, (redis.getSkipVote channelId skipId w1).2. split; [done|]. split.
  - destruct (redis.getSkipVote channelId skipId w1). cbn in *. by subst.
  - intros k H1 H2 H3. unfold w1, sent. cbn [store].
    apply (exec_frame DELc). cbn. set_solver.
Qed.

(** ** Expiry *)

Lemma age_lookup dt db k :
  Redis.age dt db !! k
  = db !! k ≫= (fun e => match Redis.ttl e with
                         | Some t => if (t <=? dt)%nat then None
                                     else Some (Redis.mkEntry (Redis.val e) (Some (t - dt)))
                         | None => Some e
                         end).
Proof. unfold Redis.age. apply lookup_omap. Qed.

Lemma setSkipVote_fresh channelId skipId vote w :
  calm w ->
  store w !! redis.thumbsUpKey skipId = None ->
  store w !! redis.thumbsDownKey skipId = None ->
  returns (redis.setSkipVote channelId skipId vote) w
    (fun _ w' =>
       calm w' /\ outbox w' = outbox w /\ console w' = console w
       /\ store w' !! redis.voteKey channelId skipId
          = Some (Redis.mkEntry
                    (Redis.RString (default EmptyString (JSON_stringify (JObj (redis.fields vote)))))
                    (Some 900))
       /\ store w' !! redis.thumbsUpKey skipId
          = (if decide (redis.thumbsUpUsers vote = ∅) then None
             else Some (Redis.mkEntry (Redis.RSet (redis.thumbsUpUsers vote)) (Some 900)))
       /\ store w' !! redis.thumbsDownKey skipId
          = (if decide (redis.thumbsDownUsers vote = ∅) then None
             else Some (Redis.mkEntry (Redis.RSet (redis.thumbsDownUsers vote)) (Some 900)))
       /\ (forall k, k <> redis.voteKey channelId skipId ->
                     k <> redis.thumbsUpKey skipId -> k <> redis.thumbsDownKey skipId ->
                     store w' !! k = store w !! k)).
Proof.
  intros Hc Hu Hd.
  pose proof (voteKey_not_thumbsUpKey channelId skipId skipId) as N1.
  pose proof (voteKey_not_thumbsDownKey channelId skipId skipId) as N2.
  pose proof (thumbsUpKey_not_thumbsDownKey skipId) as N3.
  apply returns_bind, returns_ensureConnection; [done|].
  set (text := default EmptyString (JSON_stringify (JObj (redis.fields vote)))).
  set (SETc := Redis.SET (redis.voteKey channelId skipId) text (Some redis.SKIP_VOTE_TTL)).
  apply returns_bind, returns_send; [by apply calm_connected | done |].
  set (w1 := sent SETc (connected w)).
  assert (S1 : store w1 = <[redis.voteKey channelId skipId
                             := Redis.mkEntry (Redis.RString text) (Some 900)]> (store w)) by done.
  assert (C1 : calm w1) by by apply calm_sent, calm_connected.
  assert (U1 : store w1 !! redis.thumbsUpKey skipId = None).
  { rewrite S1, lookup_insert_ne; done. }
  assert (D1 : store w1 !! redis.thumbsDownKey skipId = None).
  { rewrite S1, lookup_insert_ne; done. }
  apply returns_bind.
  eapply returns_weaken;
    [apply (store_users_calm _ (redis.thumbsUpUsers vote) w1 C1);
     unfold set_or_absent; by rewrite U1|].
  intros [] w2 (C2 & O2 & L2 & S2). simpl.
  assert (Mu : members (store w1) (redis.thumbsUpKey skipId) = ∅).
  { unfold members. by rewrite U1. }
  rewrite Mu, union_empty_l_L in S2.
  assert (D2 : store w2 !! redis.thumbsDownKey skipId = None).
  { rewrite S2. destruct (decide (redis.thumbsUpUsers vote = ∅)); [done|].
    rewrite lookup_insert_ne; done. }
  eapply returns_weaken;
    [apply (store_users_calm _ (redis.thumbsDownUsers vote) w2 C2);
     unfold set_or_absent; by rewrite D2|].
  intros [] w3 (C3 & O3 & L3 & S3).
  assert (Md : members (store w2) (redis.thumbsDownKey skipId) = ∅).
  { unfold members. by rewrite D2. }
  rewrite Md, union_empty_l_L in S3.
  split; [done|]. split; [by rewrite O3, O2|]. split; [by rewrite L3, L2|].
  rewrite S3, S2.
  destruct (decide (redis.thumbsUpUsers vote = ∅)) as [Eu|Eu],
           (decide (redis.thumbsDownUsers vote = ∅)) as [Ed|Ed];
    rewrite ?S1;
    repeat split;
    repeat first [rewrite lookup_insert_eq | rewrite lookup_insert_ne by done]; try done;
    intros k K1 K2 K3;
    repeat first [rewrite lookup_insert_eq | rewrite lookup_insert_ne by done]; done.
Qed.

(** X7: A vote lives 900 seconds: stored by setSkipVote under a skip id
    with no sets yet and left alone, it is read by getSkipVote
    unchanged for the next 899 seconds, and is gone from then on. *)
Theorem vote_expires_after_900_seconds channelId skipId vote dt w :
  calm w ->
  store w !! redis.thumbsUpKey skipId = None ->
  store w !! redis.thumbsDownKey skipId = None ->
  let w1 := (redis.setSkipVote channelId skipId vote w).2 in
  (dt < 900 ->
   exists got,
     (redis.getSkipVote channelId skipId w1).1 = Ret (Some got)
     /\ (redis.getSkipVote channelId skipId (elapse dt w1)).1 = Ret (Some got)
     /\ redis.thumbsUpUsers got = redis.thumbsUpUsers vote
     /\ redis.thumbsDownUsers got = redis.thumbsDownUsers vote)
  /\ (900 <= dt -> (redis.getSkipVote channelId skipId (elapse dt w1)).1 = Ret None).
Proof.
  intros Hc Hu Hd w1.
  destruct (setSkipVote_fresh channelId skipId vote w Hc Hu Hd)
    as ([] & w1' & E1 & C1 & _ & _ & Hk & Ku & Kd & _).
  assert (w1 = w1') as -> by (unfold w1; by rewrite E1).
  assert (Ce : calm (elapse dt w1')) by done.
  split.
  - intros Hdt.
    destruct (JSON_stringify (JObj (redis.fields vote))) as [text|] eqn:Es; [|done].
    cbn [default from_option id] in Hk.
    pose proof (JSON_parse_stringify _ _ Es) as Hp.
    pose proof (stringify_not_empty _ _ Es) as Hne.
    assert (Su : forall db key (s : gset string),
               db !! key = (if decide (s = ∅) then None
                            else Some (Redis.mkEntry (Redis.RSet s) (Some 900))) ->
               set_or_absent db key /\ members db key = s
               /\ set_or_absent (Redis.age dt db) key /\ members (Redis.age dt db) key = s).
    { intros db key s Hs. unfold set_or_absent, members. rewrite age_lookup, Hs.
      destruct (decide (s = ∅)) as [->|]; [done|].
      cbn [mbind option_bind Redis.ttl Redis.val].
      destruct (900 <=? dt)%nat eqn:E; [apply Nat.leb_le in E; lia|]. done. }
    destruct (Su _ _ _ Ku) as (Su1 & Mu1 & Su2 & Mu2).
    destruct (Su _ _ _ Kd) as (Sd1 & Md1 & Sd2 & Md2).
    destruct (getSkipVote_calm channelId skipId text (Some 900) _ w1' C1 Hk Hne Hp Su1 Sd1)
      as (o & w2 & E2 & -> & _).
    assert (Hk' : store (elapse dt w1') !! redis.voteKey channelId skipId
                  = Some (Redis.mkEntry (Redis.RString text) (Some (900 - dt)))).
    { cbn [elapse store]. rewrite age_lookup, Hk. cbn [mbind option_bind Redis.ttl Redis.val].
      destruct (900 <=? dt)%nat eqn:E; [apply Nat.leb_le in E; lia|]. done. }
    destruct (getSkipVote_calm channelId skipId text _ _ (elapse dt w1') Ce Hk' Hne Hp Su2 Sd2)
      as (o & w3 & E3 & -> & _).
    eexists. rewrite E2, E3. cbn [fst]. split; [reflexivity|].
    unfold assembled. cbn [elapse store redis.thumbsUpUsers redis.thumbsDownUsers].
    rewrite Mu1, Mu2, Md1, Md2. done.
  - intros Hdt.
    destruct (reader_getSkipVote channelId skipId (elapse dt w1')) as (_ & _ & D).
    rewrite (D Ce). apply observe_getSkipVote_absent.
    cbn [elapse store]. rewrite age_lookup, Hk. cbn [mbind option_bind Redis.ttl Redis.val].
    destruct (900 <=? dt)%nat eqn:E; [done|]. apply Nat.leb_gt in E. lia.
Qed.

(** ** Voting both ways *)

(** X8: A thumbs down does not take back a thumbs up: a user who gives
    one and then the other is a member of both sets. *)
Theorem thumbs_up_and_down_coexist skipId userId w :
  ready skipId w ->
  exists w1 w2,
    redis.addThumbsUp skipId userId w = (Ret tt, w1)
    /\ redis.addThumbsDown skipId userId w1 = (Ret tt, w2)
    /\ to_str userId ∈ members (store w2) (redis.thumbsUpKey skipId)
    /\ to_str userId ∈ members (store w2) (redis.thumbsDownKey skipId).
Proof.
  intros Hr.
  destruct (addThumbsUp_sets skipId userId w Hr) as ([] & w1 & E1 & B1).
  destruct (addThumbsDown_sets skipId userId w1 (sets_become_ready _ _ _ _ _ B1))
    as ([] & w2 & E2 & B2).
  exists w1, w2. split; [done|]. split; [done|].
  destruct B1 as (_ & _ & _ & Mu1 & _), B2 as (_ & _ & _ & Mu2 & Md2).
  rewrite Mu2, Md2, Mu1. cbn. set_solver.
Qed.

(** ** Starting a vote *)

Lemma reader_calm_run {A} (m : M A) w a :
  reader m -> calm w -> observe m (store w) = Ret a ->
  exists w', m w = (Ret a, w') /\ reads w w' /\ calm w'.
Proof.
  intros Hm Hc Ho. destruct (Hm w) as (R & _ & D). specialize (D Hc).
  destruct (m w) as [o w'] eqn:E. cbn [fst snd] in *. rewrite Ho in D. subst o.
  exists w'. split; [done|]. split; [done|]. by eapply reads_calm.
Qed.

Lemma plays_returns env accessToken track w :
  plays env accessToken track ->
  spotify.getCurrentlyPlayingTrack env accessToken w
  = (Ret track,
     mkWorld (store w) (faults w) (cmds w)
       (outbox w ++ [SpotifyCurrentlyPlaying (negb (spotify.is_mock accessToken)) accessToken])
       (console w) (now w)).
Proof.
  unfold spotify.getCurrentlyPlayingTrack.
  intros [(-> & ->)|(-> & name & artists & E & ->)]; [done|].
  unfold bind, emit. cbn [fst snd]. by rewrite E.
Qed.

Lemma posted_returns env channel text tok data w :
  posted env channel text tok (now w) data ->
  slack.post env channel text (JStr tok) w
  = (Ret data,
     mkWorld (store w) (faults w) (cmds w)
       (outbox w ++ [SlackPost (live_token tok) channel text]) (console w) (now w)).
Proof.
  unfold slack.post, slack.no_valid_token. cbn [truthy to_str].
  intros H.
  assert (Hm : (if negb (negb (String.eqb tok EmptyString)) then ret true
                else ret (negb (String.prefix "xoxb-" tok)))
               = ret (negb (live_token tok))).
  { unfold live_token. by destruct (String.eqb tok EmptyString). }
  rewrite Hm. unfold bind at 1. cbn [ret].
  destruct H as [(Hl & ->)|(Hl & E & Hok)]; rewrite Hl; cbn [negb]; [done|].
  unfold bind at 1. cbn [emit]. rewrite E.
  destruct data; try done. unfold bind, member, ret. cbn [fst snd]. by rewrite Hok.
Qed.

Lemma skip_runs env body w tok ch track data :
  let channel_id := prop body "channel_id" in
  let team_id := prop body "team_id" in
  let accessToken := prop (prop ch "spotify") "accessToken" in
  let skipId := JStr (N_to_string (now w)) in
  let requestedBy := js_or (prop body "user_name") (prop body "user_id") in
  let text := SkipRequested requestedBy (prop track "trackName") (prop track "artistName") in
  truthy channel_id = true ->
  truthy team_id = true ->
  calm w ->
  observe (app.getBotToken team_id) (store w) = Ret (JStr tok) ->
  observe (redis.getChannel channel_id) (store w) = Ret ch ->
  truthy ch = true ->
  truthy (prop ch "spotify") = true ->
  qstash env = true ->
  plays env accessToken track ->
  truthy (prop track "trackName") = true ->
  posted env (prop ch "slackChannelId") text tok (now w) data ->
  exists w',
    app.skip env body w
    = (Ret (app.Json (if qstash_publish env then app.SkipVoteStarted (prop track "trackName")
                      else app.FailedToSkip (message HttpError))), w')
    /\ calm w'
    /\ store w'
       = <[redis.voteKey channel_id skipId
           := Redis.mkEntry
                (Redis.RString
                   (default EmptyString
                      (JSON_stringify (JObj (new_vote skipId track requestedBy data)))))
                (Some 900)]> (store w)
    /\ outbox w'
       = outbox w ++
         [SpotifyCurrentlyPlaying (negb (spotify.is_mock accessToken)) accessToken;
          SlackPost (live_token tok) (prop ch "slackChannelId") text;
          QStashPublish channel_id skipId team_id 10]
    /\ console w'
       = console w ++ (if qstash_publish env then [] else [LogSkipFailed HttpError]).
Proof.
  intros channel_id team_id accessToken skipId requestedBy text
    Hc Ht Hcalm Htok Hch Hcht Hsp Hq Hpl Htn Hpost.
  destruct (reader_calm_run _ w _ (reader_getBotToken team_id) Hcalm Htok)
    as (w1 & E1 & R1 & C1).
  assert (S1 : store w1 = store w) by apply R1.
  rewrite <- S1 in Hch.
  destruct (reader_calm_run _ w1 _ (reader_getChannel channel_id) C1 Hch)
    as (w2 & E2 & R2 & C2).
  destruct (reads_trans _ _ _ R1 R2) as (S2 & O2 & L2 & N2 & _).
  pose proof (plays_returns env accessToken track w2 Hpl) as E3.
  set (w3 := mkWorld (store w2) (faults w2) (cmds w2)
               (outbox w2 ++ [SpotifyCurrentlyPlaying (negb (spotify.is_mock accessToken))
                                accessToken]) (console w2) (now w2)) in E3.
  assert (Hpost' : posted env (prop ch "slackChannelId") text tok (now w3) data)
    by (cbn [w3 now]; by rewrite N2).
  pose proof (posted_returns env _ text tok data w3 Hpost') as E4.
  set (w4 := mkWorld (store w3) (faults w3) (cmds w3)
               (outbox w3 ++ [SlackPost (live_token tok) (prop ch "slackChannelId") text])
               (console w3) (now w3)) in E4.
  assert (C4 : calm w4) by exact C2.
  set (vote := redis.mkVote (new_vote skipId track requestedBy data) ∅ ∅).
  destruct (confined_setSkipVote_empty (now w4) (fun k => k = redis.voteKey channel_id skipId)
              channel_id skipId (new_vote skipId track requestedBy data) eq_refl w4 eq_refl)
    as (N5 & F5).
  assert (R5 : returns (redis.setSkipVote channel_id skipId vote) w4
                 (fun _ w' =>
                    calm w' /\ outbox w' = outbox w4 /\ console w' = console w4
                    /\ store w' !! redis.voteKey channel_id skipId
                       = Some (Redis.mkEntry
                                 (Redis.RString
                                    (default EmptyString
                                       (JSON_stringify (JObj (redis.fields vote)))))
                                 (Some 900)))).
  { unfold redis.setSkipVote. cbn [vote redis.thumbsUpUsers redis.thumbsDownUsers redis.fields].
    rewrite size_empty. cbn [Nat.ltb Nat.leb].
    apply returns_bind, returns_ensureConnection; [done|].
    apply returns_bind, returns_send; [by apply calm_connected | done |].
    apply returns_bind, returns_ret, returns_ret.
    split; [by apply calm_sent, calm_connected|]. split; [done|]. split; [done|].
    cbn [sent store Redis.exec snd]. apply lookup_insert_eq. }
  destruct R5 as ([] & w5 & E5 & C5 & O5 & L5 & K5).
  pose proof E5 as E5'. unfold vote in E5'. rewrite E5' in N5, F5. cbn [snd] in N5, F5.
  assert (S5 : store w5
               = <[redis.voteKey channel_id skipId
                   := Redis.mkEntry
                        (Redis.RString
                           (default EmptyString
                              (JSON_stringify (JObj (new_vote skipId track requestedBy data)))))
                        (Some 900)]> (store w)).
  { apply map_eq. intros k. destruct (decide (k = redis.voteKey channel_id skipId)) as [->|Hne].
    - by rewrite lookup_insert_eq, K5.
    - rewrite lookup_insert_ne by done. rewrite (F5 k Hne). cbn [w4 w3 store]. by rewrite S2. }
  assert (Hrun : forall h,
             try_catch
               (botToken <- app.getBotToken team_id;;
                ch0 <- redis.getChannel channel_id;;
                if negb (truthy ch0) || negb (truthy (prop ch0 "spotify"))
                then ret (app.Json app.NotConnected)
                else if negb (qstash env) then ret (app.Json app.QStashNotConfigured)
                else
                  currentTrack <-
                    spotify.getCurrentlyPlayingTrack env (prop (prop ch0 "spotify") "accessToken");;
                  if negb (truthy currentTrack) || negb (truthy (prop currentTrack "trackName"))
                  then ret (app.Json app.NoSongPlaying)
                  else
                    t <- date_now;;
                    message0 <-
                      slack.postSkipVoteMessage env (prop ch0 "slackChannelId")
                        (prop currentTrack "trackName") (prop currentTrack "artistName")
                        (js_or (prop body "user_name") (prop body "user_id")) botToken;;
                    redis.setSkipVote channel_id (JStr (N_to_string t))
                      (redis.mkVote
                         [("id", JStr (N_to_string t));
                          ("trackName", prop currentTrack "trackName");
                          ("artistName", prop currentTrack "artistName");
                          ("requestedBy", js_or (prop body "user_name") (prop body "user_id"));
                          ("messageTs", prop message0 "ts"); ("resolved", JBool false)] ∅ ∅);;;
                    app.publishJSON env channel_id (JStr (N_to_string t)) team_id 10;;;
                    ret (app.Json (app.SkipVoteStarted (prop currentTrack "trackName")))) h w
             = try_catch
                 (app.publishJSON env channel_id skipId team_id 10;;;
                  ret (app.Json (app.SkipVoteStarted (prop track "trackName")))) h w5).
  { intros h.
    rewrite (try_bind_ret _ _ _ _ _ _ E1), (try_bind_ret _ _ _ _ _ _ E2), Hcht, Hsp, Hq.
    cbn [negb orb]. fold accessToken.
    rewrite (try_bind_ret _ _ _ _ _ _ E3).
    assert (Htr : truthy track = true) by (destruct track; try done; by destruct Hpl as [(_ & ?)|(_ & ? & ? & _ & ?)]).
    rewrite Htr, Htn. cbn [negb orb].
    assert (Ed : date_now w3 = (Ret (now w), w3)) by (unfold date_now; cbn [w3 now]; by rewrite N2).
    rewrite (try_bind_ret _ _ _ _ _ _ Ed).
    unfold slack.postSkipVoteMessage. fold requestedBy. fold text.
    rewrite (try_bind_ret _ _ _ _ _ _ E4).
    fold skipId. 
    change (redis.mkVote _ ∅ ∅) with vote.
    by rewrite (try_bind_ret _ _ _ _ _ _ E5). }
  unfold app.skip. fold channel_id team_id. rewrite Hc, Ht. cbn [negb].
  rewrite Hrun. unfold app.publishJSON, try_catch, bind, emit, ret, throw, log.
  cbn [fst snd store outbox console faults].
  destruct (qstash_publish env); cbn [fst snd store outbox console faults]; eexists;
    (split; [reflexivity|]); cbn [store outbox console faults calm];
    (split; [exact C5|]); (split; [exact S5|]);
    rewrite O5, L5; cbn [w4 w3 outbox console]; rewrite O2, L2, <- !app_assoc; by rewrite ?app_nil_r.
Qed.

(** X9: /skip starts a vote: with the app installed, the channel
    connected, QStash configured, a track playing and Slack accepting
    the announcement, and with Redis answering, the handler replies
    that the vote started; it has stored the vote record under the
    skip id taken from the clock, with a time to live of 900 seconds
    and nothing else written, and has made three outbound calls: the
    lookup of the track, the announcement, and one QStash job for the
    record, delayed by 10 seconds. *)
Theorem skip_starts_a_vote env body w tok ch track data :
  let channel_id := prop body "channel_id" in
  let team_id := prop body "team_id" in
  let accessToken := prop (prop ch "spotify") "accessToken" in
  let skipId := JStr (N_to_string (now w)) in
  let requestedBy := js_or (prop body "user_name") (prop body "user_id") in
  let text := SkipRequested requestedBy (prop track "trackName") (prop track "artistName") in
  truthy channel_id = true ->
  truthy team_id = true ->
  calm w ->
  observe (app.getBotToken team_id) (store w) = Ret (JStr tok) ->
  observe (redis.getChannel channel_id) (store w) = Ret ch ->
  truthy ch = true ->
  truthy (prop ch "spotify") = true ->
  qstash env = true ->
  plays env accessToken track ->
  truthy (prop track "trackName") = true ->
  posted env (prop ch "slackChannelId") text tok (now w) data ->
  qstash_publish env = true ->
  exists w',
    app.skip env body w = (Ret (app.Json (app.SkipVoteStarted (prop track "trackName"))), w')
    /\ store w'
       = <[redis.voteKey channel_id skipId
           := Redis.mkEntry
                (Redis.RString
                   (default EmptyString
                      (JSON_stringify (JObj (new_vote skipId track requestedBy data)))))
                (Some 900)]> (store w)
    /\ outbox w'
       = outbox w ++
         [SpotifyCurrentlyPlaying (negb (spotify.is_mock accessToken)) accessToken;
          SlackPost (live_token tok) (prop ch "slackChannelId") text;
          QStashPublish channel_id skipId team_id 10]
    /\ console w' = console w.
Proof.
  intros channel_id team_id accessToken skipId requestedBy text
    Hc Ht Hcalm Htok Hch Hcht Hsp Hq Hpl Htn Hpost Hpub.
  destruct (skip_runs env body w tok ch track data Hc Ht Hcalm Htok Hch Hcht Hsp Hq Hpl Htn Hpost)
    as (w' & E & _ & S & O & L).
  rewrite Hpub in E, L. rewrite app_nil_r in L. by exists w'.
Qed.

(** X10: When the QStash job cannot be published, /skip replies with a
    failure although the vote is under way: the announcement has been
    posted and the vote record is stored, with no resolution scheduled
    for it. *)
Theorem skip_fails_after_storing_when_publish_fails env body w tok ch track data :
  let channel_id := prop body "channel_id" in
  let team_id := prop body "team_id" in
  let accessToken := prop (prop ch "spotify") "accessToken" in
  let skipId := JStr (N_to_string (now w)) in
  let requestedBy := js_or (prop body "user_name") (prop body "user_id") in
  let text := SkipRequested requestedBy (prop track "trackName") (prop track "artistName") in
  truthy channel_id = true ->
  truthy team_id = true ->
  calm w ->
  observe (app.getBotToken team_id) (store w) = Ret (JStr tok) ->
  observe (redis.getChannel channel_id) (store w) = Ret ch ->
  truthy ch = true ->
  truthy (prop ch "spotify") = true ->
  qstash env = true ->
  plays env accessToken track ->
  truthy (prop track "trackName") = true ->
  posted env (prop ch "slackChannelId") text tok (now w) data ->
  qstash_publish env = false ->
  exists w',
    app.skip env body w = (Ret (app.Json (app.FailedToSkip (message HttpError))), w')
    /\ ttl_of (store w') (redis.voteKey channel_id skipId) = Some 900
    /\ SlackPost (live_token tok) (prop ch "slackChannelId") text ∈ outbox w'
    /\ console w' = console w ++ [LogSkipFailed HttpError].
Proof.
  intros channel_id team_id accessToken skipId requestedBy text
    Hc Ht Hcalm Htok Hch Hcht Hsp Hq Hpl Htn Hpost Hpub.
  destruct (skip_runs env body w tok ch track data Hc Ht Hcalm Htok Hch Hcht Hsp Hq Hpl Htn Hpost)
    as (w' & E & _ & S & O & L).
  rewrite Hpub in E, L. exists w'. split; [done|]. split; [|split; [|done]].
  - fold channel_id skipId in S. rewrite S. apply ttl_of_insert.
  - fold accessToken text in O. rewrite O. set_solver.
Qed.

(** ** From /skip to the resolution *)

Lemma voteKey_not_team channelId skipId teamId :
  redis.voteKey channelId skipId <> redis.TEAM_PREFIX +:+ to_str teamId.
Proof. discriminate. Qed.

Lemma voteKey_not_channel channelId skipId channelId' :
  redis.voteKey channelId skipId <> redis.CHANNEL_PREFIX +:+ to_str channelId'.
Proof. discriminate. Qed.

Lemma observe_getChannel_insert channelId k e db :
  k <> redis.CHANNEL_PREFIX +:+ to_str channelId ->
  observe (redis.getChannel channelId) (<[k := e]> db) = observe (redis.getChannel channelId) db.
Proof.
  intros Hk. unfold observe, redis.getChannel, bind, redis.ensureConnection, redis.get, bind,
    send, next_fault, pure_world.
  cbn [faults store Redis.exec fst snd]. rewrite lookup_insert_ne by exact Hk.
  destruct (db !! _) as [[[s|st] t]|]; cbn [fst snd ret]; try reflexivity.
  unfold redis.parse_or_null, redis.parse. destruct (falsy_str (Some s)); [reflexivity|].
  cbn [default from_option id]. by destruct (JSON_parse s).
Qed.

Lemma observe_getBotToken_insert teamId k e db :
  k <> redis.TEAM_PREFIX +:+ to_str teamId ->
  observe (app.getBotToken teamId) (<[k := e]> db) = observe (app.getBotToken teamId) db.
Proof.
  intros Hk. unfold observe, app.getBotToken, redis.getTeamToken, bind, redis.ensureConnection,
    redis.get, bind, send, next_fault, pure_world.
  cbn [faults store Redis.exec fst snd]. rewrite lookup_insert_ne by exact Hk.
  destruct (db !! _) as [[[s|st] t]|]; cbn [fst snd ret]; try reflexivity.
  unfold redis.parse_or_null, redis.parse. destruct (falsy_str (Some s)); [reflexivity|].
  cbn [default from_option id]. destruct (JSON_parse s) as [v|]; [|reflexivity].
  cbn [ret fst snd]. by destruct (negb (truthy v)).
Qed.

Lemma deleteSkipVote_calm channelId skipId w :
  calm w ->
  redis.deleteSkipVote channelId skipId w
  = (Ret tt,
     sent (Redis.DEL [redis.voteKey channelId skipId; redis.thumbsUpKey skipId;
                      redis.thumbsDownKey skipId]) (connected w)).
Proof.
  intros Hc. unfold redis.deleteSkipVote.
  rewrite (bind_ret _ _ _ _ _ (ensureConnection_calm w Hc)).
  unfold bind. rewrite send_calm; [done | by apply calm_connected | done].
Qed.

Lemma new_vote_NoDup skipId track requestedBy data :
  NoDup (map fst (new_vote skipId track requestedBy data)).
Proof. cbn [new_vote map fst]. repeat constructor; set_solver. Qed.

(** X14: A vote nobody reacts to ends with the song kept and no trace in
    the store: after /skip has started a vote under a skip id not in
    use, the delivery QStash was asked to make, processed while the
    store is as /skip left it, announces that the song was saved with
    0 thumbs against 0, answers 200 and leaves the keyspace as it was
    before /skip. *)
Theorem unvoted_skip_is_kept_and_cleaned_up env body headers w tok ch track data w2 :
  let channel_id := prop body "channel_id" in
  let team_id := prop body "team_id" in
  let accessToken := prop (prop ch "spotify") "accessToken" in
  let skipId := JStr (N_to_string (now w)) in
  let requestedBy := js_or (prop body "user_name") (prop body "user_id") in
  let text := SkipRequested requestedBy (prop track "trackName") (prop track "artistName") in
  let delivery := JObj [("channelId", channel_id); ("skipId", skipId); ("teamId", team_id)] in
  let saved := SongSaved (normalize (prop track "trackName")) 0 0 in
  truthy channel_id = true ->
  truthy team_id = true ->
  calm w ->
  observe (app.getBotToken team_id) (store w) = Ret (JStr tok) ->
  observe (redis.getChannel channel_id) (store w) = Ret ch ->
  truthy ch = true ->
  truthy (prop ch "spotify") = true ->
  qstash env = true ->
  plays env accessToken track ->
  truthy (prop track "trackName") = true ->
  posted env (prop ch "slackChannelId") text tok (now w) data ->
  qstash_publish env = true ->
  store w !! redis.voteKey channel_id skipId = None ->
  store w !! redis.thumbsUpKey skipId = None ->
  store w !! redis.thumbsDownKey skipId = None ->
  trusted env headers delivery ->
  live_token tok = false
  \/ (exists d, slack_api env (prop ch "slackChannelId") saved tok = Some d
                /\ truthy (prop d "ok") = true) ->
  calm w2 ->
  store w2 = store (app.skip env body w).2 ->
  exists w3,
    app.process_skip env headers delivery w2 = (Ret (app.SendStatus 200), w3)
    /\ outbox w3 = outbox w2 ++ [SlackPost (live_token tok) (prop ch "slackChannelId") saved]
    /\ store w3 = store w.
Proof.
  intros channel_id team_id accessToken skipId requestedBy text delivery saved
    Hc Ht Hcalm Htok Hch Hcht Hsp Hq Hpl Htn Hpost Hpub Kv Ku Kd Htr Hsl Hc2 Hs2.
  destruct (skip_runs env body w tok ch track data Hc Ht Hcalm Htok Hch Hcht Hsp Hq Hpl Htn Hpost)
    as (w' & E & _ & S & _).
  rewrite E in Hs2. cbn [snd] in Hs2. rewrite S in Hs2. clear E S w'.
  fold channel_id skipId requestedBy in Hs2.
  set (fs := new_vote skipId track requestedBy data) in *.
  destruct (stringify_defined (JObj fs) ltac:(done)) as (vtext & Es).
  rewrite Es in Hs2. cbn [default from_option id] in Hs2.
  pose proof (JSON_parse_stringify _ _ Es) as Hp.
  pose proof (stringify_not_empty _ _ Es) as Hne.
  assert (Resolve : forall w0, calm w0 -> store w0 = store w2 -> outbox w0 = outbox w2 ->
            exists w3,
              app.resolve env delivery w0 = (Ret (app.SendStatus 200), w3)
              /\ outbox w3
                 = outbox w2 ++ [SlackPost (live_token tok) (prop ch "slackChannelId") saved]
              /\ store w3 = store w).
  { intros w0 C0 S0 O0.
    assert (Htok0 : observe (app.getBotToken team_id) (store w0) = Ret (JStr tok)).
    { rewrite S0, Hs2, observe_getBotToken_insert; [done|apply voteKey_not_team]. }
    destruct (reader_calm_run _ w0 _ (reader_getBotToken team_id) C0 Htok0)
      as (w1 & E1 & R1 & C1).
    assert (Hch1 : observe (redis.getChannel channel_id) (store w1) = Ret ch).
    { destruct R1 as (-> & _).
      rewrite S0, Hs2, observe_getChannel_insert; [done|apply voteKey_not_channel]. }
    destruct (reader_calm_run _ w1 _ (reader_getChannel channel_id) C1 Hch1)
      as (w2' & E2 & R2 & C2).
    destruct (reads_trans _ _ _ R1 R2) as (S2 & O2 & _).
    assert (Kv2 : store w2' !! redis.voteKey channel_id skipId
                  = Some (Redis.mkEntry (Redis.RString vtext) (Some 900))).
    { rewrite S2, S0, Hs2. apply lookup_insert_eq. }
    assert (Ku2 : store w2' !! redis.thumbsUpKey skipId = None).
    { rewrite S2, S0, Hs2, lookup_insert_ne; [done|apply voteKey_not_thumbsUpKey]. }
    assert (Kd2 : store w2' !! redis.thumbsDownKey skipId = None).
    { rewrite S2, S0, Hs2, lookup_insert_ne; [done|apply voteKey_not_thumbsDownKey]. }
    destruct (getSkipVote_calm channel_id skipId vtext _ _ w2' C2 Kv2 Hne Hp)
      as (o & w3 & E3 & -> & S3 & C3).
    { unfold set_or_absent. by rewrite Ku2. }
    { unfold set_or_absent. by rewrite Kd2. }
    set (got := assembled (store w2') skipId (normalize (JObj fs))) in *.
    assert (Hf : forall k, k <> "thumbsUpUsers" -> k <> "thumbsDownUsers" ->
              redis.vprop got k = normalize (prop (JObj fs) k)).
    { intros k H1 H2. unfold got, assembled, redis.vprop, prop. cbn [redis.fields normalize].
      rewrite written_values, assoc_last_spread; [|done|done].
      apply assoc_last_written, new_vote_NoDup. }
    assert (Hres : truthy (redis.vprop got "resolved") = false) by by rewrite Hf.
    assert (Hname : redis.vprop got "trackName" = normalize (prop track "trackName"))
      by by rewrite Hf.
    assert (Hu : size (redis.thumbsUpUsers got) = 0).
    { cbn [got assembled redis.thumbsUpUsers]. unfold members. by rewrite Ku2. }
    assert (Hd : size (redis.thumbsDownUsers got) = 0).
    { cbn [got assembled redis.thumbsDownUsers]. unfold members. by rewrite Kd2. }
    destruct (post_returns env (prop ch "slackChannelId") saved tok w3 Hsl)
      as (d & w4 & E4 & S4 & F4 & _ & O4).
    assert (C4 : calm w4) by (unfold calm; by rewrite F4).
    pose proof (deleteSkipVote_calm channel_id skipId w4 C4) as E5.
    eexists. split; [|split].
    - unfold app.resolve.
      change (prop delivery "channelId") with channel_id.
      change (prop delivery "skipId") with skipId.
      change (prop delivery "teamId") with team_id. cbv zeta.
      rewrite (try_bind_ret _ _ _ _ _ _ E1), (try_bind_ret _ _ _ _ _ _ E2), Hcht. cbn [negb].
      rewrite (try_bind_ret _ _ _ _ _ _ E3), Hres, Hu, Hd, Hname. cbn [Nat.leb].
      erewrite try_bind_ret; [|reflexivity].
      unfold slack.postMessage. fold saved.
      rewrite (try_bind_ret _ _ _ _ _ _ E4), (try_bind_ret _ _ _ _ _ _ E5). reflexivity.
    - cbn [sent connected outbox]. rewrite O4.
      destruct (reader_reads _ _ _ _ (reader_getSkipVote _ _) E3) as (_ & O3 & _).
      by rewrite O3, O2, O0.
    - cbn [sent connected store Redis.exec snd]. apply map_eq. intros k.
      destruct (decide (k ∈ [redis.voteKey channel_id skipId; redis.thumbsUpKey skipId;
                             redis.thumbsDownKey skipId])) as [Hin|Hout].
      + rewrite lookup_foldr_delete by done.
        apply elem_of_cons in Hin as [->|Hin]; [done|].
        apply elem_of_cons in Hin as [->|Hin]; [done|].
        apply elem_of_cons in Hin as [->|Hin]; [done|]. by apply elem_of_nil in Hin.
      + pose proof (exec_frame (Redis.DEL [redis.voteKey channel_id skipId;
                                           redis.thumbsUpKey skipId;
                                           redis.thumbsDownKey skipId]) (store w4) k Hout) as Hx.
        cbn [Redis.exec snd] in Hx. rewrite Hx, S4, S3, S2, S0, Hs2.
        rewrite lookup_insert_ne; [done|]. set_solver. }
  unfold trusted in Htr. unfold app.process_skip.
  destruct (receiver env) as [verify|].
  - destruct Htr as (Hsig & Hv). rewrite Hsig, Hv. cbn [negb]. by apply Resolve.
  - unfold bind at 1. cbn [log]. by apply Resolve.
Qed.

(** ** Reactions to an announcement *)

Lemma findSkipVoteByMessageTs_calm channelId messageTs w :
  plain (to_str channelId) = true ->
  calm w ->
  channel_in_order (store w) channelId ->
  returns (redis.findSkipVoteByMessageTs channelId messageTs) w
    (fun o w' =>
       reads w w' /\ calm w'
       /\ match o with
          | Some v =>
              exists id vote,
                stored_vote (store w) (redis.voteKey channelId (JStr id)) vote
                /\ strict_eq (prop vote "messageTs") messageTs = true
                /\ v = assembled (store w) (JStr id) vote
          | None =>
              forall id vote,
                stored_vote (store w) (redis.voteKey channelId (JStr id)) vote ->
                strict_eq (prop vote "messageTs") messageTs = false
          end).
Proof.
  intros Hplain Hc Hord.
  assert (R : returns (redis.findSkipVoteByMessageTs channelId messageTs) w
                (fun o w' =>
                   match o with
                   | Some v =>
                       exists id vote,
                         stored_vote (store w) (redis.voteKey channelId (JStr id)) vote
                         /\ strict_eq (prop vote "messageTs") messageTs = true
                         /\ v = assembled (store w) (JStr id) vote
                   | None =>
                       forall id vote,
                         stored_vote (store w) (redis.voteKey channelId (JStr id)) vote ->
                         strict_eq (prop vote "messageTs") messageTs = false
                   end)).
  { unfold redis.findSkipVoteByMessageTs.
    apply returns_bind, returns_ensureConnection; [done|].
    apply returns_bind.
    eapply returns_weaken; [apply keys_calm; by apply calm_connected|].
    intros ks w1 (S1 & C1 & Hks).
    change (store (connected w)) with (store w) in S1, Hks.
    eapply returns_weaken.
    - apply (findIn_calm channelId messageTs ks w1 Hplain C1); [by rewrite S1|].
      intros k [Hm Hin]%Hks. apply (matches_channel _ _ Hplain) in Hm as [id ->].
      exists id. by rewrite S1.
    - intros o w' (S' & Ho). rewrite S1 in S', Ho.
      destruct o as [v|]; [done|].
      intros id vote Hv. apply (Ho (redis.voteKey channelId (JStr id))); [|done].
      apply Hks. split; [apply (matches_channel _ _ Hplain); by exists id|].
      destruct Hv as (text & t & Hk & _). by rewrite Hk. }
  destruct R as (o & w' & E & Ho). exists o, w'. split; [done|].
  pose proof (reader_reads _ _ _ _ (reader_findSkipVoteByMessageTs _ _) E) as Rd.
  split; [done|]. split; [by eapply reads_calm | done].
Qed.

Lemma vprop_assembled db skipId fs k :
  k <> "thumbsUpUsers" -> k <> "thumbsDownUsers" ->
  redis.vprop (assembled db skipId (JObj fs)) k = prop (JObj fs) k.
Proof.
  intros H1 H2. unfold redis.vprop, assembled, prop. cbn [redis.fields].
  by rewrite assoc_last_spread.
Qed.

Lemma truthy_prop_object v k : truthy (prop v k) = true -> exists fs, v = JObj fs.
Proof. destruct v; try done. by eexists. Qed.

(** X18: A reaction to a message that is not the announcement of an open
    vote is ignored: when every vote record of the channel that carries
    the message's ts is flagged resolved (or there is none), the event
    is answered 200 and the store is left as it was. *)
Theorem reaction_off_an_open_vote_changes_nothing payload w :
  let ev := prop payload "event" in
  let channelId := prop (prop ev "item") "channel" in
  let messageTs := prop (prop ev "item") "ts" in
  prop payload "type" = JStr "event_callback" ->
  truthy ev = true ->
  plain (to_str channelId) = true ->
  calm w ->
  channel_in_order (store w) channelId ->
  (forall id vote,
     stored_vote (store w) (redis.voteKey channelId (JStr id)) vote ->
     strict_eq (prop vote "messageTs") messageTs = true ->
     truthy (prop vote "resolved") = true) ->
  exists w',
    app.emoji_callback payload w = (Ret (app.SendStatus 200), w')
    /\ store w' = store w.
Proof.
  intros ev channelId messageTs Hty Hev Hplain Hc Hord Hres.
  unfold app.emoji_callback. rewrite Hty. cbn [strict_eq String.eqb Ascii.eqb Bool.eqb].
  cbv zeta. fold ev. rewrite (member_truthy _ _ Hev). unfold bind at 1, ret at 1.
  destruct (_ && _); [exists w; split; reflexivity|].
  destruct (_ || _); [exists w; split; reflexivity|].
  fold channelId messageTs.
  destruct (findSkipVoteByMessageTs_calm channelId messageTs w Hplain Hc Hord)
    as (o & w1 & E & (S1 & _) & _ & Ho).
  rewrite (bind_ret _ _ _ _ _ E).
  destruct o as [v|]; [|by exists w1].
  destruct Ho as (id & vote & Hv & Hts & ->).
  pose proof (Hres id vote Hv Hts) as Hr.
  destruct (truthy_prop_object _ _ Hr) as (fs & ->).
  rewrite vprop_assembled by done. rewrite Hr. by exists w1.
Qed.

(** X17: A reaction to the announcement of an open vote is applied to that
    vote and to nothing else: when exactly one vote record of the
    channel carries the message's ts, is not flagged resolved and has
    the [id] of its key, the event is answered 200, each thumbs set of
    the vote has changed as the event says (a thumbs up added or
    removed for the reacting user, any other emoji leaving it as it
    was), and every other key is as it was. *)
Theorem reaction_on_an_open_vote_is_applied payload id vote w :
  let ev := prop payload "event" in
  let channelId := prop (prop ev "item") "channel" in
  let messageTs := prop (prop ev "item") "ts" in
  let event := (prop ev "type", prop ev "reaction", prop ev "user") in
  prop payload "type" = JStr "event_callback" ->
  truthy ev = true ->
  strict_eq (prop ev "type") (JStr "reaction_added") = true
  \/ strict_eq (prop ev "type") (JStr "reaction_removed") = true ->
  prop (prop ev "item") "type" = JStr "message" ->
  plain (to_str channelId) = true ->
  calm w ->
  channel_in_order (store w) channelId ->
  stored_vote (store w) (redis.voteKey channelId (JStr id)) vote ->
  strict_eq (prop vote "messageTs") messageTs = true ->
  (forall id' vote',
     stored_vote (store w) (redis.voteKey channelId (JStr id')) vote' ->
     strict_eq (prop vote' "messageTs") messageTs = true -> id' = id) ->
  prop vote "id" = JStr id ->
  truthy (prop vote "resolved") = false ->
  exists w',
    app.emoji_callback payload w = (Ret (app.SendStatus 200), w')
    /\ members (store w') (redis.thumbsUpKey (JStr id))
       = change (touches Up event) (members (store w) (redis.thumbsUpKey (JStr id)))
    /\ members (store w') (redis.thumbsDownKey (JStr id))
       = change (touches Down event) (members (store w) (redis.thumbsDownKey (JStr id)))
    /\ (forall k, k <> redis.thumbsUpKey (JStr id) -> k <> redis.thumbsDownKey (JStr id) ->
                  store w' !! k = store w !! k).
Proof.
  intros ev channelId messageTs event Hty Hev Hkind Hitem Hplain Hc Hord Hv Hts Huniq Hid Hres.
  assert (Hvo : exists fs, vote = JObj fs).
  { destruct vote; try discriminate Hid. by eexists. }
  destruct Hvo as (fs & ->).
  destruct (findSkipVoteByMessageTs_calm channelId messageTs w Hplain Hc Hord)
    as (o & w1 & E & R1 & C1 & Ho).
  assert (S1 : store w1 = store w) by apply R1.
  assert (Eo : o = Some (assembled (store w) (JStr id) (JObj fs))).
  { destruct o as [v|].
    - destruct Ho as (id' & vote' & Hv' & Hts' & ->).
      pose proof (Huniq id' vote' Hv' Hts') as ->.
      destruct Hv as (t1 & ? & K1 & _ & P1), Hv' as (t2 & ? & K2 & _ & P2).
      rewrite K1 in K2. injection K2 as <- <-. rewrite P1 in P2. by injection P2 as <-.
    - by rewrite (Ho id _ Hv) in Hts. }
  subst o. clear Ho.
  destruct Hv as (text & t & Kv & Hne & Hp).
  destruct (Hord id _ Kv) as (_ & _ & Su & Sd).
  assert (Hr1 : ready (JStr id) w1) by (unfold ready; by rewrite S1).
  destruct (applyReaction_sets (JStr id) (prop ev "type") (prop ev "reaction") (prop ev "user")
              w1 Hr1) as ([] & w2 & E2 & C2 & Su2 & Sd2 & Mu2 & Md2).
  destruct (confined_applyReaction (now w1)
              (fun k => k = redis.thumbsUpKey (JStr id) \/ k = redis.thumbsDownKey (JStr id))
              (prop ev "type") (prop ev "reaction") (JStr id) (prop ev "user")
              ltac:(by left) ltac:(by right) w1 eq_refl) as (_ & F2).
  rewrite E2 in F2. cbn [snd] in F2.
  assert (Kv2 : store w2 !! redis.voteKey channelId (JStr id)
                = Some (Redis.mkEntry (Redis.RString text) t)).
  { rewrite F2, S1; [done|]. intros [H|H].
    - by apply voteKey_not_thumbsUpKey in H.
    - by apply voteKey_not_thumbsDownKey in H. }
  destruct (getSkipVote_calm channelId (JStr id) text t _ w2 C2 Kv2 Hne Hp Su2 Sd2)
    as (o3 & w3 & E3 & -> & S3 & _).
  exists w3. split; [|split; [|split]].
  - unfold app.emoji_callback. rewrite Hty. cbn [strict_eq String.eqb Ascii.eqb Bool.eqb].
    cbv zeta. fold ev. rewrite (member_truthy _ _ Hev). unfold bind at 1, ret at 1.
    assert (G1 : negb (strict_eq (prop ev "type") (JStr "reaction_added"))
                 && negb (strict_eq (prop ev "type") (JStr "reaction_removed")) = false).
    { destruct Hkind as [-> | ->]; [done|]. apply andb_false_r. }
    rewrite G1, Hitem.
    assert (G2 : truthy (prop ev "item") = true).
    { destruct (prop ev "item"); try done. }
    rewrite G2. cbn [negb orb strict_eq String.eqb Ascii.eqb Bool.eqb].
    fold channelId messageTs.
    rewrite (bind_ret _ _ _ _ _ E).
    rewrite !vprop_assembled by done. rewrite Hres, Hid.
    rewrite (bind_ret _ _ _ _ _ E2), (bind_ret _ _ _ _ _ E3). reflexivity.
  - by rewrite S3, Mu2, S1.
  - by rewrite S3, Md2, S1.
  - intros k K1 K2. rewrite S3, F2, S1; [done|]. by intros [?|?].
Qed.

(** ** Reading a song text *)

Lemma split_hyphen_free s : all_chars no_hyphen s = true -> split_on "-" s = [s].
Proof.
  induction s as [|c s IH]; simpl; [done|].
  intros [Hc Hs]%andb_true_iff. unfold no_hyphen in Hc. apply negb_true_iff in Hc.
  by rewrite Hc, IH.
Qed.

Lemma split_hyphen_part a b :
  all_chars no_hyphen a = true ->
  split_on "-" (a +:+ String "-" b) = a :: split_on "-" b.
Proof.
  induction a as [|c a IH]; [done|]. rewrite append_cons. simpl.
  intros [Hc Ha]%andb_true_iff. unfold no_hyphen in Hc. apply negb_true_iff in Hc.
  by rewrite Hc, IH.
Qed.

Lemma split_on_head sep s :
  exists p ps, split_on sep s = p :: ps
               /\ all_chars (fun c => negb (Ascii.eqb c sep)) p = true.
Proof.
  induction s as [|c s (p & ps & E & Hp)]; simpl; [by eexists _, _|].
  destruct (Ascii.eqb c sep) eqn:Ec; [by eexists _, _|].
  rewrite E. eexists _, _. split; [done|]. simpl. by rewrite Ec.
Qed.

Lemma join_with_cons sep p q ps :
  join_with sep (p :: q :: ps) = p +:+ sep +:+ join_with sep (q :: ps).
Proof.
  unfold join_with. simpl. revert p q. induction ps as [|r ps IH]; intros p q; simpl; [done|].
  rewrite IH, (IH q r). by rewrite !string_app_assoc.
Qed.

(** Joining the parts of a split gives the string back. *)
Lemma join_split sep s : join_with (String sep EmptyString) (split_on sep s) = s.
Proof.
  induction s as [|c s IH]; [done|]. simpl.
  destruct (split_on_head sep s) as (p & ps & E & _). rewrite E in *.
  destruct (Ascii.eqb c sep) eqn:Ec.
  - apply Ascii.eqb_eq in Ec as ->. rewrite join_with_cons, IH. done.
  - destruct ps as [|q ps].
    + simpl in *. by rewrite IH.
    + rewrite join_with_cons in *. rewrite append_cons. by rewrite IH.
Qed.

Lemma strip_prefix_app p s r : strip_prefix p s = Some r -> s = p +:+ r.
Proof.
  revert s. induction p as [|a p IH]; intros s; simpl; [by intros [= ->]|].
  destruct s as [|b s]; [done|]. destruct (Ascii.eqb a b) eqn:E; [|done].
  apply Ascii.eqb_eq in E as ->. intros H. rewrite append_cons. by rewrite (IH _ H).
Qed.

Lemma whitespace_invisible :
  Forall (fun p => exists a p', p = String a p'
                                /\ all_chars (fun c => negb (visible c)) p = true) whitespace.
Proof. unfold whitespace. cbn [map]. repeat constructor; by eexists _, _. Qed.

Lemma head_omap_none {A B} (f : A -> option B) l :
  Forall (fun a => f a = None) l -> head (omap f l) = None.
Proof. induction 1 as [|a l Ha _ IH]; [done|]. simpl. by rewrite Ha. Qed.

Lemma head_omap_some {A B} (f : A -> option B) l b :
  head (omap f l) = Some b -> exists a, a ∈ l /\ f a = Some b.
Proof.
  induction l as [|a l IH]; [done|]. simpl. destruct (f a) as [b'|] eqn:E.
  - intros [= <-]. exists a. split; [by left | done].
  - intros (a' & Hin & Ha')%IH. exists a'. split; [by right | done].
Qed.

Lemma after_space_visible c r : visible c = true -> after_space (String c r) = None.
Proof.
  intros Hc. unfold after_space. pose proof whitespace_invisible as W. revert W.
  generalize whitespace. intros l W. apply head_omap_none.
  eapply Forall_impl; [exact W|].
  intros p (a & p' & -> & Ha). simpl in *.
  destruct (Ascii.eqb a c) eqn:E; [|done].
  apply Ascii.eqb_eq in E as ->. apply andb_true_iff in Ha as [Ha _]. by rewrite Hc in Ha.
Qed.

Lemma trimStart_visible c r : visible c = true -> trimStart (String c r) = String c r.
Proof.
  intros Hc. unfold trimStart. cbn [String.length trim_front].
  by rewrite after_space_visible.
Qed.

Lemma app_split_invisible p r x c y :
  visible c = true -> all_chars (fun c => negb (visible c)) p = true ->
  x +:+ String c y = p +:+ r ->
  exists x', x = p +:+ x' /\ r = x' +:+ String c y.
Proof.
  intros Hc. revert x. induction p as [|a p IH]; intros x Hp E.
  - exists x. by rewrite !append_nil in *.
  - simpl in Hp. apply andb_true_iff in Hp as [Ha Hp].
    destruct x as [|b x].
    + rewrite append_nil, append_cons in E. injection E as -> _. by rewrite Hc in Ha.
    + rewrite !append_cons in E. injection E as -> E.
      destruct (IH x Hp E) as (x' & -> & ->). exists x'. by rewrite append_cons.
Qed.

Lemma after_space_split s r :
  after_space s = Some r ->
  exists p, all_chars (fun c => negb (visible c)) p = true /\ s = p +:+ r.
Proof.
  unfold after_space. pose proof whitespace_invisible as W. revert W.
  generalize whitespace. intros l W E.
  apply head_omap_some in E as (p & Hin & Hp). apply strip_prefix_app in Hp.
  rewrite Forall_forall in W. destruct (W p Hin) as (a & p' & _ & Ha). by exists p.
Qed.

Lemma app_not_empty x c y : x +:+ String c y <> EmptyString.
Proof. destruct x; [rewrite append_nil|rewrite append_cons]; discriminate. Qed.

Lemma trim_front_nonblank fuel x c y :
  visible c = true -> trim_front fuel (x +:+ String c y) <> EmptyString.
Proof.
  intros Hc. revert x. induction fuel as [|n IH]; intros x; cbn [trim_front].
  - apply app_not_empty.
  - destruct (after_space (x +:+ String c y)) as [r|] eqn:E; [|apply app_not_empty].
    apply after_space_split in E as (p & Ha & Hp).
    destruct (app_split_invisible _ _ _ _ _ Hc Ha Hp) as (x' & _ & ->). apply IH.
Qed.

Lemma trimEnd_step a s :
  trimStart (String a s) <> EmptyString -> trimEnd (String a s) = String a (trimEnd s).
Proof.
  intros H. change (trimEnd (String a s))
    with (match trimStart (String a s) with
          | EmptyString => EmptyString
          | _ => String a (trimEnd s)
          end).
  by destruct (trimStart (String a s)).
Qed.

Lemma trimEnd_keeps x c tail :
  visible c = true -> trimEnd tail = EmptyString ->
  trimEnd (x +:+ String c tail) = x +:+ String c EmptyString.
Proof.
  intros Hc Ht. induction x as [|a x IH].
  - rewrite !append_nil. rewrite trimEnd_step; [by rewrite Ht|].
    by rewrite trimStart_visible.
  - rewrite !append_cons. rewrite trimEnd_step; [by rewrite IH|].
    apply (trim_front_nonblank _ (String a x) c tail Hc).
Qed.

Lemma last_split c r : exists x, String c r = x +:+ String (last_char c r) EmptyString.
Proof.
  revert c. induction r as [|d r IH]; intros c; [by exists EmptyString|].
  destruct (IH d) as (x & E). exists (String c x). rewrite append_cons. simpl. by rewrite <- E.
Qed.

Lemma after_space_space s : after_space (String " " s) = Some s.
Proof. vm_compute. reflexivity. Qed.

Lemma trimStart_space s : trimStart (String " " s) = trimStart s.
Proof. unfold trimStart. cbn [String.length trim_front]. by rewrite after_space_space. Qed.

Lemma trimEnd_space : trimEnd " " = EmptyString.
Proof. vm_compute. reflexivity. Qed.

Lemma trim_firm s : firm s = true -> trim s = s /\ trim (s +:+ " ") = s /\ trim (" " +:+ s) = s.
Proof.
  destruct s as [|c r]; [done|]. intros [Hc Hl]%andb_true_iff.
  destruct (last_split c r) as (x & E).
  assert (T1 : trimEnd (String c r) = String c r).
  { rewrite E. by apply trimEnd_keeps. }
  assert (T2 : trimEnd (String c r +:+ " ") = String c r).
  { rewrite E at 1. rewrite string_app_assoc, append_cons, append_nil.
    rewrite trimEnd_keeps; [by rewrite <- E | done | apply trimEnd_space]. }
  unfold trim. split; [|split].
  - by rewrite trimStart_visible.
  - rewrite append_cons, trimStart_visible by done. by rewrite <- append_cons.
  - rewrite append_cons, append_nil, trimStart_space. by rewrite trimStart_visible.
Qed.

Lemma all_chars_trim_front ok fuel s :
  all_chars ok s = true -> all_chars ok (trim_front fuel s) = true.
Proof.
  revert s. induction fuel as [|n IH]; intros s Hs; cbn [trim_front]; [done|].
  destruct (after_space s) as [r|] eqn:E; [|done].
  apply after_space_split in E as (p & _ & ->).
  rewrite all_chars_app in Hs. apply andb_true_iff in Hs as [_ Hr]. by apply IH.
Qed.

Lemma all_chars_trimEnd ok s : all_chars ok s = true -> all_chars ok (trimEnd s) = true.
Proof.
  induction s as [|c s IH]; [done|]. intros [Hc Hs]%andb_true_iff.
  change (trimEnd (String c s))
    with (match trimStart (String c s) with
          | EmptyString => EmptyString
          | _ => String c (trimEnd s)
          end).
  destruct (trimStart (String c s)); [done|]. simpl. by rewrite Hc, IH.
Qed.

Lemma all_chars_trim ok s : all_chars ok s = true -> all_chars ok (trim s) = true.
Proof. intros H. by apply all_chars_trimEnd, all_chars_trim_front. Qed.

Lemma all_chars_drop_last_quote ok s :
  all_chars ok s = true -> all_chars ok (drop_last_quote s) = true.
Proof.
  induction s as [|c s IH]; [done|]. intros [Hc Hs]%andb_true_iff.
  destruct s as [|d s]; simpl.
  - destruct (Ascii.eqb c dquote); [done|]. simpl. by rewrite Hc.
  - rewrite Hc. simpl. by apply IH.
Qed.

Lemma all_chars_strip_quotes ok s :
  all_chars ok s = true -> all_chars ok (strip_quotes s) = true.
Proof.
  intros H. unfold strip_quotes. apply all_chars_drop_last_quote.
  destruct s as [|c s]; [done|]. destruct (Ascii.eqb c dquote); [|done].
  by apply andb_true_iff in H as [_ H].
Qed.

Lemma drop_last_quote_end x c :
  drop_last_quote (x +:+ String c EmptyString)
  = if Ascii.eqb c dquote then x else x +:+ String c EmptyString.
Proof.
  induction x as [|a x IH].
  - rewrite append_nil. simpl. by destruct (Ascii.eqb c dquote).
  - rewrite append_cons.
    change (drop_last_quote (String a (x +:+ String c EmptyString)))
      with (match x +:+ String c EmptyString with
            | EmptyString => if Ascii.eqb a dquote then EmptyString
                             else String a (x +:+ String c EmptyString)
            | String _ _ => String a (drop_last_quote (x +:+ String c EmptyString))
            end).
    rewrite IH. destruct x; simpl; by destruct (Ascii.eqb c dquote).
Qed.

Lemma strip_quotes_word s : word s = true -> strip_quotes s = s.
Proof.
  destruct s as [|c r]; [done|]. unfold word.
  intros [[_ Hc]%andb_true_iff Hl]%andb_true_iff.
  apply negb_true_iff in Hc, Hl. unfold strip_quotes. rewrite Hc.
  destruct (last_split c r) as (x & E). rewrite E, drop_last_quote_end. by rewrite Hl.
Qed.

Lemma strip_quotes_quoted s : strip_quotes (quoted s) = s.
Proof.
  unfold strip_quotes, quoted. rewrite Ascii.eqb_refl, drop_last_quote_end.
  by rewrite Ascii.eqb_refl.
Qed.

Lemma firm_quoted s : firm (quoted s) = true.
Proof.
  unfold quoted, firm. cbn [visible]. 
  assert (L : forall c r, last_char c (r +:+ String dquote EmptyString) = dquote).
  { intros c r. revert c. induction r as [|d r IH]; intros c; [done|]. rewrite append_cons.
    simpl. apply IH. }
  by rewrite L.
Qed.

Lemma word_firm s : word s = true -> firm s = true.
Proof.
  destruct s as [|c r]; [done|]. unfold word.
  by intros [[H _]%andb_true_iff _]%andb_true_iff.
Qed.

Lemma word_not_empty s : word s = true -> String.eqb s EmptyString = false.
Proof. by destruct s. Qed.

(** X23: parseSongText finds nothing in a text without a hyphen. *)
Theorem parseSongText_needs_a_hyphen text w :
  all_chars no_hyphen text = true ->
  spotify.parseSongText (JStr text) w = (Ret JNull, w).
Proof. intros H. unfold spotify.parseSongText. by rewrite split_hyphen_free. Qed.

(** X22: parseSongText reads the formats it documents: for a title
    without a hyphen and an artist, each starting and ending with a
    visible character that is not a double quote, the texts
    [title - artist], ["title" - "artist"] and [title -artist] all
    give that title and that artist; the artist may contain hyphens. *)
Theorem parseSongText_reads_the_documented_formats title artist w :
  word title = true -> word artist = true -> all_chars no_hyphen title = true ->
  let song := JObj [("title", JStr title); ("artist", JStr artist)] in
  spotify.parseSongText (JStr (title +:+ " - " +:+ artist)) w = (Ret song, w)
  /\ spotify.parseSongText (JStr (quoted title +:+ " - " +:+ quoted artist)) w = (Ret song, w)
  /\ spotify.parseSongText (JStr (title +:+ " -" +:+ artist)) w = (Ret song, w).
Proof.
  intros Ht Ha Hh song.
  assert (Run : forall t a,
            all_chars no_hyphen t = true ->
            strip_quotes (trim t) = title -> strip_quotes (trim a) = artist ->
            spotify.parseSongText (JStr (t +:+ String "-" a)) w = (Ret song, w)).
  { intros t a Hf Et Ea. unfold spotify.parseSongText.
    rewrite (split_hyphen_part _ _ Hf).
    destruct (split_on_head "-" a) as (p & ps & E & _).
    pose proof (join_split "-" a) as J. rewrite E in *.
    cbn [length Nat.ltb Nat.leb head tail default from_option id].
    change (join_with "-" (p :: ps)) with (join_with (String "-" EmptyString) (p :: ps)).
    rewrite J, Et, Ea. cbn [truthy].
    by rewrite (word_not_empty _ Ht), (word_not_empty _ Ha). }
  assert (Hspace : forall t, all_chars no_hyphen t = true ->
                             all_chars no_hyphen (t +:+ " ") = true).
  { intros t H. by rewrite all_chars_app, H. }
  destruct (trim_firm _ (word_firm _ Ht)) as (T1 & T2 & T3).
  destruct (trim_firm _ (word_firm _ Ha)) as (A1 & A2 & A3).
  destruct (trim_firm _ (firm_quoted title)) as (Q1 & Q2 & Q3).
  destruct (trim_firm _ (firm_quoted artist)) as (R1 & R2 & R3).
  split; [|split].
  - change (title +:+ " - " +:+ artist) with (title +:+ " " +:+ String "-" (" " +:+ artist)).
    rewrite <- string_app_assoc. apply Run; [by apply Hspace | |].
    + by rewrite T2, strip_quotes_word.
    + by rewrite A3, strip_quotes_word.
  - change (quoted title +:+ " - " +:+ quoted artist)
      with (quoted title +:+ " " +:+ String "-" (" " +:+ quoted artist)).
    rewrite <- string_app_assoc. apply Run.
    + apply Hspace. unfold quoted. simpl. by rewrite all_chars_app, Hh.
    + by rewrite Q2, strip_quotes_quoted.
    + by rewrite R3, strip_quotes_quoted.
  - change (title +:+ " -" +:+ artist) with (title +:+ " " +:+ String "-" artist).
    rewrite <- string_app_assoc. apply Run; [by apply Hspace | |].
    + by rewrite T2, strip_quotes_word.
    + by rewrite A1, strip_quotes_word.
Qed.

(** X24: Whatever parseSongText returns for a string is null or a song
    with a title and an artist that are not empty, the title without
    a hyphen; it changes nothing. *)
Theorem parseSongText_returns_null_or_a_song text w :
  exists r,
    spotify.parseSongText (JStr text) w = (Ret r, w)
    /\ (r = JNull
        \/ exists title artist,
             r = JObj [("title", JStr title); ("artist", JStr artist)]
             /\ title <> EmptyString /\ artist <> EmptyString
             /\ all_chars no_hyphen title = true).
Proof.
  unfold spotify.parseSongText.
  destruct (split_on_head "-" text) as (p & ps & E & Hp). rewrite E.
  destruct (length (p :: ps) <? 2)%nat; [eexists; split; [done|by left]|].
  cbn [head tail default from_option id truthy].
  destruct (String.eqb (strip_quotes (trim p)) EmptyString) eqn:E1;
    [eexists; split; [done|by left]|].
  destruct (String.eqb (strip_quotes (trim (join_with "-" ps))) EmptyString) eqn:E2;
    [eexists; split; [done|by left]|].
  eexists. split; [done|]. right. eexists _, _. split; [done|].
  apply String.eqb_neq in E1, E2. split; [done|]. split; [done|].
  by apply all_chars_strip_quotes, all_chars_trim.
Qed.

(** ** Listing the channels *)

Lemma substring_all m s : String.length s <= m -> String.substring 0 m s = s.
Proof.
  revert m. induction s as [|c s IH]; intros m Hm; [by destruct m|].
  destruct m as [|m]; simpl in *; [lia|]. rewrite IH; [done|lia].
Qed.

Lemma remove_first_channel id : remove_first redis.CHANNEL_PREFIX (redis.CHANNEL_PREFIX +:+ id) = id.
Proof.
  unfold remove_first.
  assert (I : String.index 0 redis.CHANNEL_PREFIX (redis.CHANNEL_PREFIX +:+ id) = Some 0).
  { change (redis.CHANNEL_PREFIX +:+ id) with (String "c" ("hannel:" +:+ id)).
    cbn [String.index].
    assert (P : String.prefix redis.CHANNEL_PREFIX (String "c" ("hannel:" +:+ id)) = true).
    { apply prefix_app. by exists id. }
    by rewrite P. }
  rewrite I.
  change (String.substring 0 0 (redis.CHANNEL_PREFIX +:+ id)) with EmptyString.
  rewrite append_nil, string_app_length.
  change (String.substring (0 + String.length redis.CHANNEL_PREFIX)
            (String.length redis.CHANNEL_PREFIX + String.length id)
            (redis.CHANNEL_PREFIX +:+ id))
    with (String.substring 0 (String.length redis.CHANNEL_PREFIX + String.length id) id).
  apply substring_all. lia.
Qed.

Lemma matches_channels key :
  Redis.matches (redis.CHANNEL_PREFIX +:+ "*") key = true
  <-> exists id, key = redis.CHANNEL_PREFIX +:+ id.
Proof.
  unfold Redis.matches. rewrite glob_literal_star; [apply prefix_app | done |].
  rewrite !string_app_length. simpl. lia.
Qed.

Lemma collect_calm ks acc w :
  calm w ->
  channels_in_order (store w) ->
  (forall k, k ∈ ks -> exists id, k = redis.CHANNEL_PREFIX +:+ id /\ is_Some (store w !! k)) ->
  returns (redis.collect ks acc) w
    (fun r w' =>
       store w' = store w
       /\ exists channels,
            r = JObj channels
            /\ forall id, id <> "__proto__" ->
                 assoc_last id channels
                 = match (if decide (redis.CHANNEL_PREFIX +:+ id ∈ ks)
                          then channel_record (store w) id else None) with
                   | Some v => Some v
                   | None => assoc_last id acc
                   end).
Proof.
  intros Hc Hord. revert acc w Hc Hord.
  induction ks as [|key rest IH]; intros acc w Hc Hord Hks.
  { apply returns_ret. split; [done|]. exists acc. split; [done|]. intros id _.
    destruct (decide _) as [Hin|]; [by apply elem_of_nil in Hin | done]. }
  destruct (Hks key) as (id0 & -> & [[v t] Hk]); [by left|].
  destruct (Hord id0 _ Hk) as (text & Hv & Htext). simpl in Hv. subst v.
  assert (Inj : forall id, redis.CHANNEL_PREFIX +:+ id = redis.CHANNEL_PREFIX +:+ id0 -> id = id0).
  { intros id. apply string_app_inj_l. }
  assert (Rest : forall acc' w1, store w1 = store w -> calm w1 ->
            returns (redis.collect rest acc') w1
              (fun r w' =>
                 store w' = store w
                 /\ exists channels,
                      r = JObj channels
                      /\ forall id, id <> "__proto__" ->
                           assoc_last id channels
                           = match (if decide (redis.CHANNEL_PREFIX +:+ id ∈ rest)
                                    then channel_record (store w) id else None) with
                             | Some v => Some v
                             | None => assoc_last id acc'
                             end)).
  { intros acc' w1 S1 C1. eapply returns_weaken.
    - apply IH; [done | by rewrite S1 |]. intros k Hin. rewrite S1. apply Hks. by right.
    - intros r w' (S' & channels & -> & Hch). rewrite S1 in S', Hch. split; [done|].
      by exists channels. }
  assert (Rec : channel_record (store w) id0
                = if String.eqb text EmptyString then None else JSON_parse text).
  { unfold channel_record. by rewrite Hk. }
  cbn [redis.collect]. apply returns_bind.
  eapply returns_weaken; [by apply (get_calm _ text t w)|].
  intros value w1 (-> & S1 & C1). cbn [falsy_str].
  destruct (String.eqb text EmptyString) eqn:Et.
  - eapply returns_weaken; [by apply Rest|].
    intros r w' (S' & channels & -> & Hch). split; [done|]. exists channels. split; [done|].
    intros id Hid. rewrite (Hch id Hid).
    destruct (decide (redis.CHANNEL_PREFIX +:+ id ∈ rest)) as [Hin|Hout].
    + rewrite decide_True; [done | by right].
    + destruct (decide (redis.CHANNEL_PREFIX +:+ id ∈ (redis.CHANNEL_PREFIX +:+ id0) :: rest))
        as [[E|Hin]%elem_of_cons|]; [|done|done].
      apply Inj in E as ->. by rewrite Rec.
  - destruct Htext as [->|(v & Hp)]; [done|].
    cbn [default from_option id]. unfold redis.parse at 1. rewrite Hp.
    apply returns_bind, returns_ret. rewrite remove_first_channel.
    eapply returns_weaken; [by apply Rest|].
    intros r w' (S' & channels & -> & Hch). split; [done|]. exists channels. split; [done|].
    intros id Hid. rewrite (Hch id Hid).
    destruct (decide (redis.CHANNEL_PREFIX +:+ id ∈ rest)) as [Hin|Hout].
    + rewrite decide_True; [|by right].
      destruct (channel_record (store w) id) as [v'|] eqn:Er; [done|].
      destruct (String.eqb id0 "__proto__"); [done|].
      rewrite assoc_last_set_prop.
      destruct (String.eqb id id0) eqn:E; [|done].
      apply String.eqb_eq in E as ->. rewrite Rec, Hp in Er. done.
    + destruct (decide (redis.CHANNEL_PREFIX +:+ id ∈ (redis.CHANNEL_PREFIX +:+ id0) :: rest))
        as [[E|Hin]%elem_of_cons|Hout'].
      * apply Inj in E as ->. rewrite Rec, Hp.
        apply String.eqb_neq in Hid. rewrite Hid.
        by rewrite assoc_last_set_prop, String.eqb_refl.
      * done.
      * assert (Hne : String.eqb id id0 = false).
        { apply String.eqb_neq. intros ->. apply Hout'. by left. }
        destruct (String.eqb id0 "__proto__"); [done|].
        by rewrite assoc_last_set_prop, Hne.
Qed.

(** X4: getAllChannels lists the channels of the keyspace and nothing
    else: with Redis answering and every channel key holding a JSON
    text, the object it returns has, for each channel id other than
    [__proto__], an own property with the record stored for it, and
    none for an id without a record; the store is left as it was. *)
Theorem getAllChannels_lists_the_channels w :
  calm w ->
  channels_in_order (store w) ->
  exists channels w',
    redis.getAllChannels w = (Ret (JObj channels), w')
    /\ store w' = store w
    /\ forall id, id <> "__proto__" ->
         assoc_last id channels = channel_record (store w) id.
Proof.
  intros Hc Hord.
  assert (R : returns redis.getAllChannels w
                (fun r w' =>
                   store w' = store w
                   /\ exists channels,
                        r = JObj channels
                        /\ forall id, id <> "__proto__" ->
                             assoc_last id channels = channel_record (store w) id)).
  { unfold redis.getAllChannels.
    apply returns_bind, returns_ensureConnection; [done|].
    apply returns_bind.
    eapply returns_weaken; [apply keys_calm; by apply calm_connected|].
    intros ks w1 (S1 & C1 & Hks).
    change (store (connected w)) with (store w) in S1, Hks.
    eapply returns_weaken.
    - apply (collect_calm ks [] w1 C1); [by rewrite S1|].
      intros k [Hm Hin]%Hks. apply matches_channels in Hm as [id ->].
      exists id. by rewrite S1.
    - intros r w' (S' & channels & -> & Hch). rewrite S1 in S', Hch. split; [done|].
      exists channels. split; [done|]. intros id Hid. rewrite (Hch id Hid).
      destruct (decide (redis.CHANNEL_PREFIX +:+ id ∈ ks)) as [Hin|Hout].
      + by destruct (channel_record (store w) id).
      + cbn [assoc_last]. symmetry. unfold channel_record.
        destruct (store w !! (redis.CHANNEL_PREFIX +:+ id)) as [e|] eqn:Ek; [|done].
        destruct Hout. apply Hks. split; [apply matches_channels; by exists id|].
        by rewrite Ek. }
  destruct R as (r & w' & E & S & channels & -> & Hch). by exists channels, w'.
Qed.

(** ** Lookups *)

Lemma reader_collect ks channels : reader (redis.collect ks channels).
Proof.
  revert channels. induction ks as [|key rest IH]; intros channels; [apply reader_ret|].
  cbn [redis.collect]. apply reader_bind; [apply reader_get|]. intros value.
  destruct (falsy_str value); [apply IH|].
  apply reader_bind; [apply reader_parse|]. intros v. apply IH.
Qed.

Lemma reader_getAllChannels : reader redis.getAllChannels.
Proof.
  unfold redis.getAllChannels.
  apply reader_bind; [apply reader_ensureConnection|]. intros _.
  apply reader_bind; [apply reader_keys|]. intros ks. apply reader_collect.
Qed.

Lemma reader_getTeamByChannelId channelId : reader (redis.getTeamByChannelId channelId).
Proof.
  unfold redis.getTeamByChannelId.
  apply reader_bind; [apply reader_ensureConnection|]. intros _.
  apply reader_bind; [apply reader_get|]. intros value. apply reader_ret.
Qed.

(** X1: The lookups of the adapter never write: whatever Redis holds and
    whether it answers or fails, getChannel, getTeamToken,
    getTeamByChannelId, getSkipVote, findSkipVoteByMessageTs and
    getAllChannels leave the keyspace as it was, send read commands
    only and make no outbound call. *)
Theorem lookups_never_write channelId teamId skipId messageTs w :
  untouched w (redis.getChannel channelId w).2
  /\ untouched w (redis.getTeamToken teamId w).2
  /\ untouched w (redis.getTeamByChannelId channelId w).2
  /\ untouched w (redis.getSkipVote channelId skipId w).2
  /\ untouched w (redis.findSkipVoteByMessageTs channelId messageTs w).2
  /\ untouched w (redis.getAllChannels w).2.
Proof.
  assert (U : forall A (m : M A), reader m -> untouched w (m w).2).
  { intros A m Hm. apply reads_untouched, (Hm w). }
  split; [apply U, reader_getChannel|].
  split; [apply U, reader_getTeamToken|].
  split; [apply U, reader_getTeamByChannelId|].
  split; [apply U, reader_getSkipVote|].
  split; [apply U, reader_findSkipVoteByMessageTs | apply U, reader_getAllChannels].
Qed.

(** ** The properties on the running example *)

Lemma process_skip_rejects_unsigned_witness :
  exists reason w',
    app.process_skip Scenario.env_signed (JObj [("upstash-signature", JStr "forged")])
      Scenario.process_body Scenario.voted
    = (Ret (app.StatusSend 401 reason), w')
    /\ store w' = store Scenario.voted /\ cmds w' = cmds Scenario.voted
    /\ faults w' = faults Scenario.voted /\ outbox w' = outbox Scenario.voted.
Proof.
  eapply process_skip_rejects_unsigned; [reflexivity | right; reflexivity].
Defined.

Lemma resolve_skips_iff_more_thumbs_down_witness :
  outbox (app.resolve Scenario.env Scenario.process_body Scenario.voted).2
  = outbox Scenario.after_load ++
      [SpotifyNext true (JStr "tok");
       SlackPost true (JStr "C1") (SongSkipped (JStr "Song A") (JStr "Artist A") 1 2)].
Proof.
  pose proof (resolve_skips_iff_more_thumbs_down Scenario.env Scenario.process_body
                Scenario.voted) as H.
  cbv zeta in H.
  refine (eq_trans (proj1 (H _ _ _ _ _ _ _ _ _ _ _ _) _) _).
  - vm_compute. reflexivity.
  - vm_compute. reflexivity.
  - vm_compute. reflexivity.
  - vm_compute. reflexivity.
  - vm_compute. reflexivity.
  - vm_compute. reflexivity.
  - vm_compute. lia.
  - vm_compute. reflexivity.
Defined.


Lemma resolve_absent_is_not_a_fault_witness :
  (app.resolve Scenario.env Scenario.process_body Scenario.start).1 = Ret (app.SendStatus 200)
  /\ (app.resolve Scenario.env Scenario.process_body Scenario.outage).1
     = Ret (app.SendStatus 500)
  /\ (app.resolve Scenario.env Scenario.process_body (Scenario.failing 0)).1
     = Ret (app.SendStatus 500)
  /\ (app.resolve Scenario.env Scenario.process_body (Scenario.failing 3)).1
     = Ret (app.SendStatus 500)
  /\ (app.resolve Scenario.env Scenario.process_body (Scenario.failing 6)).1
     = Ret (app.SendStatus 500)
  /\ (app.resolve Scenario.env Scenario.process_body (Scenario.failing 9)).1
     = Ret (app.SendStatus 500)
  /\ untouched (Scenario.failing 6)
       (app.resolve Scenario.env Scenario.process_body (Scenario.failing 6)).2.
Proof.
  split; [|split; [|split; [|split; [|split; [|split]]]]].
  - pose proof (resolve_absent_is_not_a_fault Scenario.env Scenario.process_body
                  Scenario.start) as H.
    cbv zeta in H.
    refine (proj1 (proj1 (proj2 H [] _) _ _ _ _ _ _)).
    + vm_compute. reflexivity.
    + apply not_elem_of_nil.
    + vm_compute. reflexivity.
    + vm_compute. reflexivity.
    + vm_compute. reflexivity.
  - pose proof (resolve_absent_is_not_a_fault Scenario.env Scenario.process_body
                  Scenario.outage) as H.
    cbv zeta in H.
    refine (proj1 (proj2 (proj2 H (replicate 4 false ++ [true]) _) _)).
    + vm_compute. reflexivity.
    + rewrite elem_of_app. right. apply elem_of_cons. by left.
  - pose proof (resolve_absent_is_not_a_fault Scenario.env Scenario.process_body
                  (Scenario.failing 0)) as H.
    cbv zeta in H.
    refine (proj1 (proj2 (proj2 H (replicate 0 false ++ [true]) _) _)).
    + vm_compute. reflexivity.
    + rewrite elem_of_app. right. apply elem_of_cons. by left.
  - pose proof (resolve_absent_is_not_a_fault Scenario.env Scenario.process_body
                  (Scenario.failing 3)) as H.
    cbv zeta in H.
    refine (proj1 (proj2 (proj2 H (replicate 3 false ++ [true]) _) _)).
    + vm_compute. reflexivity.
    + rewrite elem_of_app. right. apply elem_of_cons. by left.
  - pose proof (resolve_absent_is_not_a_fault Scenario.env Scenario.process_body
                  (Scenario.failing 6)) as H.
    cbv zeta in H.
    refine (proj1 (proj2 (proj2 H (replicate 6 false ++ [true]) _) _)).
    + vm_compute. reflexivity.
    + rewrite elem_of_app. right. apply elem_of_cons. by left.
  - pose proof (resolve_absent_is_not_a_fault Scenario.env Scenario.process_body
                  (Scenario.failing 9)) as H.
    cbv zeta in H.
    refine (proj1 (proj2 (proj2 H (replicate 9 false ++ [true]) _) _)).
    + vm_compute. reflexivity.
    + rewrite elem_of_app. right. apply elem_of_cons. by left.
  - pose proof (resolve_absent_is_not_a_fault Scenario.env Scenario.process_body
                  (Scenario.failing 6)) as H.
    cbv zeta in H.
    refine (proj1 (proj2 (proj2 (proj2 (proj2 H (replicate 6 false ++ [true]) _) _)) _)).
    + vm_compute. reflexivity.
    + rewrite elem_of_app. right. apply elem_of_cons. by left.
    + change (true ∈ [false; false; false; false; false; false; true]).
      do 6 (apply elem_of_cons; right). apply elem_of_cons. by left.
Defined.

Lemma skip_without_track_changes_nothing_witness :
  let accessToken := prop (prop Scenario.channel "spotify") "accessToken" in
  app.skip Scenario.env_silence Scenario.skip_body Scenario.start
  = (Ret (app.Json app.NoSongPlaying), Scenario.no_track)
  /\ store Scenario.no_track = store Scenario.start
  /\ (exists cs, cmds Scenario.no_track = cmds Scenario.start ++ cs
                 /\ Forall (fun c => Redis.is_write c = false) cs)
  /\ outbox Scenario.no_track = outbox Scenario.start ++
       [SpotifyCurrentlyPlaying (negb (spotify.is_mock accessToken)) accessToken].
Proof.
  refine (skip_without_track_changes_nothing Scenario.env_silence Scenario.skip_body
            Scenario.start _ _ Scenario.channel _ _ Scenario.no_track _ _ _ _ _ _ _ _ _).
  - vm_compute. reflexivity.
  - vm_compute. reflexivity.
  - vm_compute. reflexivity.
  - vm_compute. reflexivity.
  - vm_compute. reflexivity.
  - vm_compute. reflexivity.
  - vm_compute. reflexivity.
  - vm_compute. reflexivity.
  - left. vm_compute. reflexivity.
Defined.

Lemma skip_failure_does_not_block_cleanup_witness :
  exists w',
    app.resolve Scenario.env_skip_fails Scenario.process_body Scenario.voted
    = (Ret (app.SendStatus 200), w')
    /\ store w' !! redis.voteKey (prop Scenario.process_body "channelId")
                     (prop Scenario.process_body "skipId") = None.
Proof.
  pose proof (skip_failure_does_not_block_cleanup Scenario.env_skip_fails
                Scenario.process_body Scenario.voted) as H.
  cbv zeta in H.
  refine (match H _ _ _ _ _ _ _ _ _ _ _ _ _ _ _ _ _ with
          | ex_intro _ w' (conj E (conj K _)) => ex_intro _ w' (conj E K)
          end).
  - vm_compute. reflexivity.
  - vm_compute. reflexivity.
  - vm_compute. reflexivity.
  - vm_compute. reflexivity.
  - vm_compute. reflexivity.
  - vm_compute. reflexivity.
  - vm_compute. lia.
  - vm_compute. reflexivity.
  - vm_compute. reflexivity.
  - right. eexists. split; vm_compute; reflexivity.
  - vm_compute. constructor.
Defined.

(** C3, as stated, fails: with Slack unreachable the resolution of the
    open vote answers 500 and the vote record and the thumbs-down set
    are still in the store. *)
Lemma announcement_failure_leaves_the_vote :
  let w' := (app.resolve Scenario.env_slack_down Scenario.process_body Scenario.voted).2 in
  (app.resolve Scenario.env_slack_down Scenario.process_body Scenario.voted).1
  = Ret (app.SendStatus 500)
  /\ store w' !! redis.voteKey (JStr "C1") Scenario.skipId <> None
  /\ members (store w') (redis.thumbsDownKey Scenario.skipId) = {["U2"; "U3"]}.
Proof. vm_compute. split; [reflexivity|]. split; [discriminate | reflexivity]. Qed.

Lemma vote_keys_are_written_with_ttl_900_witness :
  let channelId := JStr "C1" in
  let skipId := Scenario.skipId in
  let vote := redis.mkVote [] {["U9"]} ∅ in
  let w := Scenario.created in
  (let db := store (redis.setSkipVote channelId skipId vote w).2 in
   ttl_of db (redis.voteKey channelId skipId) = Some 900
   /\ (redis.thumbsUpUsers vote <> ∅ -> ttl_of db (redis.thumbsUpKey skipId) = Some 900)
   /\ (redis.thumbsDownUsers vote <> ∅ -> ttl_of db (redis.thumbsDownKey skipId) = Some 900))
  /\ (let db := store (redis.addThumbsUp skipId (JStr "U1") w).2 in
      ttl_of db (redis.thumbsUpKey skipId) = Some 900
      /\ forall k, k <> redis.thumbsUpKey skipId -> db !! k = store w !! k)
  /\ (let db := store (redis.addThumbsDown skipId (JStr "U1") w).2 in
      ttl_of db (redis.thumbsDownKey skipId) = Some 900
      /\ forall k, k <> redis.thumbsDownKey skipId -> db !! k = store w !! k).
Proof.
  refine (vote_keys_are_written_with_ttl_900 (JStr "C1") Scenario.skipId
            (redis.mkVote [] {["U9"]} ∅) (JStr "U1") Scenario.created _ _ _).
  - vm_compute. constructor.
  - vm_compute. exact I.
  - vm_compute. exact I.
Defined.

(** C8, as stated, fails: a thumbs up 100 seconds after the vote was
    created gives the set 900 seconds again and leaves the metadata key
    with the 800 seconds it had left. *)
Lemma thumbs_up_leaves_the_metadata_ttl :
  let w := elapse 100 Scenario.created in
  let w' := (app.applyReaction (JStr "reaction_added") (JStr "+1") Scenario.skipId
               (JStr "U1") w).2 in
  ttl_of (store w') (redis.thumbsUpKey Scenario.skipId) = Some 900
  /\ ttl_of (store w') (redis.voteKey (JStr "C1") Scenario.skipId) = Some 800
  /\ ttl_of (store w') (redis.voteKey (JStr "C1") Scenario.skipId) <> Some 900.
Proof. vm_compute. split; [reflexivity|]. split; [reflexivity | discriminate]. Qed.

Lemma reactions_count_current_voters_witness :
  current_voters Up Scenario.show_of_hands = 2
  /\ current_voters Down Scenario.show_of_hands = 1
  /\ exists w',
       applyReactions Scenario.skipId Scenario.show_of_hands Scenario.created = (Ret tt, w')
       /\ size (members (store w') (redis.thumbsUpKey Scenario.skipId)) = 2
       /\ size (members (store w') (redis.thumbsDownKey Scenario.skipId)) = 1.
Proof.
  assert (Cu : current_voters Up Scenario.show_of_hands = 2) by (vm_compute; reflexivity).
  assert (Cd : current_voters Down Scenario.show_of_hands = 1) by (vm_compute; reflexivity).
  split; [exact Cu|]. split; [exact Cd|].
  pose proof (reactions_count_current_voters Scenario.skipId Scenario.show_of_hands
                Scenario.created) as H.
  rewrite Cu, Cd in H.
  refine (H _ _ _).
  - vm_compute. constructor.
  - vm_compute. reflexivity.
  - vm_compute. reflexivity.
Defined.

Lemma created_in_order : channel_in_order (store Scenario.created) (JStr "C1").
Proof.
  assert (L : map_to_list (store Scenario.created) = Scenario.created_entries)
    by (vm_compute; reflexivity).
  intros id e H. apply elem_of_map_to_list in H. rewrite L in H. clear L.
  unfold Scenario.created_entries in H.
  apply elem_of_cons in H as [H|H].
  - injection H as Hk He.
    change (id = "1700000000123") in Hk. subst id e.
    split; [reflexivity|]. split.
    + eexists. split; [reflexivity|]. right. eexists.
      split; [vm_compute; reflexivity|]. split; discriminate.
    + split; vm_compute; exact I.
  - apply elem_of_cons in H as [H|H].
    { apply (f_equal fst) in H. cbn [fst] in H.
      change (redis.voteKey (JStr "C1") (JStr id)) with ("skipVote:C1:" +:+ id) in H.
      discriminate H. }
    apply elem_of_cons in H as [H|H].
    { apply (f_equal fst) in H. cbn [fst] in H.
      change (redis.voteKey (JStr "C1") (JStr id)) with ("skipVote:C1:" +:+ id) in H.
      discriminate H. }
    destruct (proj1 (elem_of_nil _) H).
Qed.

Lemma find_returns_the_match_resolved_or_not_witness :
  exists o w',
    redis.findSkipVoteByMessageTs (JStr "C1") (JStr "1700000000.5") Scenario.created
    = (Ret o, w')
    /\ store w' = store Scenario.created
    /\ match o with
       | Some v =>
           exists id vote,
             stored_vote (store Scenario.created) (redis.voteKey (JStr "C1") (JStr id)) vote
             /\ strict_eq (prop vote "messageTs") (JStr "1700000000.5") = true
             /\ v = assembled (store Scenario.created) (JStr id) vote
       | None =>
           forall id vote,
             stored_vote (store Scenario.created) (redis.voteKey (JStr "C1") (JStr id)) vote ->
             strict_eq (prop vote "messageTs") (JStr "1700000000.5") = false
       end.
Proof.
  refine (find_returns_the_match_resolved_or_not (JStr "C1") (JStr "1700000000.5")
            Scenario.created _ _ created_in_order).
  - reflexivity.
  - vm_compute. constructor.
Defined.

(** C4, as stated, fails: a vote record whose resolved flag is set is
    returned by findSkipVoteByMessageTs like any other. *)
Lemma find_returns_a_resolved_vote :
  exists v,
    (redis.findSkipVoteByMessageTs (JStr "C1") (JStr "1700000000.5") Scenario.flagged).1
    = Ret (Some v)
    /\ redis.vprop v "resolved" = JBool true.
Proof.
  eexists. split.
  - vm_compute. reflexivity.
  - vm_compute. reflexivity.
Qed.

Lemma getSkipVote_after_setSkipVote_witness :
  let channelId := JStr "C1" in
  let skipId := JStr "1700000000999" in
  let vote := redis.mkVote [("id", skipId); ("messageTs", JNull); ("resolved", JBool false)]
                {["U1"]} ∅ in
  let w := Scenario.created in
  exists w1 w2 got,
    redis.setSkipVote channelId skipId vote w = (Ret tt, w1)
    /\ redis.getSkipVote channelId skipId w1 = (Ret (Some got), w2)
    /\ (forall k, k <> "thumbsUpUsers" -> k <> "thumbsDownUsers" ->
                  redis.vprop got k = normalize (redis.vprop vote k)
                  /\ (is_scalar (redis.vprop vote k) = true ->
                      redis.vprop got k = redis.vprop vote k))
    /\ redis.thumbsUpUsers got
       = members (store w) (redis.thumbsUpKey skipId) ∪ redis.thumbsUpUsers vote
    /\ redis.thumbsDownUsers got
       = members (store w) (redis.thumbsDownKey skipId) ∪ redis.thumbsDownUsers vote
    /\ (store w !! redis.thumbsUpKey skipId = None ->
        redis.thumbsUpUsers got = redis.thumbsUpUsers vote)
    /\ (store w !! redis.thumbsDownKey skipId = None ->
        redis.thumbsDownUsers got = redis.thumbsDownUsers vote).
Proof.
  refine (getSkipVote_after_setSkipVote (JStr "C1") (JStr "1700000000999")
            (redis.mkVote [("id", JStr "1700000000999"); ("messageTs", JNull);
                           ("resolved", JBool false)] {["U1"]} ∅)
            Scenario.created _ _ _ _).
  - vm_compute. constructor.
  - vm_compute. exact I.
  - vm_compute. exact I.
  - cbn [redis.fields map fst]. repeat constructor; set_solver.
Defined.

(** C9, as stated, fails: storing the open vote again with empty sets
    and reading it back returns the thumbs already given, not the empty
    sets supplied. *)
Lemma setSkipVote_keeps_earlier_members :
  let vote := redis.mkVote [("id", Scenario.skipId); ("resolved", JBool false)] ∅ ∅ in
  let w1 := (redis.setSkipVote (JStr "C1") Scenario.skipId vote Scenario.voted).2 in
  exists got,
    (redis.getSkipVote (JStr "C1") Scenario.skipId w1).1 = Ret (Some got)
    /\ redis.thumbsUpUsers got = {["U1"]}
    /\ redis.thumbsUpUsers got <> redis.thumbsUpUsers vote.
Proof.
  eexists. split; [vm_compute; reflexivity|].
  split; [vm_compute; reflexivity|]. vm_compute. discriminate.
Qed.

Lemma created_votes id vote :
  stored_vote (store Scenario.created) (redis.voteKey (JStr "C1") (JStr id)) vote ->
  id = "1700000000123" /\ vote = Scenario.metadata.
Proof.
  assert (L : map_to_list (store Scenario.created) = Scenario.created_entries)
    by (vm_compute; reflexivity).
  assert (P : JSON_parse (Scenario.text Scenario.metadata) = Some Scenario.metadata)
    by (vm_compute; reflexivity).
  intros (text & t & H & _ & Hp). apply elem_of_map_to_list in H. rewrite L in H. clear L.
  unfold Scenario.created_entries in H.
  apply elem_of_cons in H as [H|H].
  - injection H as Hk Ht _. change (id = "1700000000123") in Hk. subst id text.
    rewrite P in Hp. injection Hp as <-. by split.
  - clear P Hp. apply elem_of_cons in H as [H|H].
    { apply (f_equal fst) in H. cbn [fst] in H.
      change (redis.voteKey (JStr "C1") (JStr id)) with ("skipVote:C1:" +:+ id) in H.
      discriminate H. }
    apply elem_of_cons in H as [H|H].
    { apply (f_equal fst) in H. cbn [fst] in H.
      change (redis.voteKey (JStr "C1") (JStr id)) with ("skipVote:C1:" +:+ id) in H.
      discriminate H. }
    destruct (proj1 (elem_of_nil _) H).
Qed.

Lemma emoji_callback_writes_thumbs_sets_only_witness :
  store (app.emoji_callback (Scenario.reaction "reaction_added" "+1" "U1") Scenario.created).2
    !! "skipVote:C1:1700000000123"
  = store Scenario.created !! "skipVote:C1:1700000000123".
Proof.
  refine (emoji_callback_writes_thumbs_sets_only _ Scenario.created
            "skipVote:C1:1700000000123" _).
  reflexivity.
Defined.

Lemma process_skip_writes_its_vote_only_witness :
  store (app.process_skip Scenario.env (JObj []) Scenario.process_body Scenario.voted).2
    !! "channel:C1"
  = store Scenario.voted !! "channel:C1".
Proof.
  refine (process_skip_writes_its_vote_only Scenario.env (JObj []) Scenario.process_body
            Scenario.voted "channel:C1" _ _ _).
  - discriminate.
  - discriminate.
  - discriminate.
Defined.

Lemma skip_writes_the_new_vote_only_witness :
  store (app.skip Scenario.env Scenario.skip_body Scenario.start).2 !! "team:T1"
  = store Scenario.start !! "team:T1".
Proof.
  refine (skip_writes_the_new_vote_only Scenario.env Scenario.skip_body Scenario.start
            "team:T1" _).
  discriminate.
Defined.

Lemma post_returns_acknowledged_witness :
  let text := SongSaved (JStr "Song A") 1 0 in
  let w' := (slack.post Scenario.env (JStr "C1") text (JStr "xoxb-1") Scenario.start).2 in
  truthy (prop Scenario.slack_ok "ok") = true
  /\ store w' = store Scenario.start
  /\ exists live, outbox w' = outbox Scenario.start ++ [SlackPost live (JStr "C1") text].
Proof.
  refine (post_returns_acknowledged Scenario.env (JStr "C1") (SongSaved (JStr "Song A") 1 0)
            (JStr "xoxb-1") Scenario.start Scenario.slack_ok _ _).
  vm_compute. reflexivity.
Defined.

Lemma getChannel_after_setChannel_witness :
  exists w1 w2,
    redis.setChannel (JStr "C2") Scenario.channel Scenario.start = (Ret tt, w1)
    /\ redis.getChannel (JStr "C2") w1 = (Ret (normalize Scenario.channel), w2)
    /\ ttl_of (store w1) (redis.CHANNEL_PREFIX +:+ to_str (JStr "C2")) = None
    /\ store w2 = store w1.
Proof.
  refine (getChannel_after_setChannel (JStr "C2") Scenario.channel Scenario.start _ _).
  - vm_compute. constructor.
  - discriminate.
Defined.

Lemma getBotToken_after_storeTeamToken_witness :
  let fs := [("botToken", JStr "xoxb-2"); ("teamName", JStr "U")] in
  exists w1 w2,
    redis.storeTeamToken (JStr "T2") (JObj fs) Scenario.start = (Ret tt, w1)
    /\ app.getBotToken (JStr "T2") w1 = (Ret (normalize (prop (JObj fs) "botToken")), w2)
    /\ (is_scalar (prop (JObj fs) "botToken") = true ->
        app.getBotToken (JStr "T2") w1 = (Ret (prop (JObj fs) "botToken"), w2)).
Proof.
  refine (getBotToken_after_storeTeamToken (JStr "T2")
            [("botToken", JStr "xoxb-2"); ("teamName", JStr "U")] Scenario.start _ _).
  - vm_compute. constructor.
  - cbn [map fst]. repeat constructor; set_solver.
Defined.

Lemma skip_where_not_installed_witness :
  exists w',
    app.skip Scenario.env Scenario.skip_body (pure_world ∅)
    = (Ret (app.Json (app.FailedToSkip (message NotInstalled))), w')
    /\ store w' = store (pure_world ∅)
    /\ outbox w' = outbox (pure_world ∅)
    /\ console w' = console (pure_world ∅) ++ [LogSkipFailed NotInstalled].
Proof.
  refine (skip_where_not_installed Scenario.env Scenario.skip_body (pure_world ∅) _ _ _ _).
  - reflexivity.
  - reflexivity.
  - constructor.
  - reflexivity.
Defined.

Lemma updateChannel_merges_and_stores_witness :
  let updates := JObj [("spotify", JObj [("accessToken", JStr "fake-access")])] in
  exists fs w1 w2,
    redis.updateChannel (JStr "C1") updates Scenario.start = (Ret (JObj fs), w1)
    /\ (forall k,
          assoc_last k fs
          = match assoc_last k (own updates) with
            | Some v => Some v
            | None => assoc_last k (own Scenario.channel)
            end)
    /\ redis.getChannel (JStr "C1") w1 = (Ret (normalize (JObj fs)), w2)
    /\ (forall k, k <> redis.CHANNEL_PREFIX +:+ to_str (JStr "C1") ->
                  store w1 !! k = store Scenario.start !! k).
Proof.
  refine (updateChannel_merges_and_stores (JStr "C1")
            (JObj [("spotify", JObj [("accessToken", JStr "fake-access")])])
            Scenario.channel Scenario.start _ _).
  - vm_compute. constructor.
  - vm_compute. reflexivity.
Defined.

Lemma getSkipVote_after_deleteSkipVote_witness :
  exists w1 w2,
    redis.deleteSkipVote (JStr "C1") Scenario.skipId Scenario.voted = (Ret tt, w1)
    /\ redis.getSkipVote (JStr "C1") Scenario.skipId w1 = (Ret None, w2)
    /\ (forall k, k <> redis.voteKey (JStr "C1") Scenario.skipId ->
                  k <> redis.thumbsUpKey Scenario.skipId ->
                  k <> redis.thumbsDownKey Scenario.skipId ->
                  store w1 !! k = store Scenario.voted !! k).
Proof.
  refine (getSkipVote_after_deleteSkipVote (JStr "C1") Scenario.skipId Scenario.voted _).
  vm_compute. constructor.
Defined.

Lemma vote_expires_after_900_seconds_witness :
  let vote := redis.mkVote [("id", JStr "7"); ("resolved", JBool false)] {["U1"]} ∅ in
  let w1 := (redis.setSkipVote (JStr "C1") (JStr "7") vote Scenario.start).2 in
  (exists got,
     (redis.getSkipVote (JStr "C1") (JStr "7") w1).1 = Ret (Some got)
     /\ (redis.getSkipVote (JStr "C1") (JStr "7") (elapse 899 w1)).1 = Ret (Some got)
     /\ redis.thumbsUpUsers got = redis.thumbsUpUsers vote
     /\ redis.thumbsDownUsers got = redis.thumbsDownUsers vote)
  /\ (redis.getSkipVote (JStr "C1") (JStr "7") (elapse 900 w1)).1 = Ret None.
Proof.
  pose (vote := redis.mkVote [("id", JStr "7"); ("resolved", JBool false)] {["U1"]} ∅).
  split.
  - refine (proj1 (vote_expires_after_900_seconds (JStr "C1") (JStr "7") vote 899
                     Scenario.start _ _ _) _).
    + vm_compute. constructor.
    + vm_compute. reflexivity.
    + vm_compute. reflexivity.
    + lia.
  - refine (proj2 (vote_expires_after_900_seconds (JStr "C1") (JStr "7") vote 900
                     Scenario.start _ _ _) _).
    + vm_compute. constructor.
    + vm_compute. reflexivity.
    + vm_compute. reflexivity.
    + lia.
Defined.

Lemma thumbs_up_and_down_coexist_witness :
  exists w1 w2,
    redis.addThumbsUp Scenario.skipId (JStr "U1") Scenario.created = (Ret tt, w1)
    /\ redis.addThumbsDown Scenario.skipId (JStr "U1") w1 = (Ret tt, w2)
    /\ to_str (JStr "U1") ∈ members (store w2) (redis.thumbsUpKey Scenario.skipId)
    /\ to_str (JStr "U1") ∈ members (store w2) (redis.thumbsDownKey Scenario.skipId).
Proof.
  refine (thumbs_up_and_down_coexist Scenario.skipId (JStr "U1") Scenario.created _).
  split; [|split].
  - vm_compute. constructor.
  - vm_compute. exact I.
  - vm_compute. exact I.
Defined.

Lemma skip_starts_a_vote_witness :
  exists w',
    app.skip Scenario.env Scenario.skip_body Scenario.start
    = (Ret (app.Json (app.SkipVoteStarted (JStr "Song A"))), w')
    /\ store w'
       = <["skipVote:C1:1700000000123"
           := Redis.mkEntry (Redis.RString (Scenario.text Scenario.metadata)) (Some 900)]>
           (store Scenario.start)
    /\ outbox w'
       = outbox Scenario.start ++
         [SpotifyCurrentlyPlaying true (JStr "tok");
          SlackPost true (JStr "C1")
            (SkipRequested (JStr "ann") (JStr "Song A") (JStr "Artist A"));
          QStashPublish (JStr "C1") Scenario.skipId (JStr "T1") 10]
    /\ console w' = console Scenario.start.
Proof.
  pose proof (skip_starts_a_vote Scenario.env Scenario.skip_body Scenario.start "xoxb-1"
                Scenario.channel Scenario.track Scenario.slack_ok) as H.
  cbv zeta in H.
  refine (H _ _ _ _ _ _ _ _ _ _ _ _).
  - reflexivity.
  - reflexivity.
  - constructor.
  - vm_compute. reflexivity.
  - vm_compute. reflexivity.
  - reflexivity.
  - reflexivity.
  - reflexivity.
  - right. split; [reflexivity|]. by exists (JStr "Song A"), "Artist A".
  - reflexivity.
  - right. split; [reflexivity|]. split; reflexivity.
  - reflexivity.
Defined.

Lemma skip_fails_after_storing_when_publish_fails_witness :
  exists w',
    app.skip Scenario.env_publish_fails Scenario.skip_body Scenario.start
    = (Ret (app.Json (app.FailedToSkip (message HttpError))), w')
    /\ ttl_of (store w') (redis.voteKey (JStr "C1") Scenario.skipId) = Some 900
    /\ SlackPost true (JStr "C1")
         (SkipRequested (JStr "ann") (JStr "Song A") (JStr "Artist A")) ∈ outbox w'
    /\ console w' = console Scenario.start ++ [LogSkipFailed HttpError].
Proof.
  pose proof (skip_fails_after_storing_when_publish_fails Scenario.env_publish_fails
                Scenario.skip_body Scenario.start "xoxb-1"
                Scenario.channel Scenario.track Scenario.slack_ok) as H.
  cbv zeta in H.
  refine (H _ _ _ _ _ _ _ _ _ _ _ _).
  - reflexivity.
  - reflexivity.
  - constructor.
  - vm_compute. reflexivity.
  - vm_compute. reflexivity.
  - reflexivity.
  - reflexivity.
  - reflexivity.
  - right. split; [reflexivity|]. by exists (JStr "Song A"), "Artist A".
  - reflexivity.
  - right. split; [reflexivity|]. split; reflexivity.
  - reflexivity.
Defined.

Lemma unvoted_skip_is_kept_and_cleaned_up_witness :
  exists w3,
    app.process_skip Scenario.env (JObj []) Scenario.process_body Scenario.created
    = (Ret (app.SendStatus 200), w3)
    /\ outbox w3
       = outbox Scenario.created ++ [SlackPost true (JStr "C1") (SongSaved (JStr "Song A") 0 0)]
    /\ store w3 = store Scenario.start.
Proof.
  pose proof (unvoted_skip_is_kept_and_cleaned_up Scenario.env Scenario.skip_body (JObj [])
                Scenario.start "xoxb-1" Scenario.channel Scenario.track Scenario.slack_ok
                Scenario.created) as H.
  cbv zeta in H.
  refine (H _ _ _ _ _ _ _ _ _ _ _ _ _ _ _ _ _ _ _).
  - reflexivity.
  - reflexivity.
  - constructor.
  - vm_compute. reflexivity.
  - vm_compute. reflexivity.
  - reflexivity.
  - reflexivity.
  - reflexivity.
  - right. split; [reflexivity|]. by exists (JStr "Song A"), "Artist A".
  - reflexivity.
  - right. split; [reflexivity|]. split; reflexivity.
  - reflexivity.
  - vm_compute. reflexivity.
  - vm_compute. reflexivity.
  - vm_compute. reflexivity.
  - exact I.
  - right. exists Scenario.slack_ok. split; reflexivity.
  - vm_compute. constructor.
  - reflexivity.
Defined.

Lemma reaction_off_an_open_vote_changes_nothing_witness :
  exists w',
    app.emoji_callback Scenario.stray Scenario.created = (Ret (app.SendStatus 200), w')
    /\ store w' = store Scenario.created.
Proof.
  pose proof (reaction_off_an_open_vote_changes_nothing Scenario.stray Scenario.created) as H.
  cbv zeta in H.
  refine (H _ _ _ _ created_in_order _).
  - reflexivity.
  - reflexivity.
  - reflexivity.
  - vm_compute. constructor.
  - intros id vote Hv. destruct (created_votes id vote Hv) as (-> & ->). discriminate.
Defined.

Lemma reaction_on_an_open_vote_is_applied_witness :
  exists w',
    app.emoji_callback (Scenario.reaction "reaction_added" "+1" "U1") Scenario.created
    = (Ret (app.SendStatus 200), w')
    /\ members (store w') (redis.thumbsUpKey Scenario.skipId)
       = members (store Scenario.created) (redis.thumbsUpKey Scenario.skipId) ∪ {["U1"]}
    /\ members (store w') (redis.thumbsDownKey Scenario.skipId)
       = members (store Scenario.created) (redis.thumbsDownKey Scenario.skipId)
    /\ (forall k, k <> redis.thumbsUpKey Scenario.skipId ->
                  k <> redis.thumbsDownKey Scenario.skipId ->
                  store w' !! k = store Scenario.created !! k).
Proof.
  pose proof (reaction_on_an_open_vote_is_applied
                (Scenario.reaction "reaction_added" "+1" "U1") "1700000000123"
                Scenario.metadata Scenario.created) as H.
  cbv zeta in H.
  refine (H _ _ _ _ _ _ created_in_order _ _ _ _ _).
  - reflexivity.
  - reflexivity.
  - left. reflexivity.
  - reflexivity.
  - reflexivity.
  - vm_compute. constructor.
  - exists (Scenario.text Scenario.metadata), (Some 900).
    split; [vm_compute; reflexivity|]. split; [discriminate|]. vm_compute. reflexivity.
  - reflexivity.
  - intros id' vote' Hv _. by destruct (created_votes id' vote' Hv) as (-> & _).
  - reflexivity.
  - reflexivity.
Defined.

Lemma skip_always_replies_witness :
  app.skip Scenario.env (JObj [("team_id", JStr "T1")]) Scenario.start
  = (Ret (app.StatusSend 400 "Missing channel_id"), Scenario.start)
  /\ app.skip Scenario.env (JObj [("channel_id", JStr "C1")]) Scenario.start
     = (Ret (app.StatusSend 400 "Missing team_id"), Scenario.start)
  /\ exists reply w',
       app.skip Scenario.env Scenario.skip_body Scenario.start = (Ret (app.Json reply), w').
Proof.
  split; [|split].
  - destruct (skip_always_replies Scenario.env (JObj [("team_id", JStr "T1")]) Scenario.start)
      as (r & w' & E & H & _).
    destruct (H eq_refl) as [-> ->]. exact E.
  - destruct (skip_always_replies Scenario.env (JObj [("channel_id", JStr "C1")])
                Scenario.start) as (r & w' & E & _ & H & _).
    destruct (H eq_refl eq_refl) as [-> ->]. exact E.
  - destruct (skip_always_replies Scenario.env Scenario.skip_body Scenario.start)
      as (r & w' & E & _ & _ & H).
    destruct (H eq_refl eq_refl) as (reply & ->). exists reply, w'. exact E.
Defined.

Lemma start_channels_in_order : channels_in_order (store Scenario.start).
Proof.
  assert (L : map_to_list (store Scenario.start) = Scenario.start_entries)
    by (vm_compute; reflexivity).
  assert (P : JSON_parse (Scenario.text Scenario.channel) = Some Scenario.channel)
    by (vm_compute; reflexivity).
  intros id e H. apply elem_of_map_to_list in H. rewrite L in H. clear L.
  unfold Scenario.start_entries in H.
  apply elem_of_cons in H as [H|H].
  - apply (f_equal snd) in H. cbn [snd] in H. subst e.
    exists (Scenario.text Scenario.channel). split; [done|].
    right. by exists Scenario.channel.
  - clear P. apply elem_of_cons in H as [H|H].
    { apply (f_equal fst) in H. cbn [fst] in H.
      change (redis.CHANNEL_PREFIX +:+ id) with ("channel:" +:+ id) in H.
      discriminate H. }
    destruct (proj1 (elem_of_nil _) H).
Qed.

Lemma getAllChannels_lists_the_channels_witness :
  exists channels w',
    redis.getAllChannels Scenario.start = (Ret (JObj channels), w')
    /\ store w' = store Scenario.start
    /\ forall id, id <> "__proto__" ->
         assoc_last id channels = channel_record (store Scenario.start) id.
Proof.
  refine (getAllChannels_lists_the_channels Scenario.start _ start_channels_in_order).
  vm_compute. constructor.
Defined.

Lemma parseSongText_needs_a_hyphen_witness :
  spotify.parseSongText (JStr "Bohemian Rhapsody") Scenario.start = (Ret JNull, Scenario.start).
Proof.
  refine (parseSongText_needs_a_hyphen "Bohemian Rhapsody" Scenario.start _).
  reflexivity.
Defined.

Lemma parseSongText_reads_the_documented_formats_witness :
  let song := JObj [("title", JStr "Hey Jude"); ("artist", JStr "The Beatles - live")] in
  spotify.parseSongText (JStr ("Hey Jude" +:+ " - " +:+ "The Beatles - live")) Scenario.start
  = (Ret song, Scenario.start)
  /\ spotify.parseSongText
       (JStr (quoted "Hey Jude" +:+ " - " +:+ quoted "The Beatles - live")) Scenario.start
     = (Ret song, Scenario.start)
  /\ spotify.parseSongText (JStr ("Hey Jude" +:+ " -" +:+ "The Beatles - live")) Scenario.start
     = (Ret song, Scenario.start).
Proof.
  refine (parseSongText_reads_the_documented_formats "Hey Jude" "The Beatles - live"
            Scenario.start _ _ _).
  - reflexivity.
  - reflexivity.
  - reflexivity.
Defined.
